(** * SpaceCatRunning: the simulation core of the endless runner

    A shallow embedding of [GameStateService] (services/game-state.service.ts)
    and of the two [ThreeSceneComponent] skins: the space-cat runner
    (src/game/three-scene.component.ts, module [Cat]) and the plane game
    (its sibling skin, module [Plane]).

    JavaScript numbers that hold integers (lane index, score, [Date.now()]
    milliseconds) are [Z]; every other number is an exact rational [Q], with
    decimal literals written as in the source.  Rounding is part of the
    model in one place, the lane draw, where [Math.floor] makes the last bit
    of a product count ([roundToDouble]); modules [Binary64] and [Doubles]
    repeat the speed ramp, the jump arc and the lane draw on binary64
    floats.  Objects mutated in place become records threaded
    through the functions; the injected singleton service is a field of the
    component state.  What three.js and [Math] compute (bounding boxes,
    [Math.sin]) and what a frame reads from outside (clock, random draws)
    are parameters.

    The file has three parts: the program, the vocabulary of the properties
    (statements, auxiliary notions, concrete scenes), and the proofs. *)

From Stdlib Require Import ZArith QArith Qminmax Qabs Qround Qpower.
From Stdlib Require Import Lia Lqa List String Bool.
From Stdlib Require PrimFloat FloatOps SpecFloat.
Import ListNotations.

Local Open Scope Z_scope.
Local Open Scope Q_scope.
Local Open Scope string_scope.
Local Open Scope list_scope.

(** ** JavaScript comparison operators on numbers *)

Definition Qltb (a b : Q) : bool := negb (Qle_bool b a).
Definition Qgtb (a b : Q) : bool := Qltb b a.

(** [Math.PI], the rational value printed for the binary64 constant. *)
Definition Math_PI : Q := 3.141592653589793.

(** ** services/game-state.service.ts *)

Inductive GameStatus : Set := MENU | PLAYING | GAME_OVER.

Definition GameStatus_eqb (a b : GameStatus) : bool :=
  match a, b with
  | MENU, MENU | PLAYING, PLAYING | GAME_OVER, GAME_OVER => true
  | _, _ => false
  end.

Module GameStateService.

(** The three signals of the service. *)
Record t : Type := mk {
  status : GameStatus;
  score : Z;
  speed : Q
}.

Definition init : t := mk MENU 0 1.0.

Definition isPlaying (g : t) : bool := GameStatus_eqb (status g) PLAYING.
Definition isGameOver (g : t) : bool := GameStatus_eqb (status g) GAME_OVER.
Definition isMenu (g : t) : bool := GameStatus_eqb (status g) MENU.

Definition startGame (g : t) : t := mk PLAYING 0 1.0.

Definition endGame (g : t) : t := mk GAME_OVER (score g) (speed g).

Definition resetGame (g : t) : t := mk MENU 0 (speed g).

Definition incrementScore (amount : Z) (g : t) : t :=
  if isPlaying g
  then mk (status g) (score g + amount)%Z (Qmin (speed g + 0.001) 2.5)
  else g.

End GameStateService.

Import GameStateService(status, score, speed).

(** ** The part of three.js the simulation reads *)

Record Vector3 : Type := vec3 { x : Q; y : Q; z : Q }.

Definition set_x (v : Q) (p : Vector3) : Vector3 := vec3 v (y p) (z p).
Definition set_y (v : Q) (p : Vector3) : Vector3 := vec3 (x p) v (z p).
Definition set_z (v : Q) (p : Vector3) : Vector3 := vec3 (x p) (y p) v.

(** A [THREE.Group]: the transform the simulation reads and writes, and
    the one child transform the code writes besides: the roll of the
    propeller of the plane's player group, [this.propeller.rotation.z].  The
    propeller is a child of the player group, so the group's bounding box
    depends on it.  Every other group keeps the field at 0. *)
Record Object3D : Type := object3D {
  position : Vector3;
  rotation : Vector3;
  scale : Vector3;
  propeller : Q
}.

Definition set_position (v : Vector3) (o : Object3D) : Object3D :=
  object3D v (rotation o) (scale o) (propeller o).
Definition set_rotation (v : Vector3) (o : Object3D) : Object3D :=
  object3D (position o) v (scale o) (propeller o).
Definition set_scale (v : Vector3) (o : Object3D) : Object3D :=
  object3D (position o) (rotation o) v (propeller o).
Definition set_propeller (v : Q) (o : Object3D) : Object3D :=
  object3D (position o) (rotation o) (scale o) v.

Record Box3 : Type := box3 { min : Vector3; max : Vector3 }.

(** Modelled from the spec: [THREE.Box3.intersectsBox] is library code
    outside src/; section 4.4 gives its contract, the ranges overlap on all
    three axes, [a.min <= b.max /\ b.min <= a.max] per axis. *)
Definition intersectsBox (a b : Box3) : bool :=
  Qle_bool (x (min a)) (x (max b)) && Qle_bool (x (min b)) (x (max a)) &&
  Qle_bool (y (min a)) (y (max b)) && Qle_bool (y (min b)) (y (max a)) &&
  Qle_bool (z (min a)) (z (max b)) && Qle_bool (z (min b)) (z (max a)).

(** The local [type] string of [spawnObstacle], both skins. *)
Inductive ObstacleType : Set := box | tall | balloon | pylon.

(** An obstacle group: its transform, which meshes it was built from, and
    the rotation of [children[0]]. *)
Record Obstacle : Type := obstacle {
  group : Object3D;
  kind : ObstacleType;
  child0_rotation : Vector3
}.

Definition set_group (g : Object3D) (o : Obstacle) : Obstacle :=
  obstacle g (kind o) (child0_rotation o).
Definition set_child0_rotation (r : Vector3) (o : Obstacle) : Obstacle :=
  obstacle (group o) (kind o) r.

(** What the scene asks of the libraries it runs on: the world-space
    bounding box of the player group and of an obstacle group
    ([new THREE.Box3().setFromObject(...)]) and [Math.sin]. *)
Class Three : Type := {
  setFromObject : Object3D -> Box3;
  setFromObstacle : Obstacle -> Box3;
  Math_sin : Q -> Q
}.

(** What one animation frame reads from outside: [Date.now()] at the top of
    [animate], [Date.now()] inside [resetScene], and the [Math.random()]
    draws of [spawnObstacle]. *)
Record Frame : Type := frame {
  now : Z;
  resetNow : Z;
  random_lane : Q;
  random_type : Q;
  random_rotation : Q
}.

(** ** ThreeSceneComponent: the fields both skins declare *)

Record ThreeSceneComponent : Type := component {
  gameState : GameStateService.t;
  player : Object3D;
  currentLane : Z;
  targetX : Q;
  isJumping : bool;
  jumpVelocity : Q;
  playerY : Q;
  lastGameStatus : GameStatus;
  obstacles : list Obstacle;
  lastObstacleTime : Z
}.

Definition set_gameState v (s : ThreeSceneComponent) :=
  component v (player s) (currentLane s) (targetX s) (isJumping s)
    (jumpVelocity s) (playerY s) (lastGameStatus s) (obstacles s)
    (lastObstacleTime s).
Definition set_player v (s : ThreeSceneComponent) :=
  component (gameState s) v (currentLane s) (targetX s) (isJumping s)
    (jumpVelocity s) (playerY s) (lastGameStatus s) (obstacles s)
    (lastObstacleTime s).
Definition set_currentLane v (s : ThreeSceneComponent) :=
  component (gameState s) (player s) v (targetX s) (isJumping s)
    (jumpVelocity s) (playerY s) (lastGameStatus s) (obstacles s)
    (lastObstacleTime s).
Definition set_targetX v (s : ThreeSceneComponent) :=
  component (gameState s) (player s) (currentLane s) v (isJumping s)
    (jumpVelocity s) (playerY s) (lastGameStatus s) (obstacles s)
    (lastObstacleTime s).
Definition set_isJumping v (s : ThreeSceneComponent) :=
  component (gameState s) (player s) (currentLane s) (targetX s) v
    (jumpVelocity s) (playerY s) (lastGameStatus s) (obstacles s)
    (lastObstacleTime s).
Definition set_jumpVelocity v (s : ThreeSceneComponent) :=
  component (gameState s) (player s) (currentLane s) (targetX s) (isJumping s)
    v (playerY s) (lastGameStatus s) (obstacles s) (lastObstacleTime s).
Definition set_playerY v (s : ThreeSceneComponent) :=
  component (gameState s) (player s) (currentLane s) (targetX s) (isJumping s)
    (jumpVelocity s) v (lastGameStatus s) (obstacles s) (lastObstacleTime s).
Definition set_lastGameStatus v (s : ThreeSceneComponent) :=
  component (gameState s) (player s) (currentLane s) (targetX s) (isJumping s)
    (jumpVelocity s) (playerY s) v (obstacles s) (lastObstacleTime s).
Definition set_obstacles v (s : ThreeSceneComponent) :=
  component (gameState s) (player s) (currentLane s) (targetX s) (isJumping s)
    (jumpVelocity s) (playerY s) (lastGameStatus s) v (lastObstacleTime s).
Definition set_lastObstacleTime v (s : ThreeSceneComponent) :=
  component (gameState s) (player s) (currentLane s) (targetX s) (isJumping s)
    (jumpVelocity s) (playerY s) (lastGameStatus s) (obstacles s) v.

(** Field initialisers shared by both skins. *)
Definition laneWidth : Q := 3.0.
Definition gravity : Q := -0.02.
Definition jumpForce : Q := 0.5.
Definition obstacleSpawnRate : Q := 1200.

(** The component once [createScene] has built the player group at the
    origin; [gameState] is the freshly injected service. *)
Definition origin : Vector3 := vec3 0 0 0.
Definition newGroup : Object3D := object3D origin origin (vec3 1 1 1) 0.

Definition initial : ThreeSceneComponent :=
  component GameStateService.init newGroup 0%Z 0 false 0 0 MENU [] 0%Z.

(** [private jump()], identical in both skins. *)
Definition jump (s : ThreeSceneComponent) : ThreeSceneComponent :=
  if negb (isJumping s)
  then set_jumpVelocity jumpForce (set_isJumping true s)
  else s.

(** [private resetScene()], identical in both skins; [t] is what
    [Date.now()] returns there. *)
Definition resetScene (t : Z) (s : ThreeSceneComponent) : ThreeSceneComponent :=
  let s := set_obstacles [] s in
  let s := set_currentLane 0%Z s in
  let s := set_targetX 0 s in
  let s := set_player (set_position (vec3 0 0 0) (player s)) s in
  let s := set_player (set_rotation (vec3 0 0 0) (player s)) s in
  let s := set_isJumping false s in
  let s := set_playerY 0 s in
  set_lastObstacleTime t s.

(** ** binary64 rounding, where the code floors a product

    Every number of the program is a binary64 float.  The model computes on
    exact rationals, except where [Math.floor] turns the last bit of a
    product into a different integer: there the product is rounded as
    IEEE 754 does, to the nearest double, ties to the even mantissa. *)

(** The nearest integer, ties to the even one. *)
Definition roundTiesToEven (q : Q) : Z :=
  let f := Qfloor q in
  match Qcompare (q - inject_Z f) (1 # 2) with
  | Lt => f
  | Gt => (f + 1)%Z
  | Eq => if Z.even f then f else (f + 1)%Z
  end.

(** [floor (log2 q)] for a positive [q]: the difference of the bit lengths
    of numerator and denominator, or one less. *)
Definition floorLog2 (q : Q) : Z :=
  let e := (Z.log2 (Qnum q) - Z.log2 (Zpos (Qden q)))%Z in
  if Qle_bool (2 ^ e) q then e else (e - 1)%Z.

(** The double nearest to [q]: 53 significant bits at the exponent of [q],
    which is at least -1022 (below that the doubles are subnormal, spaced
    [2 ^ -1074]).  Overflow, beyond [2 ^ 1024], is not modelled; the
    numbers rounded here are below 3. *)
Definition roundToDouble (q : Q) : Q :=
  let a := Qabs q in
  if Qeq_bool a 0 then 0
  else
    let e := Z.max (floorLog2 a) (-1022) in
    let m := inject_Z (roundTiesToEven (a * 2 ^ (52 - e))) * 2 ^ (e - 52) in
    if Qle_bool 0 q then m else - m.

(** [const lanes = [-1, 0, 1]; lanes[Math.floor(Math.random() * lanes.length)]].
    The draw is a double, the one nearest to [r], and the index is the floor
    of the binary64 product: for the largest double below 2/3 the exact
    product is below 2 and the binary64 product is 2.  A draw of
    [Math.random()] lies in [0, 1), so the index is in range and the default
    of [nth] is never read. *)
Definition lanes : list Z := [(-1)%Z; 0%Z; 1%Z].
Definition randomLane (r : Q) : Z :=
  nth (Z.to_nat (Qfloor (roundToDouble
         (roundToDouble r * inject_Z (Z.of_nat (List.length lanes))))))
      lanes 0%Z.

(** In-place updates of a nested field, [o.position.z += d] and the like. *)
Definition upd_position (f : Vector3 -> Vector3) (o : Object3D) : Object3D :=
  set_position (f (position o)) o.
Definition upd_rotation (f : Vector3 -> Vector3) (o : Object3D) : Object3D :=
  set_rotation (f (rotation o)) o.
Definition upd_scale (f : Vector3 -> Vector3) (o : Object3D) : Object3D :=
  set_scale (f (scale o)) o.
Definition upd_propeller (f : Q -> Q) (o : Object3D) : Object3D :=
  set_propeller (f (propeller o)) o.
Definition upd_player (f : Object3D -> Object3D) (s : ThreeSceneComponent) :=
  set_player (f (player s)) s.
Definition upd_gameState (f : GameStateService.t -> GameStateService.t)
    (s : ThreeSceneComponent) :=
  set_gameState (f (gameState s)) s.

(** [switch (event.key)]: whether [key] is one of the [case] labels that
    fall through to the same branch. *)
Definition keyIn (key : string) (cases : list string) : bool :=
  existsb (String.eqb key) cases.

(** [const deltaTime = 0.016] of [animate], both skins. *)
Definition deltaTime : Q := 0.016.

(** The outcome of the [for] loop of [checkCollisions]: the obstacle at which
    the loop called [handleCrash] and returned, if any. *)
Definition Hit : Type := option Obstacle.

(** ** src/game/three-scene.component.ts: the space-cat skin *)

Module Cat.

Definition changeLane (direction : Z) (s : ThreeSceneComponent)
    : ThreeSceneComponent :=
  let newLane := (currentLane s + direction)%Z in
  if ((newLane >=? -1) && (newLane <=? 1))%Z then
    let s := set_currentLane newLane s in
    let s := set_targetX (inject_Z (currentLane s) * laneWidth) s in
    upd_player (upd_rotation (set_z (- inject_Z direction * 0.2))) s
  else s.

Definition handleKeyboardEvent (key : string) (s : ThreeSceneComponent)
    : ThreeSceneComponent :=
  if negb (GameStateService.isPlaying (gameState s)) then s
  else if keyIn key ["ArrowLeft"; "a"; "A"] then changeLane (-1) s
  else if keyIn key ["ArrowRight"; "d"; "D"] then changeLane 1 s
  else if keyIn key ["ArrowUp"; " "; "w"; "W"] then jump s
  else s.

(** The random draws are those of the frame; the third is only read for
    the [tall] type ([mesh.rotation.z = Math.random()]). *)
Definition spawnObstacle (f : Frame) (s : ThreeSceneComponent)
    : ThreeSceneComponent :=
  if negb (GameStateService.isPlaying (gameState s)) then s
  else
    let lane := randomLane (random_lane f) in
    let xPos := inject_Z lane * laneWidth in
    let type := if Qgtb (random_type f) 0.6 then box else tall in
    let mesh_rotation :=
      match type with
      | box => vec3 0 0 0
      | _ => vec3 0 0 (random_rotation f)
      end in
    let obstacleGroup :=
      obstacle (set_position (vec3 xPos 0 (-80)) newGroup) type mesh_rotation in
    set_obstacles (obstacles s ++ [obstacleGroup]) s.

(** One iteration of the obstacle loop of [animate] before its [if]:
    the move and the visual spin of [children[0]]. *)
Definition moveObstacle (frameMove : Q) (obs : Obstacle) : Obstacle :=
  let obs := set_group (upd_position (fun p => set_z (z p + frameMove) p)
                          (group obs)) obs in
  set_child0_rotation
    (vec3 (x (child0_rotation obs) + 0.02) (y (child0_rotation obs) + 0.01)
          (z (child0_rotation obs))) obs.

(** [for (let i = this.obstacles.length - 1; i >= 0; i--)]: the last
    obstacle is visited first, so the tail is processed before the head;
    [splice(i, 1)] drops the visited obstacle and leaves the not yet
    visited ones in place. *)
Fixpoint moveObstacles (frameMove : Q) (obstacles : list Obstacle)
    (g : GameStateService.t) : list Obstacle * GameStateService.t :=
  match obstacles with
  | [] => ([], g)
  | obs :: before =>
      let (rest, g) := moveObstacles frameMove before g in
      let obs := moveObstacle frameMove obs in
      if Qgtb (z (position (group obs))) 15
      then (rest, GameStateService.incrementScore 50 g)
      else (obs :: rest, g)
  end.

Definition handleCrash (s : ThreeSceneComponent) : ThreeSceneComponent :=
  let s := upd_gameState GameStateService.endGame s in
  let s := upd_player (upd_rotation (set_x (- Math_PI / 2))) s in
  upd_player (upd_position (set_y 0.2)) s.

Section WithThree.
Context {three : Three}.

Definition updatePlayer (deltaTime : Q) (now : Z) (s : ThreeSceneComponent)
    : ThreeSceneComponent :=
  let lerpSpeed : Q := 10 in
  let s := upd_player (upd_position (fun p =>
             set_x (x p + (targetX s - x p) * lerpSpeed * deltaTime) p)) s in
  let targetRotZ := (x (position (player s)) - targetX s) * 0.1 in
  let s := upd_player (upd_rotation (fun r =>
             set_z (z r + (targetRotZ - z r) * lerpSpeed * deltaTime) r)) s in
  let s :=
    if isJumping s then
      let s := set_playerY (playerY s + jumpVelocity s) s in
      let s := set_jumpVelocity (jumpVelocity s + gravity) s in
      if Qle_bool (playerY s) 0 then
        let s := set_playerY 0 s in
        let s := set_isJumping false s in
        let s := set_jumpVelocity 0 s in
        upd_player (upd_scale (set_y 0.85)) s
      else
        upd_player (upd_scale (set_y 1.15)) s
    else
      set_playerY (Qabs (Math_sin (inject_Z now * 0.015)) * 0.1) s in
  let s := upd_player (upd_scale (fun c =>
             set_y (y c + (1 - y c) * 10 * deltaTime) c)) s in
  upd_player (upd_position (set_y (playerY s))) s.

(** The [for (const obs of this.obstacles)] loop of [checkCollisions];
    [player] is not written inside it. *)
Fixpoint firstCollision (player : Object3D) (obstacles : list Obstacle)
    : Hit :=
  match obstacles with
  | [] => None
  | obs :: rest =>
      let pX := x (position player) in
      let pZ := z (position player) in
      let distZ := Qabs (z (position (group obs)) - pZ) in
      let distX := Qabs (x (position (group obs)) - pX) in
      if Qltb distZ 1.5 then
        if Qltb distX 1.0 then
          let pBox := setFromObject player in
          let pBox := box3 (vec3 (x (min pBox) + 0.4) (y (min pBox))
                                 (z (min pBox) + 0.4))
                           (vec3 (x (max pBox) - 0.4) (y (max pBox))
                                 (z (max pBox) - 0.4)) in
          let oBox := setFromObstacle obs in
          let oBox := box3 (vec3 (x (min oBox) + 0.2) (y (min oBox))
                                 (z (min oBox) + 0.2))
                           (vec3 (x (max oBox) - 0.2) (y (max oBox))
                                 (z (max oBox) - 0.2)) in
          if intersectsBox pBox oBox then Some obs
          else firstCollision player rest
        else firstCollision player rest
      else firstCollision player rest
  end.

Definition checkCollisions (s : ThreeSceneComponent) : ThreeSceneComponent :=
  match firstCollision (player s) (obstacles s) with
  | Some _ => handleCrash s
  | None => s
  end.

(** The body of [if (status === 'PLAYING')] in [animate].  The star
    particles it also moves are drawn only and are left out. *)
Definition playing (f : Frame) (s : ThreeSceneComponent)
    : ThreeSceneComponent :=
  let currentSpeed := 30 * speed (gameState s) in
  let frameMove := currentSpeed * deltaTime in
  let (obs, g) := moveObstacles frameMove (obstacles s) (gameState s) in
  let s := set_gameState g (set_obstacles obs s) in
  let spawnDelay := obstacleSpawnRate / speed (gameState s) in
  let s :=
    if Qgtb (inject_Z (now f - lastObstacleTime s)) spawnDelay
    then set_lastObstacleTime (now f) (spawnObstacle f s)
    else s in
  let s := updatePlayer deltaTime (now f) s in
  checkCollisions s.

Definition animate (f : Frame) (s : ThreeSceneComponent)
    : ThreeSceneComponent :=
  let status := status (gameState s) in
  let s :=
    if GameStatus_eqb status PLAYING
       && negb (GameStatus_eqb (lastGameStatus s) PLAYING)
    then resetScene (resetNow f) s
    else s in
  let s := set_lastGameStatus status s in
  match status with
  | PLAYING => playing f s
  | MENU =>
      let s := upd_player (upd_position (set_x 0)) s in
      let s := upd_player (upd_position
                 (set_y (Math_sin (inject_Z (now f) * 0.002) * 0.5 + 1))) s in
      upd_player (upd_rotation
                 (set_y (Math_sin (inject_Z (now f) * 0.001) * 0.3))) s
  | GAME_OVER => s
  end.

End WithThree.

End Cat.

(** ** The plane skin of [ThreeSceneComponent] *)

Module Plane.

Definition changeLane (direction : Z) (s : ThreeSceneComponent)
    : ThreeSceneComponent :=
  let newLane := (currentLane s + direction)%Z in
  if ((newLane >=? -1) && (newLane <=? 1))%Z then
    let s := set_currentLane newLane s in
    set_targetX (inject_Z (currentLane s) * laneWidth) s
  else s.

Definition handleKeyboardEvent (key : string) (s : ThreeSceneComponent)
    : ThreeSceneComponent :=
  if negb (GameStateService.isPlaying (gameState s)) then s
  else if keyIn key ["ArrowLeft"; "a"; "A"] then changeLane (-1) s
  else if keyIn key ["ArrowRight"; "d"; "D"] then changeLane 1 s
  else if keyIn key ["ArrowUp"; " "; "w"; "W"] then jump s
  else s.

Definition spawnObstacle (f : Frame) (s : ThreeSceneComponent)
    : ThreeSceneComponent :=
  if negb (GameStateService.isPlaying (gameState s)) then s
  else
    let lane := randomLane (random_lane f) in
    let xPos := inject_Z lane * laneWidth in
    let type := if Qgtb (random_type f) 0.5 then balloon else pylon in
    let obstacleGroup :=
      obstacle (set_position (vec3 xPos 0 (-100)) newGroup) type (vec3 0 0 0) in
    set_obstacles (obstacles s ++ [obstacleGroup]) s.

Definition moveObstacle (frameMove : Q) (obs : Obstacle) : Obstacle :=
  set_group (upd_position (fun p => set_z (z p + frameMove) p) (group obs)) obs.

(** The same backwards [for] loop with [splice] as in the cat skin. *)
Fixpoint moveObstacles (frameMove : Q) (obstacles : list Obstacle)
    (g : GameStateService.t) : list Obstacle * GameStateService.t :=
  match obstacles with
  | [] => ([], g)
  | obs :: before =>
      let (rest, g) := moveObstacles frameMove before g in
      let obs := moveObstacle frameMove obs in
      if Qgtb (z (position (group obs))) 15
      then (rest, GameStateService.incrementScore 50 g)
      else (obs :: rest, g)
  end.

Definition handleCrash (s : ThreeSceneComponent) : ThreeSceneComponent :=
  let s := upd_gameState GameStateService.endGame s in
  let s := upd_player (upd_rotation (set_x (- Math_PI / 4))) s in
  let s := upd_player (upd_rotation (set_z (Math_PI / 4))) s in
  upd_player (upd_position (set_y 0.5)) s.

Section WithThree.
Context {three : Three}.

Definition updatePlayer (deltaTime : Q) (now : Z) (s : ThreeSceneComponent)
    : ThreeSceneComponent :=
  let lerpSpeed : Q := 8 in
  let s := upd_player (upd_position (fun p =>
             set_x (x p + (targetX s - x p) * lerpSpeed * deltaTime) p)) s in
  let moveDelta := targetX s - x (position (player s)) in
  let targetBank := - moveDelta * 0.3 in
  let maxBank : Q := 0.8 in
  let clampedBank := Qmax (- maxBank) (Qmin maxBank targetBank) in
  let s := upd_player (upd_rotation (fun r =>
             set_z (z r + (clampedBank - z r) * lerpSpeed * deltaTime) r)) s in
  let s :=
    if isJumping s then
      let s := set_playerY (playerY s + jumpVelocity s) s in
      let s := set_jumpVelocity (jumpVelocity s + gravity) s in
      let targetPitch := Qmin (Qmax (jumpVelocity s * 2) (-0.5)) 0.8 in
      let s := upd_player (upd_rotation (set_x targetPitch)) s in
      if Qle_bool (playerY s) 0 then
        let s := set_playerY 0 s in
        let s := set_isJumping false s in
        let s := set_jumpVelocity 0 s in
        upd_player (upd_rotation (set_x 0)) s
      else s
    else
      let s := set_playerY (Qabs (Math_sin (inject_Z now * 0.003)) * 0.2) s in
      upd_player (upd_rotation
        (set_x (Math_sin (inject_Z now * 0.002) * 0.05))) s in
  let s := upd_player (upd_position (set_y (playerY s))) s in
  upd_player (upd_propeller (fun r => r - 15 * deltaTime)) s.

(** The [for (const obs of this.obstacles)] loop of [checkCollisions];
    [pBox] is the player's box, shrunk before the loop. *)
Fixpoint firstCollision (pBox : Box3) (obstacles : list Obstacle) : Hit :=
  match obstacles with
  | [] => None
  | obs :: rest =>
      let oBox := setFromObstacle obs in
      let oBox := box3 (vec3 (x (min oBox) + 0.2) (y (min oBox))
                             (z (min oBox) + 0.2))
                       (vec3 (x (max oBox) - 0.2) (y (max oBox))
                             (z (max oBox) - 0.2)) in
      if intersectsBox pBox oBox then Some obs
      else firstCollision pBox rest
  end.

Definition shrunkPlayerBox (player : Object3D) : Box3 :=
  let pBox := setFromObject player in
  box3 (vec3 (x (min pBox) + 0.3) (y (min pBox) + 0.2) (z (min pBox) + 0.2))
       (vec3 (x (max pBox) - 0.3) (y (max pBox) - 0.2) (z (max pBox) - 0.2)).

Definition checkCollisions (s : ThreeSceneComponent) : ThreeSceneComponent :=
  let pBox := shrunkPlayerBox (player s) in
  match firstCollision pBox (obstacles s) with
  | Some _ => handleCrash s
  | None => s
  end.

(** The body of [if (status === 'PLAYING')] in [animate].  The floor grid
    and the clouds it also moves are drawn only and are left out. *)
Definition playing (f : Frame) (s : ThreeSceneComponent)
    : ThreeSceneComponent :=
  let currentSpeed := 40 * speed (gameState s) in
  let frameMove := currentSpeed * deltaTime in
  let (obs, g) := moveObstacles frameMove (obstacles s) (gameState s) in
  let s := set_gameState g (set_obstacles obs s) in
  let spawnDelay := obstacleSpawnRate / speed (gameState s) in
  let s :=
    if Qgtb (inject_Z (now f - lastObstacleTime s)) spawnDelay
    then set_lastObstacleTime (now f) (spawnObstacle f s)
    else s in
  let s := updatePlayer deltaTime (now f) s in
  checkCollisions s.

(** In the menu the camera and the floor grid move too; they are drawn
    only and are left out. *)
Definition animate (f : Frame) (s : ThreeSceneComponent)
    : ThreeSceneComponent :=
  let status := status (gameState s) in
  let s :=
    if GameStatus_eqb status PLAYING
       && negb (GameStatus_eqb (lastGameStatus s) PLAYING)
    then resetScene (resetNow f) s
    else s in
  let s := set_lastGameStatus status s in
  match status with
  | PLAYING => playing f s
  | MENU =>
      let s := upd_player (upd_position (set_x 0)) s in
      let s := upd_player (upd_position
                 (set_y (Math_sin (inject_Z (now f) * 0.002) * 0.5 + 1.5))) s in
      let s := upd_player (upd_rotation
                 (set_z (Math_sin (inject_Z (now f) * 0.001) * 0.2))) s in
      let s := upd_player (upd_rotation (set_x 0)) s in
      upd_player (upd_propeller (fun r => r - 0.2)) s
  | GAME_OVER => s
  end.

End WithThree.

End Plane.

(** ** The running application: what can happen to the component

    The template of game-ui.component.ts offers [startGame()] on the menu
    and game-over screens and [resetGame()] on the game-over screen only;
    key presses and animation frames arrive at any time. *)

Inductive Event : Type :=
| Click_startGame
| Click_resetGame
| KeyDown (key : string)
| AnimationFrame (f : Frame).

Definition offered (e : Event) (s : ThreeSceneComponent) : bool :=
  match e with
  | Click_startGame =>
      GameStateService.isMenu (gameState s)
      || GameStateService.isGameOver (gameState s)
  | Click_resetGame => GameStateService.isGameOver (gameState s)
  | KeyDown _ | AnimationFrame _ => true
  end.

(** The two handlers in which the skins differ. *)
Record Skin : Type := skin {
  keydown : string -> ThreeSceneComponent -> ThreeSceneComponent;
  onFrame : Frame -> ThreeSceneComponent -> ThreeSceneComponent
}.

Definition cat {three : Three} : Skin :=
  skin Cat.handleKeyboardEvent Cat.animate.
Definition plane {three : Three} : Skin :=
  skin Plane.handleKeyboardEvent Plane.animate.

Definition step (k : Skin) (e : Event) (s : ThreeSceneComponent)
    : ThreeSceneComponent :=
  match e with
  | Click_startGame => upd_gameState GameStateService.startGame s
  | Click_resetGame => upd_gameState GameStateService.resetGame s
  | KeyDown key => keydown k key s
  | AnimationFrame f => onFrame k f s
  end.

Fixpoint run (k : Skin) (es : list Event) (s : ThreeSceneComponent)
    : ThreeSceneComponent :=
  match es with
  | [] => s
  | e :: es => run k es (step k e s)
  end.

Inductive reachable (k : Skin) : ThreeSceneComponent -> Prop :=
| reachable_initial : reachable k initial
| reachable_step e s :
    reachable k s -> offered e s = true -> reachable k (step k e s).

(** * Vocabulary of the properties *)

(** ** Lane commands *)

(** What C4 asks of a [changeLane]: MoveLeft is direction -1, MoveRight is
    direction 1. *)
Definition isDirection (d : Z) : Prop := d = (-1)%Z \/ d = 1%Z.

Definition lane_commands_spec
    (changeLane : Z -> ThreeSceneComponent -> ThreeSceneComponent) : Prop :=
  (forall ds s, Forall isDirection ds -> currentLane s = 0%Z ->
     (-1 <= currentLane (fold_left (fun s d => changeLane d s) ds s) <= 1)%Z) /\
  (forall d s, isDirection d ->
     let newLane := (currentLane s + d)%Z in
     ((-1 <= newLane <= 1)%Z ->
        currentLane (changeLane d s) = newLane /\
        targetX (changeLane d s) = inject_Z newLane * laneWidth) /\
     (~ (-1 <= newLane <= 1)%Z -> changeLane d s = s)).

(** ** Frames, rewards and invariants *)

(** The speed after one despawn reward, as [incrementScore] computes it. *)
Definition speedUp (v : Q) : Q := Qmin (v + 0.001) 2.5.

(** Whether the moved obstacle has passed the despawn threshold. *)
Definition passed (obs : Obstacle) : bool :=
  Qgtb (z (position (group obs))) 15.

(** The fields the player update never writes. *)
Definition same_session (s s' : ThreeSceneComponent) : Prop :=
  gameState s' = gameState s /\ obstacles s' = obstacles s /\
  currentLane s' = currentLane s /\ targetX s' = targetX s /\
  lastGameStatus s' = lastGameStatus s /\
  lastObstacleTime s' = lastObstacleTime s.

(** What a PLAYING frame does to the session and the pool, in terms of the
    obstacles that pass the threshold on this frame: [n] rewards, then
    possibly the crash; the survivors in order, then possibly one spawn. *)
Definition frame_outcome (move : Q -> Obstacle -> Obstacle) (baseSpeed spawnZ : Q)
    (s s' : ThreeSceneComponent) : Prop :=
  let frameMove := baseSpeed * speed (gameState s) * deltaTime in
  let moved := map (move frameMove) (obstacles s) in
  let g := Nat.iter (List.length (filter passed moved))
             (GameStateService.incrementScore 50) (gameState s) in
  (gameState s' = g \/ gameState s' = GameStateService.endGame g) /\
  (obstacles s' = filter (fun o => negb (passed o)) moved \/
   exists o, obstacles s' = filter (fun o => negb (passed o)) moved ++ [o] /\
             z (position (group o)) = spawnZ) /\
  currentLane s' = currentLane s /\
  lastGameStatus s' = lastGameStatus s.

(** The component as the PLAYING branch of [animate] receives it: after the
    synchronous reset, if this is the first PLAYING frame, and with
    [lastGameStatus] stored. *)
Definition entering (f : Frame) (s : ThreeSceneComponent) : ThreeSceneComponent :=
  set_lastGameStatus PLAYING
    (if GameStatus_eqb (lastGameStatus s) PLAYING then s
     else resetScene (resetNow f) s).

(** What the invariants need of a skin: key presses leave the session
    alone and keep the lane in range; a frame stores the status it read,
    leaves the session alone outside PLAYING and, while PLAYING, calls
    [incrementScore(50)] some number of times and then [endGame()] at most
    once. *)
Record Disciplined (k : Skin) : Prop := disciplined {
  keydown_session : forall key s,
    gameState (keydown k key s) = gameState s /\
    lastGameStatus (keydown k key s) = lastGameStatus s;
  keydown_lane : forall key s,
    (-1 <= currentLane s <= 1)%Z ->
    (-1 <= currentLane (keydown k key s) <= 1)%Z;
  frame_last : forall f s,
    lastGameStatus (onFrame k f s) = status (gameState s);
  frame_idle : forall f s,
    status (gameState s) <> PLAYING ->
    gameState (onFrame k f s) = gameState s;
  frame_playing : forall f s,
    status (gameState s) = PLAYING ->
    exists n,
      let g := Nat.iter n (GameStateService.incrementScore 50) (gameState s) in
      gameState (onFrame k f s) = g \/
      gameState (onFrame k f s) = GameStateService.endGame g;
  frame_lane : forall f s,
    (-1 <= currentLane s <= 1)%Z ->
    (-1 <= currentLane (onFrame k f s) <= 1)%Z;
  keydown_playerY : forall key s, playerY (keydown k key s) = playerY s;
  frame_playerY : forall f s, 0 <= playerY s -> 0 <= playerY (onFrame k f s)
}.

Definition session_invariant (s : ThreeSceneComponent) : Prop :=
  (1 <= speed (gameState s) /\ speed (gameState s) <= 2.5) /\
  (0 <= score (gameState s))%Z /\
  (-1 <= currentLane s <= 1)%Z /\
  0 <= playerY s /\
  (exists n, speed (gameState s) = Nat.iter n speedUp 1.0) /\
  (status (gameState s) = PLAYING -> lastGameStatus s <> PLAYING ->
   score (gameState s) = 0%Z /\ speed (gameState s) = 1.0).

(** Every event handed to the component when its status was PLAYING and
    the application offered it. *)
Fixpoint whilePlaying (k : Skin) (es : list Event) (s : ThreeSceneComponent)
    : Prop :=
  match es with
  | [] => True
  | e :: es =>
      status (gameState s) = PLAYING /\ offered e s = true /\
      whilePlaying k es (step k e s)
  end.

(** ** A concrete scene for examples

    Bounding boxes of fixed extents around the group's position, and a
    flat [Math.sin]. *)
Definition boxAround (halfWidth height halfDepth : Q) (p : Vector3) : Box3 :=
  box3 (vec3 (x p - halfWidth) (y p) (z p - halfDepth))
       (vec3 (x p + halfWidth) (y p + height) (z p + halfDepth)).

Definition fixedExtents : Three := {|
  setFromObject o := boxAround 1 2 1 (position o);
  setFromObstacle obs := boxAround 1 2 1 (position (group obs));
  Math_sin _ := 0
|}.

(** The component right after the first click on the start button. *)
Definition started : ThreeSceneComponent :=
  upd_gameState GameStateService.startGame initial.

Definition frameAt (t : Z) : Frame := frame t t 0.5 0.7 0.1.

(** ** The despawn reward, the speed and the reset *)

(** What C2 asks of one PLAYING frame of a skin: the pool the frame works on
    (emptied first when the frame is the first PLAYING one) is moved by the
    frame's step, every obstacle then past the threshold is dropped and
    rewarded once, the others are kept in order, and whatever the frame
    spawns is not past the threshold. *)
Definition despawn_rewards (move : Q -> Obstacle -> Obstacle) (baseSpeed : Q)
    (animate : Frame -> ThreeSceneComponent -> ThreeSceneComponent) : Prop :=
  (forall d obs,
     z (position (group (move d obs))) = z (position (group obs)) + d) /\
  forall f s, status (gameState s) = PLAYING ->
    let pool :=
      if GameStatus_eqb (lastGameStatus s) PLAYING then obstacles s else [] in
    let frameMove := baseSpeed * speed (gameState s) * deltaTime in
    let moved := map (move frameMove) pool in
    let crossed := List.length (filter passed moved) in
    let s' := animate f s in
    (exists spawned,
       obstacles s' = filter (fun o => negb (passed o)) moved ++ spawned /\
       Forall (fun o => passed o = false) spawned) /\
    score (gameState s') = (score (gameState s) + 50 * Z.of_nat crossed)%Z /\
    speed (gameState s') = Nat.iter crossed speedUp (speed (gameState s)).

(** A PLAYING component with one obstacle about to pass the player and one
    far ahead. *)
Definition twoAhead : ThreeSceneComponent :=
  set_lastGameStatus PLAYING
    (set_obstacles
       [obstacle (set_position (vec3 3 0 14.9) newGroup) box origin;
        obstacle (set_position (vec3 0 0 (-10)) newGroup) tall origin]
       started).

(** What C3 asks of the application under a skin. *)
Definition speed_spec (k : Skin) : Prop :=
  (forall s, reachable k s ->
     1 <= speed (gameState s) /\ speed (gameState s) <= 2.5 /\
     ~ speed (gameState s) == 0 /\
     0 < obstacleSpawnRate / speed (gameState s) /\
     obstacleSpawnRate / speed (gameState s) <= 1200) /\
  (forall s es, reachable k s -> whilePlaying k es s ->
     speed (gameState s) <= speed (gameState (run k es s))).

(** The places where [speed] is written, [speed = signal(1.0)],
    [startGame] and [incrementScore], keep it at or above 1; the other
    methods do not write it. *)
Definition speed_write_sites : Prop :=
  speed GameStateService.init = 1.0 /\
  (forall g, speed (GameStateService.startGame g) = 1.0) /\
  (forall amount g, 1 <= speed g ->
     1 <= speed (GameStateService.incrementScore amount g)) /\
  (forall g, speed (GameStateService.endGame g) = speed g /\
             speed (GameStateService.resetGame g) = speed g).

(** The four facts C1 names. *)
Definition fresh_session (s : ThreeSceneComponent) : Prop :=
  score (gameState s) = 0%Z /\ speed (gameState s) = 1.0 /\
  obstacles s = [] /\ currentLane s = 0%Z.

(** What C1 asks of a skin whose PLAYING branch is [playing]: on a frame
    that reads PLAYING when the frame before did not, the frame is the
    PLAYING branch run on the reset component, the reset component is a
    fresh session, and so is the component the frame leaves behind (the
    clock read inside [resetScene] being no earlier than the one read at
    the top of the frame). *)
Definition reset_on_entry (k : Skin)
    (playing : Frame -> ThreeSceneComponent -> ThreeSceneComponent) : Prop :=
  forall s f,
    reachable k s ->
    status (gameState s) = PLAYING -> lastGameStatus s <> PLAYING ->
    let r := resetScene (resetNow f) s in
    onFrame k f s = playing f (set_lastGameStatus PLAYING r) /\
    fresh_session r /\
    ((now f <= resetNow f)%Z ->
     fresh_session (onFrame k f s) /\
     status (gameState (onFrame k f s)) = PLAYING).

(** A key press reaches the component between the click on the start
    button and the first frame: the lane it set is reset by that frame. *)
Definition startedThenRight : ThreeSceneComponent :=
  step (cat (three := fixedExtents)) (KeyDown "d") started.

(** ** The jump arc *)

(** [n] successive player updates, frame [i] reading [clock i]. *)
Fixpoint ticks (update : Q -> Z -> ThreeSceneComponent -> ThreeSceneComponent)
    (dt : Q) (clock : nat -> Z) (n : nat) (s : ThreeSceneComponent)
    : ThreeSceneComponent :=
  match n with
  | O => s
  | S n => update dt (clock n) (ticks update dt clock n s)
  end.

(** The [if (this.isJumping)] branch of [updatePlayer], as far as the
    vertical motion goes: integrate, then land or keep falling. *)
Definition JumpPhysics
    (update : Q -> Z -> ThreeSceneComponent -> ThreeSceneComponent) : Prop :=
  forall dt t s, isJumping s = true ->
    let y' := playerY s + jumpVelocity s in
    let s' := update dt t s in
    (y' <= 0 -> playerY s' = 0 /\ isJumping s' = false /\ jumpVelocity s' = 0) /\
    (0 < y' -> playerY s' = y' /\ isJumping s' = true /\
               jumpVelocity s' = jumpVelocity s + gravity).

(** The arc in closed form: velocity and height [m] frames after a jump
    from height [y0]. *)
Definition Qnat (m : nat) : Q := inject_Z (Z.of_nat m).
Definition arcVelocity (m : nat) : Q := jumpForce + Qnat m * gravity.
Definition arcHeight (y0 : Q) (m : nat) : Q :=
  y0 + 0.01 * Qnat m * (51 - Qnat m).

(** An upper bound on the number of frames a jump from height [y] lasts. *)
Definition landingBound (y : Q) : nat := 52 + Z.to_nat (Qceiling (100 * y)).

(** ** The crash *)

(** A PLAYING component whose only obstacle sits on the player. *)
Definition onThePlayer : ThreeSceneComponent :=
  set_lastGameStatus PLAYING
    (set_obstacles [obstacle (set_position (vec3 0 0 0.18) newGroup) box origin]
       started).

(** What C7 says of a collision check: when an obstacle is hit the status
    becomes GAME_OVER and neither the player's transform nor the pool is
    touched. *)
Definition crash_leaves_transforms
    (check : ThreeSceneComponent -> ThreeSceneComponent)
    (hit : ThreeSceneComponent -> Hit) : Prop :=
  forall s, hit s <> None ->
    status (gameState (check s)) = GAME_OVER /\
    player (check s) = player s /\ obstacles (check s) = obstacles s.

(** The crash pose of each skin. *)
Definition Cat_crashPose (p : Object3D) : Object3D :=
  object3D (vec3 (x (position p)) 0.2 (z (position p)))
           (vec3 (- Math_PI / 2) (y (rotation p)) (z (rotation p)))
           (scale p) (propeller p).

Definition Plane_crashPose (p : Object3D) : Object3D :=
  object3D (vec3 (x (position p)) 0.5 (z (position p)))
           (vec3 (- Math_PI / 4) (y (rotation p)) (Math_PI / 4))
           (scale p) (propeller p).

(** What a collision check does do on a hit: end the game, pose the
    player, and nothing else. *)
Definition crash_poses_player
    (check : ThreeSceneComponent -> ThreeSceneComponent)
    (hit : ThreeSceneComponent -> Hit) (pose : Object3D -> Object3D) : Prop :=
  forall s, hit s <> None ->
    check s
    = set_player (pose (player s))
        (set_gameState
           (GameStateService.mk GAME_OVER (score (gameState s))
              (speed (gameState s))) s).

(** ** Collision detection *)

(** A box shrunk inward: on every axis, or on the lateral and depth axes
    only. *)
Definition shrink (mx my mz : Q) (b : Box3) : Box3 :=
  box3 (vec3 (x (min b) + mx) (y (min b) + my) (z (min b) + mz))
       (vec3 (x (max b) - mx) (y (max b) - my) (z (max b) - mz)).

Definition shrinkXZ (mx mz : Q) (b : Box3) : Box3 :=
  box3 (vec3 (x (min b) + mx) (y (min b)) (z (min b) + mz))
       (vec3 (x (max b) - mx) (y (max b)) (z (max b) - mz)).

(** The ranges of two boxes overlap on all three axes. *)
Definition overlap (a b : Box3) : Prop :=
  (x (min a) <= x (max b) /\ x (min b) <= x (max a)) /\
  (y (min a) <= y (max b) /\ y (min b) <= y (max a)) /\
  (z (min a) <= z (max b) /\ z (min b) <= z (max a)).

(** [r] is the first element of [l], in list order, that passes [p]. *)
Definition firstIn {A : Type} (p : A -> bool) (l : list A) (r : option A) : Prop :=
  match r with
  | Some a =>
      exists before after,
        l = before ++ a :: after /\ p a = true /\
        Forall (fun b => p b = false) before
  | None => Forall (fun b => p b = false) l
  end.

(** The position in the pool of the first obstacle that passes, given the
    outcome of the test for each obstacle in pool order. *)
Fixpoint firstTrue (tests : list bool) : option nat :=
  match tests with
  | [] => None
  | true :: _ => Some O
  | false :: rest => option_map S (firstTrue rest)
  end.

(** The test each skin applies to one obstacle. *)
Definition Plane_hits {three : Three} (player : Object3D) (obs : Obstacle) : bool :=
  intersectsBox (shrink 0.3 0.2 0.2 (setFromObject player))
                (shrinkXZ 0.2 0.2 (setFromObstacle obs)).

Definition Cat_near (player : Object3D) (obs : Obstacle) : bool :=
  Qltb (Qabs (z (position (group obs)) - z (position player))) 1.5
  && Qltb (Qabs (x (position (group obs)) - x (position player))) 1.0.

Definition Cat_hits {three : Three} (player : Object3D) (obs : Obstacle) : bool :=
  Cat_near player obs
  && intersectsBox (shrinkXZ 0.4 0.4 (setFromObject player))
                   (shrinkXZ 0.2 0.2 (setFromObstacle obs)).

(** What C8 says of a collision scan: there are forgiveness margins, one
    per axis for the player's box and one for each of the lateral and depth
    axes for an obstacle's box, such that the scan returns the first
    obstacle of the pool whose shrunk box overlaps the player's shrunk box
    on all three axes. *)
Definition scans_shrunk_boxes {three : Three}
    (scan : Object3D -> list Obstacle -> Hit) : Prop :=
  exists mx my mz ox oz,
    (0 < mx /\ 0 < my /\ 0 < mz) /\ (0 < ox /\ 0 < oz) /\
    forall player obs,
      firstIn (fun o => intersectsBox (shrink mx my mz (setFromObject player))
                          (shrinkXZ ox oz (setFromObstacle o)))
        obs (scan player obs).

(** A cat in the air right above an obstacle, their boxes touching on the
    vertical axis; and a cat changing lanes beside an obstacle. *)
Definition above : Object3D := set_position (vec3 0 2 0) newGroup.
Definition beside : Object3D := set_position (vec3 1.2 0 0) newGroup.
Definition atOrigin : Obstacle := obstacle newGroup box origin.

Definition nearMiss : Obstacle :=
  obstacle (set_position (vec3 0 0 0.18) newGroup) box origin.

(** The obstacle at position [i] of the pool, if the scan reports one. *)
Definition reported (obs : list Obstacle) (i : option nat) : Hit :=
  match i with
  | Some i => nth_error obs i
  | None => None
  end.

(** Two scans agree: both report nothing, or both report the obstacle at
    the same position of their pools. *)
Definition same_outcome (obs1 obs2 : list Obstacle) (r1 r2 : Hit) : Prop :=
  exists i, r1 = reported obs1 i /\ r2 = reported obs2 i /\
            (r1 = None <-> r2 = None).

(** What the two runs of a scan are given: the same boxes, pairwise in pool
    order; for the cat skin, whose scan also reads where the groups are, the
    same lateral and depth positions too. *)
Definition same_boxes (run1 run2 : Three) (o1 o2 : Obstacle) : Prop :=
  setFromObstacle (Three := run1) o1 = setFromObstacle (Three := run2) o2.

Definition same_place (a b : Object3D) : Prop :=
  x (position a) = x (position b) /\ z (position a) = z (position b).

(** A scene in which the box of a group reaches further to the side the
    group leans to: a roll of [r] about the feet moves the top of a group of
    height 2 sideways by [2 * r]. *)
Definition leaning : Three := {|
  setFromObject o :=
    let p := position o in
    let r := z (rotation o) in
    box3 (vec3 (Qred (x p - 1 - 2 * Qmax r 0)) (y p) (z p - 1))
         (vec3 (Qred (x p + 1 + 2 * Qmax (- r) 0)) (y p + 2) (z p + 1));
  setFromObstacle obs := boxAround 1 2 1 (position (group obs));
  Math_sin _ := 0
|}.

(** The cat moving left, leaning by the 0.2 that [changeLane] sets, and
    the cat a little further left leaning the other way. *)
Definition leaningLeft : Object3D :=
  object3D (vec3 1.2 0 0) (vec3 0 0 0.2) (vec3 1 1 1) 0.
Definition leaningRight : Object3D :=
  object3D (vec3 0.8 0 0) (vec3 0 0 (-0.2)) (vec3 1 1 1) 0.

(** ** The same arithmetic in binary64

    [speed], [playerY] and [jumpVelocity] are JavaScript numbers.  The two
    recurrences that only involve constants, the speed ramp and the jump
    arc, are repeated here on IEEE 754 binary64 floats to check that
    rounding does not change their bounds. *)

Module Binary64.
Import PrimFloat.
#[local] Set Warnings "-inexact-float".

Definition zero : float := 0%float.
Definition initialSpeed : float := 1.0%float.
Definition maxSpeed : float := 2.5%float.
Definition jumpForce : float := 0.5%float.
Definition gravity : float := (-0.02)%float.
Definition catBob : float := 0.1%float.
Definition planeBob : float := 0.2%float.

(** [Math.min] on two numbers. *)
Definition Math_min (a b : float) : float :=
  if is_nan a || is_nan b then nan else if ltb a b then a else b.

(** [s => Math.min(s + 0.001, 2.5)] of [incrementScore]. *)
Definition speedUp (s : float) : float := Math_min (add s 0.001%float) maxSpeed.

Definition inRange (s : float) : bool :=
  leb initialSpeed s && leb s maxSpeed && leb s (speedUp s).

(** [inRange] holds of [s] and of its next [n] successors. *)
Fixpoint ramp (n : nat) (s : float) : bool :=
  inRange s && match n with O => true | S n => ramp n (speedUp s) end.

(** The heights after each frame of a jump from height [y] with velocity
    [v], up to and including the landing frame. *)
Fixpoint arc (fuel : nat) (y v : float) : list float :=
  match fuel with
  | O => []
  | S fuel =>
      let y := add y v in
      let v := add v gravity in
      if leb y zero then [zero] else y :: arc fuel y v
  end.

End Binary64.

(** ** Further vocabulary: the session *)

(** The edges of the session's state machine. *)
Definition isTransition (a b : GameStatus) : bool :=
  match a, b with
  | MENU, PLAYING | PLAYING, GAME_OVER
  | GAME_OVER, PLAYING | GAME_OVER, MENU => true
  | _, _ => false
  end.

(** What an offered event does to the status. *)
Definition status_effect (k : Skin) (e : Event) (s : ThreeSceneComponent) : Prop :=
  let a := status (gameState s) in
  let b := status (gameState (step k e s)) in
  match e with
  | Click_startGame => a <> PLAYING /\ b = PLAYING
  | Click_resetGame => a = GAME_OVER /\ b = MENU
  | KeyDown _ => b = a
  | AnimationFrame _ => b = a \/ (a = PLAYING /\ b = GAME_OVER)
  end.

(** The speed that goes with a score: raised by [incrementScore] once per
    reward of 50 since [startGame] set it to 1.0. *)
Definition speedForScore (score : Z) : Q :=
  Nat.iter (Z.to_nat (score / 50)) speedUp 1.0.

(** What holds of score and speed under a skin: the score is a multiple of
    50, and outside MENU the speed is the one that goes with the score, so
    that two states with the same score have the same speed. *)
Definition score_and_speed (k : Skin) : Prop :=
  (forall s, reachable k s ->
     (exists n, score (gameState s) = (50 * Z.of_nat n)%Z) /\
     (status (gameState s) <> MENU ->
      speed (gameState s) = speedForScore (score (gameState s)))) /\
  (forall s1 s2, reachable k s1 -> reachable k s2 ->
     status (gameState s1) <> MENU -> status (gameState s2) <> MENU ->
     score (gameState s1) = score (gameState s2) ->
     speed (gameState s1) = speed (gameState s2)).

(** The session's books: the score counts the rewards since [startGame],
    and outside MENU the speed has been raised once per reward. *)
Definition rewards_counted (g : GameStateService.t) : Prop :=
  exists n, score g = (50 * Z.of_nat n)%Z /\
            (status g <> MENU -> speed g = Nat.iter n speedUp 1.0).

(** The component after the start click and one frame. *)
Definition afterOneFrame : ThreeSceneComponent :=
  step (cat (three := fixedExtents)) (AnimationFrame (frameAt 5000)) started.

(** ** Further vocabulary: the pool *)

(** The obstacle group [spawnObstacle] builds from the frame's draws. *)
Definition Cat_spawned (f : Frame) : Obstacle :=
  let type := if Qgtb (random_type f) 0.6 then box else tall in
  obstacle
    (set_position (vec3 (inject_Z (randomLane (random_lane f)) * laneWidth) 0 (-80))
       newGroup)
    type
    (match type with box => vec3 0 0 0 | _ => vec3 0 0 (random_rotation f) end).

Definition Plane_spawned (f : Frame) : Obstacle :=
  obstacle
    (set_position (vec3 (inject_Z (randomLane (random_lane f)) * laneWidth) 0 (-100))
       newGroup)
    (if Qgtb (random_type f) 0.5 then balloon else pylon)
    (vec3 0 0 0).

(** Whether the spawn check of a PLAYING frame fires, the session being [g]
    after the frame's rewards. *)
Definition spawnDue (f : Frame) (s : ThreeSceneComponent)
    (g : GameStateService.t) : bool :=
  Qgtb (inject_Z (now f - lastObstacleTime s)) (obstacleSpawnRate / speed g).

(** The component a PLAYING frame hands to [updatePlayer]: rewards given,
    survivors kept, the spawn appended if due.  [s] is the component the
    PLAYING branch starts from. *)
Definition afterPool (move : Q -> Obstacle -> Obstacle) (baseSpeed : Q)
    (spawned : Frame -> Obstacle) (f : Frame) (s : ThreeSceneComponent)
    : ThreeSceneComponent :=
  let frameMove := baseSpeed * speed (gameState s) * deltaTime in
  let moved := map (move frameMove) (obstacles s) in
  let g := Nat.iter (List.length (filter passed moved))
             (GameStateService.incrementScore 50) (gameState s) in
  let s1 := set_gameState g
              (set_obstacles (filter (fun o => negb (passed o)) moved) s) in
  if spawnDue f s g
  then set_lastObstacleTime (now f)
         (set_obstacles (obstacles s1 ++ [spawned f]) s1)
  else s1.

(** Every obstacle of the pool lies between [lo] and the despawn
    threshold in depth. *)
Definition pool_between (lo : Q) (s : ThreeSceneComponent) : Prop :=
  Forall (fun o => lo <= z (position (group o)) /\ z (position (group o)) <= 15)
    (obstacles s).

(** What a key press never writes: the session, the pool, the two stored
    frame facts, the height, and where the player group is and how large. *)
Definition untouched_by_keys (s s' : ThreeSceneComponent) : Prop :=
  gameState s' = gameState s /\ obstacles s' = obstacles s /\
  lastObstacleTime s' = lastObstacleTime s /\
  lastGameStatus s' = lastGameStatus s /\ playerY s' = playerY s /\
  position (player s') = position (player s) /\
  scale (player s') = scale (player s).

(** The pool of every reachable state of a skin lies between [lo] and the
    threshold. *)
Definition pool_in_bounds (k : Skin) (lo : Q) : Prop :=
  forall s, reachable k s -> pool_between lo s.

(** The spawn check on an ordinary PLAYING frame of a skin whose spawn is
    [spawned]: nothing is spawned within 480 ms of the last spawn, and
    something always is after more than 1200 ms. *)
Definition spawn_cadence (k : Skin) (spawned : Frame -> Obstacle) : Prop :=
  forall s f, reachable k s ->
    status (gameState s) = PLAYING -> lastGameStatus s = PLAYING ->
    ((now f - lastObstacleTime s <= 480)%Z ->
     lastObstacleTime (onFrame k f s) = lastObstacleTime s /\
     (List.length (obstacles (onFrame k f s)) <= List.length (obstacles s))%nat) /\
    ((1200 < now f - lastObstacleTime s)%Z ->
     lastObstacleTime (onFrame k f s) = now f /\
     exists survivors, obstacles (onFrame k f s) = survivors ++ [spawned f]).

(** The component two seconds later: one more frame, which spawns. *)
Definition afterTwoFrames : ThreeSceneComponent :=
  step (cat (three := fixedExtents)) (AnimationFrame (frameAt 7000)) afterOneFrame.

(** What [spawnObstacle] does in a skin whose spawn is [spawned], on the
    line [spawnZ]: nothing outside PLAYING; while PLAYING, with a lane draw
    that as a double is in [0, 1), it appends one obstacle in the lane
    [floor (3 * draw) - 1], the product taken in binary64, on the ground, on
    the spawn line. *)
Definition spawns_in_a_lane
    (spawnObstacle : Frame -> ThreeSceneComponent -> ThreeSceneComponent)
    (spawned : Frame -> Obstacle) (spawnZ : Q) : Prop :=
  forall f s,
    (status (gameState s) <> PLAYING -> spawnObstacle f s = s) /\
    (status (gameState s) = PLAYING ->
     0 <= random_lane f -> roundToDouble (random_lane f) < 1 ->
     let i := Qfloor (roundToDouble (roundToDouble (random_lane f) * 3)) in
     (0 <= i <= 2)%Z /\
     nth_error lanes (Z.to_nat i) = Some (i - 1)%Z /\
     spawnObstacle f s = set_obstacles (obstacles s ++ [spawned f]) s /\
     position (group (spawned f)) = vec3 (inject_Z (i - 1) * laneWidth) 0 spawnZ).

(** The largest double below 2/3, and the frame that draws it for the
    lane. *)
Definition twoThirds : Q := 6004799503160661 # 9007199254740992.
Definition drawsTwoThirds : Frame := frame 7000 7000 twoThirds 0.7 0.1.

(** The lane draw and the jump on binary64 floats, to compare
    [roundToDouble] and the bounds of the jump's peak with the arithmetic
    the program runs on. *)
Module Doubles.
Import PrimFloat FloatOps SpecFloat.
#[local] Set Warnings "-inexact-float".

(** The rational a finite double stands for. *)
Definition toQ (f : float) : Q :=
  match Prim2SF f with
  | S754_finite s m e => (if s then -1 else 1) * inject_Z (Zpos m) * 2 ^ e
  | _ => 0
  end.

(** Lane draws: 0, the doubles next to 1/3 and 2/3, the largest double
    below 1, a subnormal one, and some in between. *)
Definition draws : list float :=
  [0; 0.3333333333333333; 0.33333333333333337; 0.6666666666666666;
   0.6666666666666667; 0.9999999999999999; 5e-324; 0.1; 0.25; 0.5; 0.7;
   0.8333333333333334]%float.

(** [Math.random() * lanes.length] on a double is [roundToDouble] of the
    exact product, and the double is its own rounding. *)
Definition agrees (d : float) : bool :=
  Qeq_bool (toQ (mul d 3)) (roundToDouble (toQ d * 3))
  && Qeq_bool (roundToDouble (toQ d)) (toQ d).

(** The heights of a jump from height [y0] peak near 6.5 above it: all are
    below [y0 + 6.51], and that of frame 25 is above [y0 + 6.49]. *)
Definition peaksNear (y0 : float) : bool :=
  let heights := Binary64.arc 100 y0 Binary64.jumpForce in
  forallb (fun h => ltb h (add y0 6.51%float)) heights
  && ltb (add y0 6.49%float) (nth 24 heights Binary64.zero).

End Doubles.

(** The [case] labels of the keyboard [switch]. *)
Definition boundKeys : list string :=
  ["ArrowLeft"; "a"; "A"] ++ ["ArrowRight"; "d"; "D"] ++ ["ArrowUp"; " "; "w"; "W"].

(** What holds of a key handler: a run of key presses leaves alone what
    keys never write, and all of the component outside PLAYING; a key that is
    no [case] label does nothing. *)
Definition keys_are_contained
    (handle : string -> ThreeSceneComponent -> ThreeSceneComponent) : Prop :=
  (forall keys s,
     let s' := fold_left (fun s key => handle key s) keys s in
     untouched_by_keys s s' /\
     (status (gameState s) <> PLAYING -> s' = s)) /\
  (forall key s, keyIn key boundKeys = false -> handle key s = s).

(** Neither button of the overlay screens. *)
Definition notClick (e : Event) : Prop :=
  match e with
  | Click_startGame | Click_resetGame => False
  | KeyDown _ | AnimationFrame _ => True
  end.

(** What holds of a skin on the game-over screen: whatever keys are pressed
    and frames drawn, the component stays as the crash left it, but for the
    stored status of the last frame. *)
Definition frozen_when_over (k : Skin) : Prop :=
  forall es s, Forall notClick es -> status (gameState s) = GAME_OVER ->
    run k es s = s \/ run k es s = set_lastGameStatus GAME_OVER s.

(** ** Further vocabulary: the player *)

(** What holds of the lateral smoothing of a player update run at the
    frame's [deltaTime]: with target and player between the outer lane
    centres (where every reachable state has them) and no lane change in
    between, every update leaves the target alone and takes the player
    towards it, never past it and never away from it. *)
Definition closes_in_laterally
    (update : Q -> Z -> ThreeSceneComponent -> ThreeSceneComponent) : Prop :=
  forall clock n s,
    -3 <= targetX s <= 3 -> -3 <= x (position (player s)) <= 3 ->
    let before := ticks update deltaTime clock n s in
    let after := ticks update deltaTime clock (S n) s in
    targetX after = targetX s /\
    (x (position (player s)) <= targetX s ->
     x (position (player before)) <= x (position (player after)) /\
     x (position (player after)) <= targetX s) /\
    (targetX s <= x (position (player s)) ->
     targetX s <= x (position (player after)) /\
     x (position (player after)) <= x (position (player before))).

(** The player is on the track: its target is the centre of its lane and
    both target and lateral position lie between the outer lane centres. *)
Definition on_track (s : ThreeSceneComponent) : Prop :=
  targetX s == inject_Z (currentLane s) * laneWidth /\
  (-3 <= targetX s /\ targetX s <= 3) /\
  (-3 <= x (position (player s)) /\ x (position (player s)) <= 3).

Definition stays_on_track (k : Skin) : Prop :=
  forall s, reachable k s -> on_track s.

(** What holds of the height of a jump under a player update, for a jump
    from a grounded state [s] at a height between 0 and 1 (the run bob is
    at most 0.2): as long as the player is airborne it is less than 6.51
    above where it started, and on frame 25 it is airborne and more than
    6.49 above.  In exact arithmetic the arc peaks 6.5 above the start; the
    bounds leave room for the rounding of binary64, which moves the peak by
    less than 1e-14. *)
Definition jump_peaks_near_6_5
    (update : Q -> Z -> ThreeSceneComponent -> ThreeSceneComponent) : Prop :=
  forall dt clock s, isJumping s = false ->
    0 <= playerY s -> playerY s <= 1 ->
    (forall m, isJumping (ticks update dt clock m (jump s)) = true ->
       playerY (ticks update dt clock m (jump s)) < playerY s + 6.51) /\
    isJumping (ticks update dt clock 25 (jump s)) = true /\
    playerY s + 6.49 < playerY (ticks update dt clock 25 (jump s)).

(** ** Further vocabulary: the collision check *)

(** What holds of a collision check whose test on one obstacle is [hits]:
    from PLAYING it ends the game exactly when some obstacle of the pool
    passes the test, and otherwise returns the component as it was. *)
Definition crashes_iff_hit
    (check : ThreeSceneComponent -> ThreeSceneComponent)
    (hits : Object3D -> Obstacle -> bool) : Prop :=
  forall s, status (gameState s) = PLAYING ->
    (status (gameState (check s)) = GAME_OVER <->
     exists o, In o (obstacles s) /\ hits (player s) o = true) /\
    ((forall o, In o (obstacles s) -> hits (player s) o = false) -> check s = s).

(** The group of [obs] is 1.0 or more sideways, or 1.5 or more in depth,
    from that of the player. *)
Definition outOfReach (player : Object3D) (obs : Obstacle) : Prop :=
  1.0 <= Qabs (x (position (group obs)) - x (position player)) \/
  1.5 <= Qabs (z (position (group obs)) - z (position player)).

(** A cat in the centre lane and an obstacle in the right lane beside it. *)
Definition besideInNextLane : ThreeSceneComponent :=
  set_lastGameStatus PLAYING
    (set_obstacles [obstacle (set_position (vec3 3 0 0) newGroup) box origin]
       started).

(** ** Further vocabulary: frames and skins *)

(** What holds of a frame of a skin whose PLAYING branch is [playing], when
    the start button is clicked right after the frame of a crash: the click
    is offered, the next frame is the PLAYING branch on the component as the
    click left it, with no reset, and that component still has the pool of
    the run that crashed. *)
Definition restart_skips_reset (k : Skin)
    (playing : Frame -> ThreeSceneComponent -> ThreeSceneComponent) : Prop :=
  forall s f1 f2,
    status (gameState s) = PLAYING ->
    status (gameState (onFrame k f1 s)) = GAME_OVER ->
    let restarted := step k Click_startGame (onFrame k f1 s) in
    offered Click_startGame (onFrame k f1 s) = true /\
    obstacles restarted = obstacles (onFrame k f1 s) /\
    onFrame k f2 restarted = playing f2 restarted.

(** What a frame that is not the first PLAYING one of a run never writes:
    the lane and its target. *)
Definition frames_leave_lane (k : Skin) : Prop :=
  forall f s,
    (status (gameState s) = PLAYING -> lastGameStatus s = PLAYING) ->
    currentLane (onFrame k f s) = currentLane s /\
    targetX (onFrame k f s) = targetX s.

(** Two components that differ at most in the player group. *)
Definition sameButPlayer (a b : ThreeSceneComponent) : Prop :=
  b = set_player (player b) a.

(** * Properties *)

(** ** Comparisons and statuses *)

Lemma Qltb_lt (a b : Q) : Qltb a b = true <-> a < b.
Proof.
  unfold Qltb. rewrite negb_true_iff.
  destruct (Qle_bool b a) eqn:E.
  - apply Qle_bool_iff in E. split; [discriminate | intro; lra].
  - split; [intros _ | reflexivity].
    destruct (Qlt_le_dec a b) as [L | L]; [exact L |].
    apply Qle_bool_iff in L. congruence.
Qed.

Lemma Qltb_ge (a b : Q) : Qltb a b = false <-> b <= a.
Proof.
  unfold Qltb. rewrite negb_false_iff. apply Qle_bool_iff.
Qed.

Lemma Qgtb_gt (a b : Q) : Qgtb a b = true <-> b < a.
Proof. apply Qltb_lt. Qed.

Lemma Qgtb_le (a b : Q) : Qgtb a b = false <-> a <= b.
Proof. apply Qltb_ge. Qed.

Lemma GameStatus_eqb_eq (a b : GameStatus) : GameStatus_eqb a b = true <-> a = b.
Proof. destruct a, b; simpl; split; congruence. Qed.

Lemma GameStatus_eqb_neq (a b : GameStatus) :
  GameStatus_eqb a b = false <-> a <> b.
Proof. destruct a, b; simpl; split; congruence. Qed.

Lemma isPlaying_true (g : GameStateService.t) :
  GameStateService.isPlaying g = true <-> status g = PLAYING.
Proof. apply GameStatus_eqb_eq. Qed.

Lemma isPlaying_false (g : GameStateService.t) :
  GameStateService.isPlaying g = false <-> status g <> PLAYING.
Proof. apply GameStatus_eqb_neq. Qed.

(** ** The session service *)

(** C10: outside PLAYING, [incrementScore] returns the service as it was;
    score, speed and status are all untouched. *)
Theorem incrementScore_outside_playing (amount : Z) (g : GameStateService.t) :
  status g <> PLAYING -> GameStateService.incrementScore amount g = g.
Proof.
  intro H. unfold GameStateService.incrementScore.
  apply isPlaying_false in H. now rewrite H.
Qed.

Lemma incrementScore_outside_playing_witness :
  status (GameStateService.mk GAME_OVER 150 1.003) <> PLAYING /\
  GameStateService.incrementScore 50 (GameStateService.mk GAME_OVER 150 1.003)
  = GameStateService.mk GAME_OVER 150 1.003.
Proof.
  split; [discriminate |].
  apply (incrementScore_outside_playing 50
           (GameStateService.mk GAME_OVER 150 1.003)).
  discriminate.
Defined.

(** ** Commands *)

(** A key that is among the [case] labels [K] of one branch of the [switch]
    is among those of no other branch. *)
Ltac key_clash K :=
  let E := fresh "E" in
  match goal with
  | |- ?k = false => destruct k eqn:E; [exfalso | reflexivity]
  end;
  unfold keyIn in K, E; simpl in K, E;
  repeat match goal with
         | H : context [String.eqb ?a ?b] |- _ =>
             destruct (String.eqb_spec a b); subst; simpl in *
         end;
  discriminate.

(** C5: a jump while airborne changes nothing; a jump while grounded sets
    the vertical velocity to [jumpForce] and the airborne flag, and nothing
    else.  Both skins send the jump keys to this [jump] while PLAYING. *)
Theorem jump_airborne_or_grounded (s : ThreeSceneComponent) :
  (isJumping s = true -> jump s = s) /\
  (isJumping s = false ->
     jumpVelocity (jump s) = jumpForce /\ isJumping (jump s) = true /\
     jump s = set_jumpVelocity jumpForce (set_isJumping true s)) /\
  (forall key, keyIn key ["ArrowUp"; " "; "w"; "W"] = true ->
     status (gameState s) = PLAYING ->
     Cat.handleKeyboardEvent key s = jump s /\
     Plane.handleKeyboardEvent key s = jump s).
Proof.
  split; [| split].
  - unfold jump. intros ->. reflexivity.
  - unfold jump. intros ->. repeat split.
  - intros key K P. apply isPlaying_true in P.
    unfold Cat.handleKeyboardEvent, Plane.handleKeyboardEvent.
    rewrite P, K. simpl negb. cbv iota.
    assert (L : keyIn key ["ArrowLeft"; "a"; "A"] = false) by key_clash K.
    assert (R : keyIn key ["ArrowRight"; "d"; "D"] = false) by key_clash K.
    rewrite L, R. split; reflexivity.
Qed.

Lemma jump_airborne_or_grounded_witness :
  jump (set_isJumping true initial) = set_isJumping true initial /\
  jumpVelocity (jump initial) = 0.5 /\
  Cat.handleKeyboardEvent "w"
    (upd_gameState GameStateService.startGame initial)
  = jump (upd_gameState GameStateService.startGame initial).
Proof.
  split; [| split].
  - apply (proj1 (jump_airborne_or_grounded (set_isJumping true initial))).
    reflexivity.
  - apply (proj1 (proj2 (jump_airborne_or_grounded initial))). reflexivity.
  - apply (proj2 (proj2 (jump_airborne_or_grounded
                           (upd_gameState GameStateService.startGame initial)))
             "w"); reflexivity.
Defined.

Lemma Cat_changeLane_range d s :
  (-1 <= currentLane s <= 1)%Z -> (-1 <= currentLane (Cat.changeLane d s) <= 1)%Z.
Proof.
  intro H. unfold Cat.changeLane.
  destruct ((currentLane s + d >=? -1) && (currentLane s + d <=? 1))%Z eqn:E;
    [| exact H].
  simpl. apply andb_true_iff in E. lia.
Qed.

Lemma Plane_changeLane_range d s :
  (-1 <= currentLane s <= 1)%Z ->
  (-1 <= currentLane (Plane.changeLane d s) <= 1)%Z.
Proof.
  intro H. unfold Plane.changeLane.
  destruct ((currentLane s + d >=? -1) && (currentLane s + d <=? 1))%Z eqn:E;
    [| exact H].
  simpl. apply andb_true_iff in E. lia.
Qed.

Lemma fold_changeLane_range
    (changeLane : Z -> ThreeSceneComponent -> ThreeSceneComponent) :
  (forall d s, (-1 <= currentLane s <= 1)%Z ->
               (-1 <= currentLane (changeLane d s) <= 1)%Z) ->
  forall ds s, (-1 <= currentLane s <= 1)%Z ->
    (-1 <= currentLane (fold_left (fun s d => changeLane d s) ds s) <= 1)%Z.
Proof.
  intros step ds. induction ds as [| d ds IH]; intros s H; simpl.
  - exact H.
  - apply IH, step, H.
Qed.

(** C4: from lane 0, any sequence of MoveLeft/MoveRight keeps the lane in
    {-1, 0, 1}; an accepted command moves the lane by its direction (one
    lane) and retargets [targetX] to [lane * laneWidth]; a command past an
    extreme lane returns the component unchanged.  Both skins. *)
Theorem changeLane_keeps_lanes :
  lane_commands_spec Cat.changeLane /\ lane_commands_spec Plane.changeLane.
Proof.
  split; split.
  - intros ds s _ L0. apply fold_changeLane_range.
    + intros; now apply Cat_changeLane_range.
    + lia.
  - intros d s _ newLane. unfold Cat.changeLane. fold newLane. split.
    + intro R.
      replace ((newLane >=? -1) && (newLane <=? 1))%Z with true
        by (symmetry; apply andb_true_iff; lia).
      split; reflexivity.
    + intro R.
      replace ((newLane >=? -1) && (newLane <=? 1))%Z with false; [reflexivity |].
      symmetry. apply andb_false_iff. lia.
  - intros ds s _ L0. apply fold_changeLane_range.
    + intros; now apply Plane_changeLane_range.
    + lia.
  - intros d s _ newLane. unfold Plane.changeLane. fold newLane. split.
    + intro R.
      replace ((newLane >=? -1) && (newLane <=? 1))%Z with true
        by (symmetry; apply andb_true_iff; lia).
      split; reflexivity.
    + intro R.
      replace ((newLane >=? -1) && (newLane <=? 1))%Z with false; [reflexivity |].
      symmetry. apply andb_false_iff. lia.
Qed.

Lemma changeLane_keeps_lanes_witness :
  (-1 <= currentLane (fold_left (fun s d => Cat.changeLane d s)
                        [1; 1; -1; -1; -1; 1]%Z initial) <= 1)%Z /\
  currentLane (Plane.changeLane 1 initial) = 1%Z /\
  Plane.changeLane 1 (Plane.changeLane 1 initial) = Plane.changeLane 1 initial.
Proof.
  destruct changeLane_keeps_lanes as [[CatSeq _] [_ PlaneOne]].
  split; [| split].
  - apply CatSeq; [| reflexivity].
    repeat constructor; unfold isDirection; lia.
  - apply (proj1 (PlaneOne 1%Z initial (or_intror eq_refl))). simpl. lia.
  - apply (proj2 (PlaneOne 1%Z (Plane.changeLane 1 initial) (or_intror eq_refl))).
    simpl. lia.
Defined.

(** ** Despawn rewards *)

Lemma speedUp_bounds (v : Q) :
  1 <= v -> v <= 2.5 -> 1 <= speedUp v /\ speedUp v <= 2.5 /\ v <= speedUp v.
Proof.
  intros L U. unfold speedUp.
  destruct (Q.min_spec (v + 0.001) 2.5) as [[H E] | [H E]]; rewrite E;
    repeat split; lra.
Qed.

Lemma speedUp_le_max (v : Q) : speedUp v <= 2.5.
Proof.
  unfold speedUp.
  destruct (Q.min_spec (v + 0.001) 2.5) as [[H E] | [H E]]; rewrite E; lra.
Qed.

Lemma iter_speedUp_bounds (n : nat) (v : Q) :
  1 <= v -> v <= 2.5 ->
  1 <= Nat.iter n speedUp v /\ Nat.iter n speedUp v <= 2.5 /\
  v <= Nat.iter n speedUp v.
Proof.
  intros L U. induction n as [| n (L' & U' & M)]; simpl.
  - repeat split; lra.
  - destruct (speedUp_bounds _ L' U') as (? & ? & ?). repeat split; lra.
Qed.

Lemma incrementScore_playing (amount : Z) (g : GameStateService.t) :
  status g = PLAYING ->
  GameStateService.incrementScore amount g
  = GameStateService.mk PLAYING (score g + amount) (speedUp (speed g)).
Proof.
  intro P. unfold GameStateService.incrementScore.
  rewrite (proj2 (isPlaying_true g) P), P. reflexivity.
Qed.

Lemma iter_incrementScore (n : nat) (g : GameStateService.t) :
  status g = PLAYING ->
  Nat.iter n (GameStateService.incrementScore 50) g
  = GameStateService.mk PLAYING (score g + 50 * Z.of_nat n)
      (Nat.iter n speedUp (speed g)).
Proof.
  intro P. induction n as [| n IH].
  - destruct g as [st sc sp]. simpl in *. subst st. f_equal. lia.
  - rewrite Nat.iter_succ, IH, incrementScore_playing by reflexivity.
    cbn [score speed]. f_equal. lia.
Qed.

Lemma Cat_moveObstacles_eq (frameMove : Q) (obs : list Obstacle)
    (g : GameStateService.t) :
  let moved := map (Cat.moveObstacle frameMove) obs in
  Cat.moveObstacles frameMove obs g
  = (filter (fun o => negb (passed o)) moved,
     Nat.iter (List.length (filter passed moved))
       (GameStateService.incrementScore 50) g).
Proof.
  induction obs as [| o obs IH]; [reflexivity |].
  cbn [Cat.moveObstacles map filter]. cbv zeta in IH. rewrite IH.
  fold (passed (Cat.moveObstacle frameMove o)).
  destruct (passed (Cat.moveObstacle frameMove o)); reflexivity.
Qed.

Lemma Plane_moveObstacles_eq (frameMove : Q) (obs : list Obstacle)
    (g : GameStateService.t) :
  let moved := map (Plane.moveObstacle frameMove) obs in
  Plane.moveObstacles frameMove obs g
  = (filter (fun o => negb (passed o)) moved,
     Nat.iter (List.length (filter passed moved))
       (GameStateService.incrementScore 50) g).
Proof.
  induction obs as [| o obs IH]; [reflexivity |].
  cbn [Plane.moveObstacles map filter]. cbv zeta in IH. rewrite IH.
  fold (passed (Plane.moveObstacle frameMove o)).
  destruct (passed (Plane.moveObstacle frameMove o)); reflexivity.
Qed.

(** ** What each step of a frame leaves alone *)

Lemma Cat_updatePlayer_frame {three : Three} dt t s :
  same_session s (Cat.updatePlayer dt t s).
Proof.
  unfold same_session, Cat.updatePlayer.
  destruct (isJumping s) eqn:J; cbn; rewrite ?J; cbn.
  - destruct (Qle_bool _ 0); cbn; repeat split.
  - repeat split.
Qed.

Lemma Plane_updatePlayer_frame {three : Three} dt t s :
  same_session s (Plane.updatePlayer dt t s).
Proof.
  unfold same_session, Plane.updatePlayer.
  destruct (isJumping s) eqn:J; cbn; rewrite ?J; cbn.
  - destruct (Qle_bool _ 0); cbn; repeat split.
  - repeat split.
Qed.

Lemma Cat_checkCollisions_cases {three : Three} s :
  (Cat.firstCollision (player s) (obstacles s) = None /\
   Cat.checkCollisions s = s) \/
  (exists obs, Cat.firstCollision (player s) (obstacles s) = Some obs /\
   Cat.checkCollisions s = Cat.handleCrash s).
Proof.
  unfold Cat.checkCollisions.
  destruct (Cat.firstCollision (player s) (obstacles s)) as [obs |];
    [right; exists obs | left]; split; reflexivity.
Qed.

Lemma Plane_checkCollisions_cases {three : Three} s :
  (Plane.firstCollision (Plane.shrunkPlayerBox (player s)) (obstacles s) = None
   /\ Plane.checkCollisions s = s) \/
  (exists obs,
     Plane.firstCollision (Plane.shrunkPlayerBox (player s)) (obstacles s)
     = Some obs /\
     Plane.checkCollisions s = Plane.handleCrash s).
Proof.
  unfold Plane.checkCollisions. cbv zeta.
  destruct (Plane.firstCollision _ (obstacles s)) as [obs |];
    [right; exists obs | left]; split; reflexivity.
Qed.

Lemma Cat_playing_outcome {three : Three} f s :
  frame_outcome Cat.moveObstacle 30 (-80) s (Cat.playing f s).
Proof.
  unfold frame_outcome, Cat.playing. cbv zeta.
  rewrite Cat_moveObstacles_eq. cbv zeta.
  set (moved := map _ (obstacles s)).
  set (g := Nat.iter _ _ (gameState s)).
  set (kept := filter _ moved).
  set (s1 := set_gameState g (set_obstacles kept s)).
  set (s2 := if Qgtb _ _ then _ else s1).
  assert (S2 : gameState s2 = g /\
               (obstacles s2 = kept \/
                exists o, obstacles s2 = kept ++ [o] /\
                          z (position (group o)) = -80) /\
               currentLane s2 = currentLane s /\
               lastGameStatus s2 = lastGameStatus s).
  { subst s2. destruct (Qgtb _ _).
    - unfold Cat.spawnObstacle.
      destruct (negb (GameStateService.isPlaying (gameState s1))); cbn.
      + repeat split. now left.
      + repeat split. right. eexists. split; reflexivity.
    - cbn. repeat split. now left. }
  clearbody s2. destruct S2 as (G & O & L & T).
  destruct (Cat_updatePlayer_frame deltaTime (now f) s2)
    as (G' & O' & L' & _ & T' & _).
  set (s3 := Cat.updatePlayer deltaTime (now f) s2) in *. clearbody s3.
  destruct (Cat_checkCollisions_cases s3) as [[_ E] | [obs [_ E]]]; rewrite E.
  - rewrite G', O', L', T'. repeat split; auto.
  - cbn. rewrite G', O', L', T'. repeat split; auto. right. now rewrite G.
Qed.

Lemma Plane_playing_outcome {three : Three} f s :
  frame_outcome Plane.moveObstacle 40 (-100) s (Plane.playing f s).
Proof.
  unfold frame_outcome, Plane.playing. cbv zeta.
  rewrite Plane_moveObstacles_eq. cbv zeta.
  set (moved := map _ (obstacles s)).
  set (g := Nat.iter _ _ (gameState s)).
  set (kept := filter _ moved).
  set (s1 := set_gameState g (set_obstacles kept s)).
  set (s2 := if Qgtb _ _ then _ else s1).
  assert (S2 : gameState s2 = g /\
               (obstacles s2 = kept \/
                exists o, obstacles s2 = kept ++ [o] /\
                          z (position (group o)) = -100) /\
               currentLane s2 = currentLane s /\
               lastGameStatus s2 = lastGameStatus s).
  { subst s2. destruct (Qgtb _ _).
    - unfold Plane.spawnObstacle.
      destruct (negb (GameStateService.isPlaying (gameState s1))); cbn.
      + repeat split. now left.
      + repeat split. right. eexists. split; reflexivity.
    - cbn. repeat split. now left. }
  clearbody s2. destruct S2 as (G & O & L & T).
  destruct (Plane_updatePlayer_frame deltaTime (now f) s2)
    as (G' & O' & L' & _ & T' & _).
  set (s3 := Plane.updatePlayer deltaTime (now f) s2) in *. clearbody s3.
  destruct (Plane_checkCollisions_cases s3) as [[_ E] | [obs [_ E]]]; rewrite E.
  - rewrite G', O', L', T'. repeat split; auto.
  - cbn. rewrite G', O', L', T'. repeat split; auto. right. now rewrite G.
Qed.

(** ** One animation frame *)

Lemma Cat_animate_playing {three : Three} f s :
  status (gameState s) = PLAYING ->
  Cat.animate f s = Cat.playing f (entering f s).
Proof.
  intro P. unfold Cat.animate, entering. cbv zeta. rewrite P. simpl.
  destruct (GameStatus_eqb (lastGameStatus s) PLAYING); reflexivity.
Qed.

Lemma Plane_animate_playing {three : Three} f s :
  status (gameState s) = PLAYING ->
  Plane.animate f s = Plane.playing f (entering f s).
Proof.
  intro P. unfold Plane.animate, entering. cbv zeta. rewrite P. simpl.
  destruct (GameStatus_eqb (lastGameStatus s) PLAYING); reflexivity.
Qed.

Lemma entering_fields f s :
  gameState (entering f s) = gameState s /\
  lastGameStatus (entering f s) = PLAYING /\
  obstacles (entering f s)
  = (if GameStatus_eqb (lastGameStatus s) PLAYING then obstacles s else []) /\
  currentLane (entering f s)
  = (if GameStatus_eqb (lastGameStatus s) PLAYING then currentLane s else 0%Z).
Proof.
  unfold entering.
  destruct (GameStatus_eqb (lastGameStatus s) PLAYING); repeat split.
Qed.

Lemma Cat_animate_idle {three : Three} f s :
  status (gameState s) <> PLAYING ->
  gameState (Cat.animate f s) = gameState s /\
  obstacles (Cat.animate f s) = obstacles s /\
  currentLane (Cat.animate f s) = currentLane s /\
  lastGameStatus (Cat.animate f s) = status (gameState s) /\
  playerY (Cat.animate f s) = playerY s.
Proof.
  intro P. unfold Cat.animate. cbv zeta.
  destruct (status (gameState s)); [| contradiction |]; repeat split.
Qed.

Lemma Plane_animate_idle {three : Three} f s :
  status (gameState s) <> PLAYING ->
  gameState (Plane.animate f s) = gameState s /\
  obstacles (Plane.animate f s) = obstacles s /\
  currentLane (Plane.animate f s) = currentLane s /\
  lastGameStatus (Plane.animate f s) = status (gameState s) /\
  playerY (Plane.animate f s) = playerY s.
Proof.
  intro P. unfold Plane.animate. cbv zeta.
  destruct (status (gameState s)); [| contradiction |]; repeat split.
Qed.

(** ** The component as a client of the session service *)

Lemma jump_session s :
  gameState (jump s) = gameState s /\
  lastGameStatus (jump s) = lastGameStatus s /\
  currentLane (jump s) = currentLane s.
Proof. unfold jump. destruct (negb (isJumping s)); repeat split. Qed.

Lemma jump_playerY s : playerY (jump s) = playerY s.
Proof. unfold jump. destruct (negb (isJumping s)); reflexivity. Qed.

Lemma Cat_changeLane_playerY d s : playerY (Cat.changeLane d s) = playerY s.
Proof. unfold Cat.changeLane. destruct (_ && _); reflexivity. Qed.

Lemma Plane_changeLane_playerY d s : playerY (Plane.changeLane d s) = playerY s.
Proof. unfold Plane.changeLane. destruct (_ && _); reflexivity. Qed.

Lemma Cat_updatePlayer_playerY {three : Three} dt t s :
  0 <= playerY (Cat.updatePlayer dt t s).
Proof.
  unfold Cat.updatePlayer. destruct (isJumping s) eqn:J; cbn; rewrite ?J; cbn.
  - destruct (Qle_bool (playerY s + jumpVelocity s) 0) eqn:E; cbn; [lra |].
    destruct (Qlt_le_dec 0 (playerY s + jumpVelocity s)) as [L | L]; [lra |].
    apply Qle_bool_iff in L. congruence.
  - pose proof (Qabs_nonneg (Math_sin (inject_Z t * 0.015))). lra.
Qed.

Lemma Plane_updatePlayer_playerY {three : Three} dt t s :
  0 <= playerY (Plane.updatePlayer dt t s).
Proof.
  unfold Plane.updatePlayer. destruct (isJumping s) eqn:J; cbn; rewrite ?J; cbn.
  - destruct (Qle_bool (playerY s + jumpVelocity s) 0) eqn:E; cbn; [lra |].
    destruct (Qlt_le_dec 0 (playerY s + jumpVelocity s)) as [L | L]; [lra |].
    apply Qle_bool_iff in L. congruence.
  - pose proof (Qabs_nonneg (Math_sin (inject_Z t * 0.003))). lra.
Qed.

Lemma Cat_playing_last_steps {three : Three} f s :
  exists u, Cat.playing f s
            = Cat.checkCollisions (Cat.updatePlayer deltaTime (now f) u).
Proof.
  unfold Cat.playing. destruct (Cat.moveObstacles _ _ _) as [obs g].
  eexists. reflexivity.
Qed.

Lemma Cat_handleCrash_playerY s : playerY (Cat.handleCrash s) = playerY s.
Proof. reflexivity. Qed.

Lemma Cat_playing_playerY {three : Three} f s : 0 <= playerY (Cat.playing f s).
Proof.
  destruct (Cat_playing_last_steps f s) as [u ->].
  destruct (Cat_checkCollisions_cases (Cat.updatePlayer deltaTime (now f) u))
    as [[_ ->] | [o [_ ->]]]; rewrite ?Cat_handleCrash_playerY;
    apply Cat_updatePlayer_playerY.
Qed.

Lemma Plane_playing_last_steps {three : Three} f s :
  exists u, Plane.playing f s
            = Plane.checkCollisions (Plane.updatePlayer deltaTime (now f) u).
Proof.
  unfold Plane.playing. destruct (Plane.moveObstacles _ _ _) as [obs g].
  eexists. reflexivity.
Qed.

Lemma Plane_handleCrash_playerY s : playerY (Plane.handleCrash s) = playerY s.
Proof. reflexivity. Qed.

Lemma Plane_playing_playerY {three : Three} f s : 0 <= playerY (Plane.playing f s).
Proof.
  destruct (Plane_playing_last_steps f s) as [u ->].
  destruct (Plane_checkCollisions_cases (Plane.updatePlayer deltaTime (now f) u))
    as [[_ ->] | [o [_ ->]]]; rewrite ?Plane_handleCrash_playerY;
    apply Plane_updatePlayer_playerY.
Qed.

Lemma Cat_changeLane_session d s :
  gameState (Cat.changeLane d s) = gameState s /\
  lastGameStatus (Cat.changeLane d s) = lastGameStatus s.
Proof.
  unfold Cat.changeLane. destruct (_ && _); repeat split.
Qed.

Lemma Plane_changeLane_session d s :
  gameState (Plane.changeLane d s) = gameState s /\
  lastGameStatus (Plane.changeLane d s) = lastGameStatus s.
Proof.
  unfold Plane.changeLane. destruct (_ && _); repeat split.
Qed.

Lemma cat_disciplined {three : Three} : Disciplined cat.
Proof.
  constructor; simpl.
  - intros key s. unfold Cat.handleKeyboardEvent.
    destruct (negb _); [split; reflexivity |].
    destruct (keyIn key _); [apply Cat_changeLane_session |].
    destruct (keyIn key _); [apply Cat_changeLane_session |].
    destruct (keyIn key _); [| split; reflexivity].
    destruct (jump_session s) as (? & ? & _). now split.
  - intros key s R. unfold Cat.handleKeyboardEvent.
    destruct (negb _); [exact R |].
    destruct (keyIn key _); [now apply Cat_changeLane_range |].
    destruct (keyIn key _); [now apply Cat_changeLane_range |].
    destruct (keyIn key _); [| exact R].
    destruct (jump_session s) as (_ & _ & ->). exact R.
  - intros f s.
    destruct (GameStatus_eqb (status (gameState s)) PLAYING) eqn:P.
    + apply GameStatus_eqb_eq in P. rewrite Cat_animate_playing by exact P.
      destruct (Cat_playing_outcome f (entering f s)) as (_ & _ & _ & ->).
      rewrite P. apply entering_fields.
    + apply GameStatus_eqb_neq in P. now apply (Cat_animate_idle f s).
  - intros f s P. now apply (Cat_animate_idle f s).
  - intros f s P. rewrite Cat_animate_playing by exact P.
    destruct (Cat_playing_outcome f (entering f s)) as (G & _).
    destruct (entering_fields f s) as (E & _). rewrite E in G.
    eexists. exact G.
  - intros f s R.
    destruct (GameStatus_eqb (status (gameState s)) PLAYING) eqn:P.
    + apply GameStatus_eqb_eq in P. rewrite Cat_animate_playing by exact P.
      destruct (Cat_playing_outcome f (entering f s)) as (_ & _ & -> & _).
      destruct (entering_fields f s) as (_ & _ & _ & ->).
      destruct (GameStatus_eqb (lastGameStatus s) PLAYING); [exact R | lia].
    + apply GameStatus_eqb_neq in P.
      destruct (Cat_animate_idle f s P) as (_ & _ & -> & _). exact R.
  - intros key s. unfold Cat.handleKeyboardEvent.
    destruct (negb _); [reflexivity |].
    destruct (keyIn key _); [apply Cat_changeLane_playerY |].
    destruct (keyIn key _); [apply Cat_changeLane_playerY |].
    destruct (keyIn key _); [apply jump_playerY | reflexivity].
  - intros f s Y.
    destruct (GameStatus_eqb (status (gameState s)) PLAYING) eqn:P.
    + apply GameStatus_eqb_eq in P. rewrite Cat_animate_playing by exact P.
      apply Cat_playing_playerY.
    + apply GameStatus_eqb_neq in P.
      destruct (Cat_animate_idle f s P) as (_ & _ & _ & _ & ->). exact Y.
Qed.

Lemma plane_disciplined {three : Three} : Disciplined plane.
Proof.
  constructor; simpl.
  - intros key s. unfold Plane.handleKeyboardEvent.
    destruct (negb _); [split; reflexivity |].
    destruct (keyIn key _); [apply Plane_changeLane_session |].
    destruct (keyIn key _); [apply Plane_changeLane_session |].
    destruct (keyIn key _); [| split; reflexivity].
    destruct (jump_session s) as (? & ? & _). now split.
  - intros key s R. unfold Plane.handleKeyboardEvent.
    destruct (negb _); [exact R |].
    destruct (keyIn key _); [now apply Plane_changeLane_range |].
    destruct (keyIn key _); [now apply Plane_changeLane_range |].
    destruct (keyIn key _); [| exact R].
    destruct (jump_session s) as (_ & _ & ->). exact R.
  - intros f s.
    destruct (GameStatus_eqb (status (gameState s)) PLAYING) eqn:P.
    + apply GameStatus_eqb_eq in P. rewrite Plane_animate_playing by exact P.
      destruct (Plane_playing_outcome f (entering f s)) as (_ & _ & _ & ->).
      rewrite P. apply entering_fields.
    + apply GameStatus_eqb_neq in P. now apply (Plane_animate_idle f s).
  - intros f s P. now apply (Plane_animate_idle f s).
  - intros f s P. rewrite Plane_animate_playing by exact P.
    destruct (Plane_playing_outcome f (entering f s)) as (G & _).
    destruct (entering_fields f s) as (E & _). rewrite E in G.
    eexists. exact G.
  - intros f s R.
    destruct (GameStatus_eqb (status (gameState s)) PLAYING) eqn:P.
    + apply GameStatus_eqb_eq in P. rewrite Plane_animate_playing by exact P.
      destruct (Plane_playing_outcome f (entering f s)) as (_ & _ & -> & _).
      destruct (entering_fields f s) as (_ & _ & _ & ->).
      destruct (GameStatus_eqb (lastGameStatus s) PLAYING); [exact R | lia].
    + apply GameStatus_eqb_neq in P.
      destruct (Plane_animate_idle f s P) as (_ & _ & -> & _). exact R.
  - intros key s. unfold Plane.handleKeyboardEvent.
    destruct (negb _); [reflexivity |].
    destruct (keyIn key _); [apply Plane_changeLane_playerY |].
    destruct (keyIn key _); [apply Plane_changeLane_playerY |].
    destruct (keyIn key _); [apply jump_playerY | reflexivity].
  - intros f s Y.
    destruct (GameStatus_eqb (status (gameState s)) PLAYING) eqn:P.
    + apply GameStatus_eqb_eq in P. rewrite Plane_animate_playing by exact P.
      apply Plane_playing_playerY.
    + apply GameStatus_eqb_neq in P.
      destruct (Plane_animate_idle f s P) as (_ & _ & _ & _ & ->). exact Y.
Qed.

(** ** Invariants of the running application *)

Lemma rewards_then_maybe_crash_eq (n : nat) (g g' : GameStateService.t) :
  status g = PLAYING ->
  (let r := Nat.iter n (GameStateService.incrementScore 50) g in
   g' = r \/ g' = GameStateService.endGame r) ->
  speed g' = Nat.iter n speedUp (speed g) /\
  score g' = (score g + 50 * Z.of_nat n)%Z.
Proof.
  intros P. cbv zeta. rewrite iter_incrementScore by exact P.
  intros [-> | ->]; split; reflexivity.
Qed.

Lemma rewards_then_maybe_crash (n : nat) (g g' : GameStateService.t) :
  status g = PLAYING ->
  1 <= speed g -> speed g <= 2.5 -> (0 <= score g)%Z ->
  (let r := Nat.iter n (GameStateService.incrementScore 50) g in
   g' = r \/ g' = GameStateService.endGame r) ->
  (1 <= speed g' /\ speed g' <= 2.5) /\ (0 <= score g')%Z /\
  speed g <= speed g'.
Proof.
  intros P L U S G.
  destruct (rewards_then_maybe_crash_eq n g g' P G) as (-> & ->).
  destruct (iter_speedUp_bounds n _ L U) as (L' & U' & M).
  repeat split; try assumption; lia.
Qed.

Lemma step_invariant (k : Skin) (e : Event) (s : ThreeSceneComponent) :
  Disciplined k -> session_invariant s -> session_invariant (step k e s).
Proof.
  intros D ((L & U) & S & R & Y & Orb & E). destruct e as [| | key | f]; simpl.
  - unfold session_invariant; cbn.
    split; [lra |]. split; [lia |]. split; [exact R |]. split; [exact Y |].
    split; [now exists 0%nat |]. intros _ _. split; reflexivity.
  - unfold session_invariant; cbn.
    split; [split; assumption |]. split; [lia |]. split; [exact R |].
    split; [exact Y |]. split; [exact Orb |]. intro; discriminate.
  - destruct (keydown_session k D key s) as (G & T).
    unfold session_invariant. rewrite G, T, (keydown_playerY k D).
    split; [split; assumption |]. split; [exact S |].
    split; [now apply (keydown_lane k D) |]. split; [exact Y |].
    split; [exact Orb | exact E].
  - pose proof (frame_lane k D f s R) as R'.
    pose proof (frame_last k D f s) as T.
    pose proof (frame_playerY k D f s Y) as Y'.
    unfold session_invariant. rewrite T.
    destruct (GameStatus_eqb (status (gameState s)) PLAYING) eqn:P.
    + apply GameStatus_eqb_eq in P.
      destruct (frame_playing k D f s P) as [n G].
      destruct (rewards_then_maybe_crash n _ _ P L U S G) as (B & S' & _).
      destruct (rewards_then_maybe_crash_eq n _ _ P G) as (V & _).
      split; [exact B |]. split; [exact S' |]. split; [exact R' |].
      split; [exact Y' |]. split.
      * destruct Orb as [m Orb]. exists (n + m)%nat.
        now rewrite V, Orb, Nat.iter_add.
      * intros _ N. now elim N.
    + apply GameStatus_eqb_neq in P.
      rewrite (frame_idle k D f s P).
      split; [split; assumption |]. split; [exact S |]. split; [exact R' |].
      split; [exact Y' |]. split; [exact Orb |]. intros Q. now elim P.
Qed.

Lemma reachable_invariant (k : Skin) (s : ThreeSceneComponent) :
  Disciplined k -> reachable k s -> session_invariant s.
Proof.
  intros D H. induction H as [| e s H IH _].
  - unfold session_invariant; cbn.
    split; [lra |]. split; [lia |]. split; [lia |]. split; [lra |].
    split; [now exists 0%nat |]. intro; discriminate.
  - now apply step_invariant.
Qed.

(** In every state either skin can reach the player is at or above the
    ground, and the speed is 1.0 after some number of rewards. *)
Lemma reachable_height_and_speed {three : Three} (k : Skin) (s : ThreeSceneComponent) :
  k = cat \/ k = plane -> reachable k s ->
  0 <= playerY s /\ exists n, speed (gameState s) = Nat.iter n speedUp 1.0.
Proof.
  intros K H.
  assert (D : Disciplined k)
    by (destruct K; subst k; [apply cat_disciplined | apply plane_disciplined]).
  destruct (reachable_invariant k s D H) as (_ & _ & _ & Y & Orb & _).
  now split.
Qed.

Lemma step_speed_monotone (k : Skin) (e : Event) (s : ThreeSceneComponent) :
  Disciplined k -> session_invariant s ->
  status (gameState s) = PLAYING -> offered e s = true ->
  speed (gameState s) <= speed (gameState (step k e s)).
Proof.
  intros D ((L & U) & S & _) P O. destruct e as [| | key | f]; simpl in *.
  - unfold GameStateService.isMenu, GameStateService.isGameOver in O.
    rewrite P in O. discriminate.
  - unfold GameStateService.isGameOver in O. rewrite P in O. discriminate.
  - destruct (keydown_session k D key s) as (-> & _). lra.
  - destruct (frame_playing k D f s P) as [n G].
    now destruct (rewards_then_maybe_crash n _ _ P L U S G) as (_ & _ & M).
Qed.

Lemma run_speed_monotone (k : Skin) (es : list Event) (s : ThreeSceneComponent) :
  Disciplined k -> reachable k s -> whilePlaying k es s ->
  speed (gameState s) <= speed (gameState (run k es s)).
Proof.
  intro D. revert s. induction es as [| e es IH]; intros s H W; simpl.
  - lra.
  - destruct W as (P & O & W).
    pose proof (step_speed_monotone k e s D (reachable_invariant k s D H) P O).
    pose proof (IH (step k e s) (reachable_step k e s H O) W). lra.
Qed.

Lemma reachable_run_frames (k : Skin) (fs : list Frame) (s : ThreeSceneComponent) :
  reachable k s -> reachable k (run k (map AnimationFrame fs) s).
Proof.
  revert s. induction fs as [| f fs IH]; intros s H; simpl; [exact H |].
  apply IH. now apply (reachable_step k (AnimationFrame f)).
Qed.

(** ** The despawn reward *)

Lemma frame_outcome_rewards move baseSpeed spawnZ f s s' :
  status (gameState s) = PLAYING ->
  Qgtb spawnZ 15 = false ->
  frame_outcome move baseSpeed spawnZ (entering f s) s' ->
  let pool :=
    if GameStatus_eqb (lastGameStatus s) PLAYING then obstacles s else [] in
  let moved := map (move (baseSpeed * speed (gameState s) * deltaTime)) pool in
  let crossed := List.length (filter passed moved) in
  (exists spawned,
     obstacles s' = filter (fun o => negb (passed o)) moved ++ spawned /\
     Forall (fun o => passed o = false) spawned) /\
  score (gameState s') = (score (gameState s) + 50 * Z.of_nat crossed)%Z /\
  speed (gameState s') = Nat.iter crossed speedUp (speed (gameState s)).
Proof.
  intros P Z0 (G & O & _). cbv zeta.
  destruct (entering_fields f s) as (EG & _ & EO & _).
  rewrite EG, EO in *. split.
  - destruct O as [O | (o & O & Zo)].
    + exists []. rewrite app_nil_r. split; [exact O | constructor].
    + exists [o]. split; [exact O |].
      constructor; [| constructor]. unfold passed. now rewrite Zo.
  - destruct (rewards_then_maybe_crash_eq _ _ _ P G) as (-> & ->).
    split; reflexivity.
Qed.

(** C2: on every PLAYING frame, each obstacle that is past depth 15 after
    the move leaves the pool and is rewarded by one [incrementScore(50)]:
    score + 50 and speed := min(speed + 0.001, 2.5) per obstacle, in both
    skins; that update never gives more than 2.5, and the speed is at most
    2.5 after any run of frames from any state the application can reach. *)
Theorem despawn_reward_and_speed_cap {three : Three} :
  despawn_rewards Cat.moveObstacle 30 Cat.animate /\
  despawn_rewards Plane.moveObstacle 40 Plane.animate /\
  (forall v, speedUp v <= 2.5) /\
  (forall k s fs, k = cat \/ k = plane -> reachable k s ->
     speed (gameState (run k (map AnimationFrame fs) s)) <= 2.5).
Proof.
  split; [| split; [| split]].
  - split; [reflexivity |]. intros f s P.
    rewrite Cat_animate_playing by exact P.
    apply (frame_outcome_rewards Cat.moveObstacle 30 (-80) f); try easy.
    apply Cat_playing_outcome.
  - split; [reflexivity |]. intros f s P.
    rewrite Plane_animate_playing by exact P.
    apply (frame_outcome_rewards Plane.moveObstacle 40 (-100) f); try easy.
    apply Plane_playing_outcome.
  - exact speedUp_le_max.
  - intros k s fs K H.
    assert (D : Disciplined k)
      by (destruct K; subst k; [apply cat_disciplined | apply plane_disciplined]).
    apply (reachable_invariant k _ D), reachable_run_frames, H.
Qed.

Lemma started_reachable (k : Skin) : reachable k started.
Proof. apply (reachable_step k Click_startGame initial); [constructor | reflexivity]. Qed.

Lemma despawn_reward_and_speed_cap_witness :
  score (gameState (Cat.animate (three := fixedExtents) (frameAt 5000) twoAhead))
  = 50%Z /\
  speed (gameState (run (cat (three := fixedExtents))
                      (map AnimationFrame [frameAt 5000; frameAt 5016]) started))
  <= 2.5.
Proof.
  destruct (despawn_reward_and_speed_cap (three := fixedExtents))
    as ((_ & C) & _ & _ & R).
  split.
  - exact (proj1 (proj2 (C (frameAt 5000) twoAhead eq_refl))).
  - apply (R cat started [frameAt 5000; frameAt 5016]).
    + left; reflexivity.
    + apply started_reachable.
Defined.

(** ** The speed multiplier *)

Lemma speed_spec_of_discipline (k : Skin) : Disciplined k -> speed_spec k.
Proof.
  intro D. split.
  - intros s H. destruct (reachable_invariant k s D H) as ((L & U) & _).
    split; [exact L |]. split; [exact U |]. split; [lra |]. split.
    + apply Qlt_shift_div_l; unfold obstacleSpawnRate; lra.
    + apply Qle_shift_div_r; unfold obstacleSpawnRate; lra.
  - intros s es. now apply run_speed_monotone.
Qed.

(** C3: in every state the application can reach, under either skin, the
    speed lies in [1, 2.5]; it never decreases over events handled while
    the status is PLAYING; each write site keeps it at or above 1; so the
    divisor of [spawnDelay] is never zero and the delay lies in (0, 1200]. *)
Theorem speed_stays_between_1_and_2_5 {three : Three} :
  speed_spec cat /\ speed_spec plane /\ speed_write_sites.
Proof.
  split; [| split].
  - apply speed_spec_of_discipline, cat_disciplined.
  - apply speed_spec_of_discipline, plane_disciplined.
  - split; [reflexivity |]. split; [reflexivity |]. split.
    + intros amount g L. unfold GameStateService.incrementScore.
      destruct (GameStateService.isPlaying g); [| exact L].
      cbn [speed]. fold (speedUp (speed g)). unfold speedUp.
      destruct (Q.min_spec (speed g + 0.001) 2.5) as [[H E] | [H E]];
        rewrite E; lra.
    + intro g. split; reflexivity.
Qed.

Lemma speed_stays_between_1_and_2_5_witness :
  1 <= speed (gameState (step (cat (three := fixedExtents))
                           (AnimationFrame (frameAt 5000)) started)) /\
  speed (gameState started)
  <= speed (gameState
       (run (plane (three := fixedExtents))
          [AnimationFrame (frameAt 5000); KeyDown "ArrowLeft";
           AnimationFrame (frameAt 5016)] started)) /\
  1 <= speed (GameStateService.incrementScore 50
                (GameStateService.mk PLAYING 100 1.002)).
Proof.
  destruct (speed_stays_between_1_and_2_5 (three := fixedExtents))
    as ((CatB & _) & (_ & PlaneM) & (_ & _ & W & _)).
  split; [| split].
  - apply (CatB (step cat (AnimationFrame (frameAt 5000)) started)).
    apply reachable_step; [apply started_reachable | reflexivity].
  - apply (PlaneM started).
    + apply started_reachable.
    + vm_compute. repeat split.
  - apply W. vm_compute. discriminate.
Defined.

(** ** Entering PLAYING *)

Lemma Cat_playing_quiet {three : Three} f s :
  obstacles s = [] ->
  inject_Z (now f - lastObstacleTime s) <= obstacleSpawnRate / speed (gameState s) ->
  Cat.playing f s = Cat.updatePlayer deltaTime (now f) s.
Proof.
  intros O T. unfold Cat.playing. rewrite O. cbn [Cat.moveObstacles].
  replace (set_gameState (gameState s) (set_obstacles [] s)) with s
    by (destruct s; simpl in O; subst; reflexivity).
  rewrite (proj2 (Qgtb_le _ _) T).
  unfold Cat.checkCollisions.
  destruct (Cat_updatePlayer_frame deltaTime (now f) s) as (_ & -> & _).
  rewrite O. reflexivity.
Qed.

Lemma Plane_playing_quiet {three : Three} f s :
  obstacles s = [] ->
  inject_Z (now f - lastObstacleTime s) <= obstacleSpawnRate / speed (gameState s) ->
  Plane.playing f s = Plane.updatePlayer deltaTime (now f) s.
Proof.
  intros O T. unfold Plane.playing. rewrite O. cbn [Plane.moveObstacles].
  replace (set_gameState (gameState s) (set_obstacles [] s)) with s
    by (destruct s; simpl in O; subst; reflexivity).
  rewrite (proj2 (Qgtb_le _ _) T).
  unfold Plane.checkCollisions. cbv zeta.
  destruct (Plane_updatePlayer_frame deltaTime (now f) s) as (_ & -> & _).
  rewrite O. reflexivity.
Qed.

Lemma entering_not_playing f s :
  lastGameStatus s <> PLAYING ->
  entering f s = set_lastGameStatus PLAYING (resetScene (resetNow f) s).
Proof.
  intro N. unfold entering.
  now rewrite (proj2 (GameStatus_eqb_neq _ _) N).
Qed.

Lemma no_spawn_right_after_reset f s :
  (now f <= resetNow f)%Z -> speed (gameState s) = 1.0 ->
  let r := set_lastGameStatus PLAYING (resetScene (resetNow f) s) in
  inject_Z (now f - lastObstacleTime r) <= obstacleSpawnRate / speed (gameState r).
Proof.
  intros T V. cbn. rewrite V.
  apply Qle_trans with (inject_Z 0); [| vm_compute; discriminate].
  rewrite <- Zle_Qle. lia.
Qed.

(** C1: whatever led to it, on the first frame that reads PLAYING after a
    frame that did not, the reset runs before the obstacle move, the spawn
    check, the player update and the collision check, and it yields score 0,
    speed 1.0, an empty pool and lane 0, which the rest of that frame
    keeps.  Both skins. *)
Theorem reset_before_physics {three : Three} :
  reset_on_entry cat Cat.playing /\ reset_on_entry plane Plane.playing.
Proof.
  split; intros s f H P N r.
  - destruct (reachable_invariant cat s cat_disciplined H)
      as (_ & _ & _ & _ & _ & E).
    destruct (E P N) as (S0 & V0).
    assert (A : onFrame cat f s = Cat.playing f (set_lastGameStatus PLAYING r)).
    { simpl. rewrite Cat_animate_playing, entering_not_playing by assumption.
      reflexivity. }
    split; [exact A |]. split; [repeat split; assumption |].
    intro T. rewrite A. subst r.
    rewrite Cat_playing_quiet;
      [| reflexivity | now apply no_spawn_right_after_reset].
    destruct (Cat_updatePlayer_frame deltaTime (now f)
                (set_lastGameStatus PLAYING (resetScene (resetNow f) s)))
      as (G & O & L & _).
    unfold fresh_session. rewrite G, O, L. repeat split; assumption.
  - destruct (reachable_invariant plane s plane_disciplined H)
      as (_ & _ & _ & _ & _ & E).
    destruct (E P N) as (S0 & V0).
    assert (A : onFrame plane f s = Plane.playing f (set_lastGameStatus PLAYING r)).
    { simpl. rewrite Plane_animate_playing, entering_not_playing by assumption.
      reflexivity. }
    split; [exact A |]. split; [repeat split; assumption |].
    intro T. rewrite A. subst r.
    rewrite Plane_playing_quiet;
      [| reflexivity | now apply no_spawn_right_after_reset].
    destruct (Plane_updatePlayer_frame deltaTime (now f)
                (set_lastGameStatus PLAYING (resetScene (resetNow f) s)))
      as (G & O & L & _).
    unfold fresh_session. rewrite G, O, L. repeat split; assumption.
Qed.

Lemma reset_before_physics_witness :
  currentLane startedThenRight = 1%Z /\
  fresh_session (resetScene (resetNow (frameAt 1000)) startedThenRight) /\
  fresh_session
    (onFrame (cat (three := fixedExtents)) (frameAt 1000) startedThenRight).
Proof.
  split; [reflexivity |].
  destruct (proj1 (reset_before_physics (three := fixedExtents))
              startedThenRight (frameAt 1000)) as (_ & R & F).
  - unfold startedThenRight. apply reachable_step;
      [apply started_reachable | reflexivity].
  - reflexivity.
  - discriminate.
  - split; [exact R |]. apply F. simpl. lia.
Defined.

(** Outside the condition of C1: a click on the start button that arrives
    after the frame of the crash and before the next frame.  That frame
    finds [lastGameStatus] still PLAYING, does not reset, and the run starts
    on the pool of the run before: here it ends at once on the obstacle
    that ended the first run. *)
Example restart_between_frames :
  let afterCrash :=
    step (cat (three := fixedExtents)) (AnimationFrame (frameAt 9000)) onThePlayer in
  let restart := step (cat (three := fixedExtents)) Click_startGame afterCrash in
  let next :=
    step (cat (three := fixedExtents)) (AnimationFrame (frameAt 9016)) restart in
  status (gameState afterCrash) = GAME_OVER /\
  offered Click_startGame afterCrash = true /\
  status (gameState restart) = PLAYING /\
  lastGameStatus restart = PLAYING /\
  List.length (obstacles next) = 2%nat /\
  status (gameState next) = GAME_OVER.
Proof. vm_compute. repeat split. Qed.

(** ** The jump arc *)

Lemma Cat_JumpPhysics {three : Three} : JumpPhysics Cat.updatePlayer.
Proof.
  intros dt t s J. cbv zeta. unfold Cat.updatePlayer. cbn. rewrite J. cbn.
  destruct (Qle_bool (playerY s + jumpVelocity s) 0) eqn:E; cbn.
  - apply Qle_bool_iff in E. split; [repeat split | intro; lra].
  - split; [intro L; apply Qle_bool_iff in L; congruence |].
    repeat split; exact J.
Qed.

Lemma Plane_JumpPhysics {three : Three} : JumpPhysics Plane.updatePlayer.
Proof.
  intros dt t s J. cbv zeta. unfold Plane.updatePlayer. cbn. rewrite J. cbn.
  destruct (Qle_bool (playerY s + jumpVelocity s) 0) eqn:E; cbn.
  - apply Qle_bool_iff in E. split; [repeat split | intro; lra].
  - split; [intro L; apply Qle_bool_iff in L; congruence |].
    repeat split; exact J.
Qed.

Lemma Qnat_succ (m : nat) : Qnat (S m) == Qnat m + 1.
Proof.
  unfold Qnat. rewrite Nat2Z.inj_succ, <- Z.add_1_r, inject_Z_plus. reflexivity.
Qed.

Lemma arcHeight_succ (y0 : Q) (m : nat) :
  arcHeight y0 (S m) == arcHeight y0 m + arcVelocity m.
Proof.
  unfold arcHeight, arcVelocity, jumpForce, gravity.
  rewrite Qnat_succ. ring.
Qed.

Lemma arcVelocity_succ (m : nat) : arcVelocity (S m) == arcVelocity m + gravity.
Proof. unfold arcVelocity. rewrite Qnat_succ. ring. Qed.

Lemma Qnat_nonneg (m : nat) : 0 <= Qnat m.
Proof. unfold Qnat. change 0 with (inject_Z 0). rewrite <- Zle_Qle. lia. Qed.

Lemma Qnat_le (m n : nat) : (m <= n)%nat -> Qnat m <= Qnat n.
Proof. intro H. unfold Qnat. rewrite <- Zle_Qle. lia. Qed.

(** The least index at which a decidable property holds. *)
Lemma none_or_least_below (P : nat -> Prop) (N : nat) :
  (forall n, {P n} + {~ P n}) ->
  (forall j, (j < N)%nat -> ~ P j) \/
  (exists n, (n < N)%nat /\ P n /\ forall j, (j < n)%nat -> ~ P j).
Proof.
  intro dec. induction N as [| N [None | (n & L & Pn & Min)]].
  - left. intros j L. lia.
  - destruct (dec N) as [Y | No].
    + right. exists N. repeat split; [lia | exact Y | exact None].
    + left. intros j L. destruct (Nat.eq_dec j N) as [-> | Ne]; [exact No |].
      apply None. lia.
  - right. exists n. repeat split; [lia | exact Pn | exact Min].
Qed.

Lemma least_index (P : nat -> Prop) (N : nat) :
  (forall n, {P n} + {~ P n}) -> P N ->
  exists n, (n <= N)%nat /\ P n /\ forall j, (j < n)%nat -> ~ P j.
Proof.
  intros dec H.
  destruct (none_or_least_below P N dec) as [None | (n & L & Pn & Min)].
  - exists N. repeat split; [lia | exact H | exact None].
  - exists n. repeat split; [lia | exact Pn | exact Min].
Qed.

Section Arc.

Variable update : Q -> Z -> ThreeSceneComponent -> ThreeSceneComponent.
Hypothesis physics : JumpPhysics update.
Variable dt : Q.
Variable clock : nat -> Z.
Variable s0 : ThreeSceneComponent.
Hypothesis airborne : isJumping s0 = true.
Hypothesis launched : jumpVelocity s0 = jumpForce.

Let at_frame (m : nat) : ThreeSceneComponent := ticks update dt clock m s0.

Lemma arc_rising_or_falling (m : nat) :
  (forall j, (1 <= j <= m)%nat -> 0 < arcHeight (playerY s0) j) ->
  isJumping (at_frame m) = true /\
  jumpVelocity (at_frame m) == arcVelocity m /\
  playerY (at_frame m) == arcHeight (playerY s0) m.
Proof.
  induction m as [| m IH]; intro Above.
  - unfold at_frame; simpl. rewrite launched. split; [exact airborne |].
    unfold arcVelocity, arcHeight, Qnat; simpl. split; ring.
  - destruct IH as (J & V & Y); [intros j L; apply Above; lia |].
    assert (H : 0 < playerY (at_frame m) + jumpVelocity (at_frame m)).
    { rewrite V, Y, <- arcHeight_succ. apply Above. lia. }
    destruct (physics dt (clock m) (at_frame m) J) as (_ & Up).
    destruct (Up H) as (Y' & J' & V').
    unfold at_frame in *; simpl. rewrite Y', J', V'. split; [reflexivity |].
    rewrite V, Y, arcHeight_succ, arcVelocity_succ. split; reflexivity.
Qed.

Lemma arc_touchdown (m : nat) :
  (forall j, (1 <= j <= m)%nat -> 0 < arcHeight (playerY s0) j) ->
  arcHeight (playerY s0) (S m) <= 0 ->
  playerY (at_frame (S m)) = 0 /\ isJumping (at_frame (S m)) = false.
Proof.
  intros Above Down. destruct (arc_rising_or_falling m Above) as (J & V & Y).
  assert (H : playerY (at_frame m) + jumpVelocity (at_frame m) <= 0)
    by (rewrite V, Y, <- arcHeight_succ; exact Down).
  destruct (physics dt (clock m) (at_frame m) J) as (Land & _).
  destruct (Land H) as (Y' & J' & _). now split.
Qed.

Lemma arcHeight_at_bound :
  0 <= playerY s0 -> arcHeight (playerY s0) (landingBound (playerY s0)) <= 0.
Proof.
  intro G. unfold arcHeight, landingBound.
  set (c := Z.to_nat (Qceiling (100 * playerY s0))).
  assert (C : 100 * playerY s0 <= Qnat c).
  { apply Qle_trans with (inject_Z (Qceiling (100 * playerY s0)));
      [apply Qle_ceiling |].
    unfold Qnat, c. rewrite <- Zle_Qle. lia. }
  assert (E : Qnat (52 + c) == 52 + Qnat c).
  { unfold Qnat. rewrite Nat2Z.inj_add, inject_Z_plus. reflexivity. }
  rewrite E. pose proof (Qnat_nonneg c). nra.
Qed.

Lemma arc_lands :
  0 <= playerY s0 ->
  exists n,
    (1 <= n <= landingBound (playerY s0))%nat /\
    (playerY s0 <= 0.52 -> (n <= 52)%nat) /\
    playerY (at_frame n) = 0 /\ isJumping (at_frame n) = false /\
    forall m, (m <= n)%nat ->
      0 <= playerY (at_frame m) /\
      ((m < n)%nat -> isJumping (at_frame m) = true).
Proof.
  intro G.
  destruct (least_index (fun n => arcHeight (playerY s0) (S n) <= 0)
              (landingBound (playerY s0) - 1))
    as (n & L & Down & Min).
  - intro n. destruct (Qlt_le_dec 0 (arcHeight (playerY s0) (S n)));
      [right; lra | left; assumption].
  - replace (S (landingBound (playerY s0) - 1)) with (landingBound (playerY s0))
      by (unfold landingBound; lia).
    now apply arcHeight_at_bound.
  - assert (Above : forall j, (1 <= j <= n)%nat -> 0 < arcHeight (playerY s0) j).
    { intros [| j] Lj; [lia |].
      destruct (Qlt_le_dec 0 (arcHeight (playerY s0) (S j))) as [Pos | Neg];
        [exact Pos |]. exfalso. apply (Min j); [lia | exact Neg]. }
    destruct (arc_touchdown n Above Down) as (Y0 & J0).
    exists (S n). split; [unfold landingBound in *; lia |].
    split; [| split; [exact Y0 | split; [exact J0 |]]].
    + intro Low.
      destruct (le_lt_dec n 51) as [Le | Gt]; [lia |]. exfalso.
      apply (Min 51%nat Gt). unfold arcHeight.
      assert (E52 : Qnat 52 == 52) by reflexivity. rewrite E52. lra.
    + intros m Lm. destruct (Nat.eq_dec m (S n)) as [-> | Ne].
      * split; [rewrite Y0; lra | lia].
      * destruct (arc_rising_or_falling m) as (J & _ & Y);
          [intros j Lj; apply Above; lia |].
        split; [| intros _; exact J].
        rewrite Y. destruct m as [| m].
        { unfold arcHeight. assert (E0 : Qnat 0 == 0) by reflexivity.
          rewrite E0. lra. }
        apply Qlt_le_weak, Above. lia.
Qed.

(** From height 0 the player is still airborne after 50 frames and lands
    on the 51st. *)
Lemma arc_from_ground :
  playerY s0 == 0 ->
  isJumping (at_frame 50) = true /\
  playerY (at_frame 51) = 0 /\ isJumping (at_frame 51) = false.
Proof.
  intro G.
  assert (Above : forall j, (1 <= j <= 50)%nat -> 0 < arcHeight (playerY s0) j).
  { intros j [L U]. unfold arcHeight. rewrite G.
    pose proof (Qnat_le 1 j L) as L'. pose proof (Qnat_le j 50 U) as U'.
    assert (E1 : Qnat 1 == 1) by reflexivity.
    assert (E50 : Qnat 50 == 50) by reflexivity.
    rewrite E1 in L'. rewrite E50 in U'. nra. }
  split; [apply (arc_rising_or_falling 50 Above) |].
  apply (arc_touchdown 50 Above). unfold arcHeight. rewrite G.
  assert (E51 : Qnat 51 == 51) by reflexivity. rewrite E51. lra.
Qed.

End Arc.

(** C6: with the source's [gravity] and [jumpForce], from any grounded
    component at height [y0 >= 0], one jump and then player updates with
    any fixed [deltaTime] bring the player back to height 0 and grounded
    after at least one and at most [landingBound y0] frames (at most 52 from
    the run bob's heights); the height is never negative on the way and the
    player is airborne until then.  Both skins. *)
Theorem jump_arc_returns_to_ground {three : Three}
    (dt : Q) (clock : nat -> Z) (s : ThreeSceneComponent) :
  isJumping s = false -> 0 <= playerY s ->
  forall update, update = Cat.updatePlayer \/ update = Plane.updatePlayer ->
  exists n,
    (1 <= n <= landingBound (playerY s))%nat /\
    (playerY s <= 0.52 -> (n <= 52)%nat) /\
    playerY (ticks update dt clock n (jump s)) = 0 /\
    isJumping (ticks update dt clock n (jump s)) = false /\
    forall m, (m <= n)%nat ->
      0 <= playerY (ticks update dt clock m (jump s)) /\
      ((m < n)%nat -> isJumping (ticks update dt clock m (jump s)) = true).
Proof.
  intros J G update U.
  assert (P : JumpPhysics update)
    by (destruct U; subst update; [apply Cat_JumpPhysics | apply Plane_JumpPhysics]).
  assert (E : playerY (jump s) = playerY s) by (unfold jump; rewrite J; reflexivity).
  rewrite <- E in *.
  apply (arc_lands update P dt clock (jump s)).
  - unfold jump; rewrite J; reflexivity.
  - unfold jump; rewrite J; reflexivity.
  - exact G.
Qed.

Lemma jump_arc_returns_to_ground_witness :
  exists n,
    (1 <= n <= landingBound (playerY started))%nat /\
    (playerY started <= 0.52 -> (n <= 52)%nat) /\
    playerY (ticks (Cat.updatePlayer (three := fixedExtents)) deltaTime
               (fun i => 5000 + 16 * Z.of_nat i)%Z n (jump started)) = 0 /\
    isJumping (ticks (Cat.updatePlayer (three := fixedExtents)) deltaTime
                 (fun i => 5000 + 16 * Z.of_nat i)%Z n (jump started)) = false /\
    forall m, (m <= n)%nat ->
      0 <= playerY (ticks (Cat.updatePlayer (three := fixedExtents)) deltaTime
                      (fun i => 5000 + 16 * Z.of_nat i)%Z m (jump started)) /\
      ((m < n)%nat ->
       isJumping (ticks (Cat.updatePlayer (three := fixedExtents)) deltaTime
                    (fun i => 5000 + 16 * Z.of_nat i)%Z m (jump started)) = true).
Proof.
  apply (jump_arc_returns_to_ground (three := fixedExtents) deltaTime
           (fun i => 5000 + 16 * Z.of_nat i)%Z started).
  - reflexivity.
  - simpl. lra.
  - left; reflexivity.
Defined.

(** ** The crash *)

(** C7 as stated fails in both skins: [handleCrash] puts the player group
    in its crash pose.  In the cat skin the player on the ground at height 0
    ends at height 0.2, pitched by -PI/2. *)
Lemma crash_moves_the_player :
  ~ crash_leaves_transforms (Cat.checkCollisions (three := fixedExtents))
      (fun s => Cat.firstCollision (three := fixedExtents) (player s) (obstacles s))
  /\
  ~ crash_leaves_transforms (Plane.checkCollisions (three := fixedExtents))
      (fun s => Plane.firstCollision (three := fixedExtents)
                  (Plane.shrunkPlayerBox (three := fixedExtents) (player s))
                  (obstacles s)) /\
  y (position (player onThePlayer)) = 0 /\
  y (position (player (Cat.checkCollisions (three := fixedExtents) onThePlayer)))
  = 0.2 /\
  x (rotation (player (Cat.checkCollisions (three := fixedExtents) onThePlayer)))
  = - Math_PI / 2 /\
  y (position (player (Plane.checkCollisions (three := fixedExtents) onThePlayer)))
  = 0.5.
Proof.
  split; [| split; [| repeat split]];
    intro H; destruct (H onThePlayer) as (_ & P & _);
    try (vm_compute; discriminate);
    vm_compute in P; discriminate.
Qed.

(** C7, amended: on a hit the status becomes GAME_OVER with score and speed
    kept; the pool, the player's lateral and depth position and scale, and
    every other field of the component are left as they were; the player
    group gets its crash pose: height 0.2 and pitch -PI/2 in the cat skin,
    height 0.5, pitch -PI/4 and roll PI/4 in the plane skin. *)
Theorem crash_ends_game_and_poses_player {three : Three} :
  crash_poses_player Cat.checkCollisions
    (fun s => Cat.firstCollision (player s) (obstacles s)) Cat_crashPose /\
  crash_poses_player Plane.checkCollisions
    (fun s => Plane.firstCollision (Plane.shrunkPlayerBox (player s))
                (obstacles s)) Plane_crashPose.
Proof.
  split; intros s H.
  - unfold Cat.checkCollisions.
    destruct (Cat.firstCollision (player s) (obstacles s)); [| contradiction].
    reflexivity.
  - unfold Plane.checkCollisions. cbv zeta.
    destruct (Plane.firstCollision _ (obstacles s)); [| contradiction].
    reflexivity.
Qed.

Lemma crash_ends_game_and_poses_player_witness :
  Cat.checkCollisions (three := fixedExtents) onThePlayer
  = set_player (Cat_crashPose (player onThePlayer))
      (set_gameState
         (GameStateService.mk GAME_OVER (score (gameState onThePlayer))
            (speed (gameState onThePlayer))) onThePlayer).
Proof.
  apply (proj1 (crash_ends_game_and_poses_player (three := fixedExtents))).
  vm_compute. discriminate.
Defined.

(** ** Collision detection *)

Lemma intersectsBox_overlap (a b : Box3) :
  intersectsBox a b = true <-> overlap a b.
Proof.
  unfold intersectsBox, overlap.
  rewrite !andb_true_iff, !Qle_bool_iff. tauto.
Qed.

Lemma find_firstIn {A : Type} (p : A -> bool) (l : list A) :
  firstIn p l (find p l).
Proof.
  induction l as [| a l IH]; simpl; [constructor |].
  destruct (p a) eqn:E.
  - exists [], l. repeat split; [exact E | constructor].
  - destruct (find p l) as [b |]; simpl in *.
    + destruct IH as (before & after & -> & Pb & Fb).
      exists (a :: before), after. repeat split; [exact Pb |].
      now constructor.
    + now constructor.
Qed.

Lemma find_at_firstTrue {A : Type} (p : A -> bool) (l : list A) :
  find p l
  = match firstTrue (map p l) with
    | Some i => nth_error l i
    | None => None
    end.
Proof.
  induction l as [| a l IH]; simpl; [reflexivity |].
  destruct (p a); [reflexivity |]. rewrite IH.
  destruct (firstTrue (map p l)); reflexivity.
Qed.

Lemma Plane_firstCollision_find {three : Three} player obs :
  Plane.firstCollision (Plane.shrunkPlayerBox player) obs
  = find (Plane_hits player) obs.
Proof.
  induction obs as [| o obs IH]; [reflexivity |].
  cbn [Plane.firstCollision find]. rewrite IH. reflexivity.
Qed.

Lemma Cat_firstCollision_find {three : Three} player obs :
  Cat.firstCollision player obs = find (Cat_hits player) obs.
Proof.
  induction obs as [| o obs IH]; [reflexivity |].
  cbn [Cat.firstCollision find]. rewrite IH.
  unfold Cat_hits, Cat_near, shrinkXZ.
  destruct (Qltb (Qabs (z (position (group o)) - z (position player))) 1.5);
    [| reflexivity].
  destruct (Qltb (Qabs (x (position (group o)) - x (position player))) 1.0);
    reflexivity.
Qed.

(** C8 as stated fails in the cat skin.  The player's box is not shrunk on
    the vertical axis: the cat right above an obstacle is reported to
    collide, which no vertical margin allows.  And overlap on all three axes
    is not enough: boxes that overlap after shrinking are not reported when
    the groups are 1.0 or more apart sideways. *)
Lemma cat_scan_is_not_as_claimed :
  ~ scans_shrunk_boxes (three := fixedExtents)
      (Cat.firstCollision (three := fixedExtents)) /\
  (overlap (shrinkXZ 0.4 0.4 (setFromObject (Three := fixedExtents) beside))
           (shrinkXZ 0.2 0.2 (setFromObstacle (Three := fixedExtents) atOrigin)) /\
   Cat.firstCollision (three := fixedExtents) beside [atOrigin] = None).
Proof.
  split.
  - intros (mx & my & mz & ox & oz & (_ & My & _) & _ & H).
    specialize (H above [atOrigin]).
    change (Cat.firstCollision (three := fixedExtents) above [atOrigin])
      with (Some atOrigin) in H.
    destruct H as (_ & _ & _ & Hit & _).
    apply intersectsBox_overlap in Hit.
    destruct Hit as (_ & (Y & _) & _). simpl in Y. lra.
  - split; [| reflexivity].
    unfold overlap; simpl. lra.
Qed.

Lemma Plane_hits_overlap {three : Three} player obs :
  Plane_hits player obs = true <->
  overlap (shrink 0.3 0.2 0.2 (setFromObject player))
          (shrinkXZ 0.2 0.2 (setFromObstacle obs)).
Proof. apply intersectsBox_overlap. Qed.

Lemma Cat_hits_overlap {three : Three} player obs :
  Cat_hits player obs = true <->
  Qabs (z (position (group obs)) - z (position player)) < 1.5 /\
  Qabs (x (position (group obs)) - x (position player)) < 1.0 /\
  overlap (shrinkXZ 0.4 0.4 (setFromObject player))
          (shrinkXZ 0.2 0.2 (setFromObstacle obs)).
Proof.
  unfold Cat_hits, Cat_near.
  rewrite !andb_true_iff, !Qltb_lt, intersectsBox_overlap. tauto.
Qed.

(** C8, amended.  The plane skin is as C8 says, with these margins: the
    player's box is shrunk by 0.3, 0.2 and 0.2 on the lateral, vertical and
    depth axes, an obstacle's box by 0.2 on the lateral and depth axes, and
    the scan returns the first obstacle in pool order whose shrunk box
    overlaps the player's on all three axes.  The cat skin shrinks the
    player's box by 0.4 on the lateral and depth axes only and an obstacle's
    by 0.2 on the same two, and returns the first obstacle in pool order
    whose group is less than 1.5 from the player's in depth and less than 1.0
    sideways and whose shrunk box overlaps the player's on all three axes. *)
Theorem collision_scan_of_each_skin {three : Three} :
  (forall a b, intersectsBox a b = true <-> overlap a b) /\
  ((forall player,
      Plane.shrunkPlayerBox player = shrink 0.3 0.2 0.2 (setFromObject player)) /\
   (forall player obs,
      firstIn (fun o => intersectsBox (shrink 0.3 0.2 0.2 (setFromObject player))
                          (shrinkXZ 0.2 0.2 (setFromObstacle o)))
        obs (Plane.firstCollision (Plane.shrunkPlayerBox player) obs)) /\
   (forall player o,
      Plane_hits player o = true <->
      overlap (shrink 0.3 0.2 0.2 (setFromObject player))
              (shrinkXZ 0.2 0.2 (setFromObstacle o))) /\
   scans_shrunk_boxes
     (fun player obs => Plane.firstCollision (Plane.shrunkPlayerBox player) obs)) /\
  (forall player obs,
     firstIn (Cat_hits player) obs (Cat.firstCollision player obs)) /\
  (forall player o,
     Cat_hits player o = true <->
     Qabs (z (position (group o)) - z (position player)) < 1.5 /\
     Qabs (x (position (group o)) - x (position player)) < 1.0 /\
     overlap (shrinkXZ 0.4 0.4 (setFromObject player))
             (shrinkXZ 0.2 0.2 (setFromObstacle o))).
Proof.
  assert (Scan : forall player obs,
             firstIn (Plane_hits player) obs
               (Plane.firstCollision (Plane.shrunkPlayerBox player) obs)).
  { intros player obs. rewrite Plane_firstCollision_find. apply find_firstIn. }
  split; [exact intersectsBox_overlap |]. split; [| split].
  - split; [reflexivity |]. split; [exact Scan |].
    split; [exact Plane_hits_overlap |].
    exists 0.3, 0.2, 0.2, 0.2, 0.2.
    split; [repeat split; lra |]. split; [split; lra |]. exact Scan.
  - intros player obs. rewrite Cat_firstCollision_find. apply find_firstIn.
  - exact Cat_hits_overlap.
Qed.

Lemma collision_scan_of_each_skin_witness :
  (firstIn (Cat_hits (three := fixedExtents) newGroup) [atOrigin; nearMiss]
     (Cat.firstCollision (three := fixedExtents) newGroup [atOrigin; nearMiss]) /\
   Cat_hits (three := fixedExtents) newGroup nearMiss = true) /\
  Plane_hits (three := fixedExtents) newGroup nearMiss = true.
Proof.
  destruct (collision_scan_of_each_skin (three := fixedExtents))
    as (_ & (_ & _ & PlaneTest & _) & First & Test).
  split; [split |].
  - apply First.
  - apply (Test newGroup nearMiss).
    split; [vm_compute; reflexivity |]. split; [vm_compute; reflexivity |].
    unfold overlap; simpl. lra.
  - apply (PlaneTest newGroup nearMiss).
    unfold overlap; simpl. lra.
Defined.

(** ** Determinism of the collision check *)

Lemma map_Forall2 {A B : Type} (R : A -> A -> Prop) (f g : A -> B) l1 l2 :
  Forall2 R l1 l2 -> (forall a b, R a b -> f a = g b) -> map f l1 = map g l2.
Proof.
  intros H E. induction H as [| a b l1 l2 Rab _ IH]; simpl; [reflexivity |].
  now rewrite (E a b Rab), IH.
Qed.

Lemma firstTrue_in_range (tests : list bool) (i : nat) :
  firstTrue tests = Some i -> (i < List.length tests)%nat.
Proof.
  revert i. induction tests as [| [|] tests IH]; intros i H; simpl in *.
  - discriminate.
  - injection H as <-. lia.
  - destruct (firstTrue tests) as [j |]; [| discriminate].
    injection H as <-. specialize (IH j eq_refl). lia.
Qed.

Lemma find_same_outcome (p1 p2 : Obstacle -> bool) (obs1 obs2 : list Obstacle) :
  map p1 obs1 = map p2 obs2 ->
  same_outcome obs1 obs2 (find p1 obs1) (find p2 obs2).
Proof.
  intro E. exists (firstTrue (map p1 obs1)).
  rewrite (find_at_firstTrue p1), (find_at_firstTrue p2), <- E.
  split; [reflexivity |]. split; [reflexivity |].
  destruct (firstTrue (map p1 obs1)) as [i |] eqn:F; [| tauto].
  apply firstTrue_in_range in F.
  assert (L1 : (i < List.length obs1)%nat) by now rewrite length_map in F.
  assert (L2 : (i < List.length obs2)%nat).
  { rewrite E, length_map in F. exact F. }
  apply nth_error_Some in L1, L2. tauto.
Qed.

(** C9, amended: the collision check is deterministic.  Two runs given the
    same player box and the same obstacle boxes in pool order agree on
    whether there is a collision and on which obstacle of the pool it is
    with, whatever else differs between the two components; in the cat
    skin, whose distance pre-check reads where the groups are, provided the
    player groups and the obstacle groups are also at the same lateral and
    depth positions.  Each run is the scan for the first obstacle passing
    the skin's test on the shrunk boxes. *)
Theorem collision_check_is_deterministic
    (run1 run2 : Three) (p1 p2 : Object3D) (obs1 obs2 : list Obstacle) :
  setFromObject (Three := run1) p1 = setFromObject (Three := run2) p2 ->
  Forall2 (same_boxes run1 run2) obs1 obs2 ->
  (same_outcome obs1 obs2
     (Plane.firstCollision (three := run1)
        (Plane.shrunkPlayerBox (three := run1) p1) obs1)
     (Plane.firstCollision (three := run2)
        (Plane.shrunkPlayerBox (three := run2) p2) obs2) /\
   Plane.firstCollision (three := run1)
     (Plane.shrunkPlayerBox (three := run1) p1) obs1
   = find (Plane_hits (three := run1) p1) obs1) /\
  (same_place p1 p2 ->
   Forall2 (fun o1 o2 => same_place (group o1) (group o2)) obs1 obs2 ->
   same_outcome obs1 obs2
     (Cat.firstCollision (three := run1) p1 obs1)
     (Cat.firstCollision (three := run2) p2 obs2) /\
   Cat.firstCollision (three := run1) p1 obs1
   = find (Cat_hits (three := run1) p1) obs1).
Proof.
  intros P B. split.
  - split; [| apply Plane_firstCollision_find].
    rewrite !Plane_firstCollision_find. apply find_same_outcome.
    apply (map_Forall2 (same_boxes run1 run2)); [exact B |].
    intros a b E. unfold Plane_hits. now rewrite P, E.
  - intros (Px & Pz) G. split; [| apply Cat_firstCollision_find].
    rewrite !Cat_firstCollision_find. apply find_same_outcome.
    assert (BG : Forall2 (fun o1 o2 => same_boxes run1 run2 o1 o2 /\
                                       same_place (group o1) (group o2))
                   obs1 obs2).
    { clear P. induction B as [| a b l1 l2 E _ IH]; [constructor |].
      inversion G; subst. constructor; [split; assumption | now apply IH]. }
    apply (map_Forall2 _ _ _ _ _ BG).
    intros a b (E & Gx & Gz). unfold Cat_hits, Cat_near.
    now rewrite P, E, Px, Pz, Gx, Gz.
Qed.

Lemma collision_check_is_deterministic_witness :
  same_outcome [atOrigin; nearMiss]
    [set_child0_rotation (vec3 0.02 0.01 0) atOrigin; set_group (group nearMiss) atOrigin]
    (Cat.firstCollision (three := fixedExtents) newGroup [atOrigin; nearMiss])
    (Cat.firstCollision (three := fixedExtents)
       (set_rotation (vec3 0 0 0.2) newGroup)
       [set_child0_rotation (vec3 0.02 0.01 0) atOrigin;
        set_group (group nearMiss) atOrigin]) /\
  Cat.firstCollision (three := fixedExtents) newGroup [atOrigin; nearMiss]
  = find (Cat_hits (three := fixedExtents) newGroup) [atOrigin; nearMiss].
Proof.
  apply (collision_check_is_deterministic fixedExtents fixedExtents
           newGroup (set_rotation (vec3 0 0 0.2) newGroup)
           [atOrigin; nearMiss]
           [set_child0_rotation (vec3 0.02 0.01 0) atOrigin;
            set_group (group nearMiss) atOrigin]).
  - reflexivity.
  - repeat constructor.
  - split; reflexivity.
  - repeat constructor.
Defined.

(** C9 as stated fails in the cat skin: the two cats have the same box and
    face the same obstacle box, and only the one within 1.0 sideways of the
    obstacle's group collides. *)
Lemma cat_check_reads_more_than_boxes :
  setFromObject (Three := leaning) leaningLeft
  = setFromObject (Three := leaning) leaningRight /\
  Forall2 (same_boxes leaning leaning) [atOrigin] [atOrigin] /\
  Cat.firstCollision (three := leaning) leaningLeft [atOrigin] = None /\
  Cat.firstCollision (three := leaning) leaningRight [atOrigin] = Some atOrigin /\
  ~ same_outcome [atOrigin] [atOrigin]
      (Cat.firstCollision (three := leaning) leaningLeft [atOrigin])
      (Cat.firstCollision (three := leaning) leaningRight [atOrigin]).
Proof.
  split; [reflexivity |]. split; [repeat constructor |].
  split; [reflexivity |]. split; [reflexivity |].
  intros (i & _ & _ & Same).
  change (Cat.firstCollision (three := leaning) leaningLeft [atOrigin])
    with (@None Obstacle) in Same.
  change (Cat.firstCollision (three := leaning) leaningRight [atOrigin])
    with (Some atOrigin) in Same.
  destruct Same as (S1 & _). discriminate (S1 eq_refl).
Qed.

(** ** Binary64 cross-checks *)

Lemma iter_shift {A : Type} (f : A -> A) (n : nat) (a : A) :
  Nat.iter n f (f a) = f (Nat.iter n f a).
Proof. induction n as [| n IH]; simpl; congruence. Qed.

Lemma ramp_sound (n : nat) (s : PrimFloat.float) :
  Binary64.ramp n s = true ->
  forall m, (m <= n)%nat ->
    Binary64.inRange (Nat.iter m Binary64.speedUp s) = true.
Proof.
  revert s. induction n as [| n IH]; intros s H m L; simpl in H;
    apply andb_true_iff in H; destruct H as [H0 H1].
  - replace m with O by lia. exact H0.
  - destruct m as [| m]; [exact H0 |].
    simpl. rewrite <- iter_shift. apply IH; [exact H1 | lia].
Qed.

Lemma ramp_reaches_cap :
  Nat.iter 1501 Binary64.speedUp Binary64.initialSpeed = Binary64.maxSpeed /\
  Binary64.speedUp Binary64.maxSpeed = Binary64.maxSpeed.
Proof. split; vm_compute; reflexivity. Qed.

Lemma cap_is_fixed (n : nat) :
  Nat.iter n Binary64.speedUp Binary64.maxSpeed = Binary64.maxSpeed.
Proof.
  induction n as [| n IH]; simpl; [reflexivity |].
  rewrite IH. apply ramp_reaches_cap.
Qed.

(** In binary64 too, every speed the session can hold, [n] rewards after
    [startGame], lies in [1, 2.5] and is not decreased by the next reward;
    the cap is reached with the 1501st reward. *)
Lemma binary64_speed_in_range (n : nat) :
  Binary64.inRange (Nat.iter n Binary64.speedUp Binary64.initialSpeed) = true.
Proof.
  destruct (le_lt_dec n 1501) as [L | L].
  - apply (ramp_sound 1501); [vm_compute; reflexivity | exact L].
  - replace n with ((n - 1501) + 1501)%nat by lia.
    rewrite Nat.iter_add, (proj1 ramp_reaches_cap), cap_is_fixed.
    vm_compute; reflexivity.
Qed.

(** In binary64 a jump from the ground lands on frame 51, as in exact
    arithmetic, and one from the top of the run bob (0.1 in the cat skin,
    0.2 in the plane skin) on frame 52; no height on the way is negative. *)
Lemma binary64_arc_lands :
  List.length (Binary64.arc 100 Binary64.zero Binary64.jumpForce) = 51%nat /\
  List.length (Binary64.arc 100 Binary64.catBob Binary64.jumpForce) = 52%nat /\
  List.length (Binary64.arc 100 Binary64.planeBob Binary64.jumpForce) = 52%nat /\
  forallb (PrimFloat.leb Binary64.zero)
    (Binary64.arc 100 Binary64.zero Binary64.jumpForce
     ++ Binary64.arc 100 Binary64.catBob Binary64.jumpForce
     ++ Binary64.arc 100 Binary64.planeBob Binary64.jumpForce) = true.
Proof. repeat split; vm_compute; reflexivity. Qed.

(** * Further properties *)

(** ** The session's state machine *)

Lemma status_effect_of_discipline (k : Skin) (e : Event) (s : ThreeSceneComponent) :
  Disciplined k -> offered e s = true -> status_effect k e s.
Proof.
  intros D O. unfold status_effect. destruct e as [| | key | f]; simpl in *.
  - split; [| reflexivity]. intro P.
    unfold GameStateService.isMenu, GameStateService.isGameOver in O.
    rewrite P in O. discriminate.
  - split; [| reflexivity]. now apply GameStatus_eqb_eq.
  - now destruct (keydown_session k D key s) as (-> & _).
  - destruct (GameStatus_eqb (status (gameState s)) PLAYING) eqn:P.
    + apply GameStatus_eqb_eq in P.
      destruct (frame_playing k D f s P) as [n G]. cbv zeta in G.
      rewrite iter_incrementScore in G by exact P.
      destruct G as [-> | ->]; cbn; rewrite P; [now left | now right].
    + apply GameStatus_eqb_neq in P. left. now rewrite (frame_idle k D f s P).
Qed.

(** X1: the status only moves along Menu -> Playing -> GameOver -> Playing
    and GameOver -> Menu.  A click on start leads to PLAYING and is only
    offered outside PLAYING, a click on reset leads from GAME_OVER to MENU,
    a key press never changes the status, and a frame changes it only from
    PLAYING to GAME_OVER.  Both skins. *)
Theorem status_follows_the_state_machine {three : Three}
    (k : Skin) (e : Event) (s : ThreeSceneComponent) :
  k = cat \/ k = plane -> offered e s = true ->
  status_effect k e s /\
  (status (gameState (step k e s)) = status (gameState s) \/
   isTransition (status (gameState s)) (status (gameState (step k e s))) = true).
Proof.
  intros K O.
  assert (D : Disciplined k)
    by (destruct K; subst k; [apply cat_disciplined | apply plane_disciplined]).
  pose proof (status_effect_of_discipline k e s D O) as E.
  split; [exact E |]. unfold status_effect in E. cbv zeta in E.
  destruct e as [| | key | f].
  - destruct E as (A & ->). right.
    destruct (status (gameState s)); [reflexivity | contradiction | reflexivity].
  - destruct E as (-> & ->). now right.
  - now left.
  - destruct E as [-> | (-> & ->)]; [now left | now right].
Qed.

Lemma status_follows_the_state_machine_witness :
  status_effect (cat (three := fixedExtents)) (AnimationFrame (frameAt 9000))
    onThePlayer /\
  (status (gameState (step (cat (three := fixedExtents))
                        (AnimationFrame (frameAt 9000)) onThePlayer))
   = status (gameState onThePlayer) \/
   isTransition (status (gameState onThePlayer))
     (status (gameState (step (cat (three := fixedExtents))
                           (AnimationFrame (frameAt 9000)) onThePlayer)))
   = true).
Proof.
  apply (status_follows_the_state_machine (three := fixedExtents)
           cat (AnimationFrame (frameAt 9000)) onThePlayer).
  - left; reflexivity.
  - reflexivity.
Defined.

(** ** Score and speed go together *)

Lemma speedForScore_rewards (n : nat) :
  speedForScore (50 * Z.of_nat n) = Nat.iter n speedUp 1.0.
Proof.
  unfold speedForScore.
  replace (50 * Z.of_nat n / 50)%Z with (Z.of_nat n)
    by (rewrite Z.mul_comm, Z.div_mul; lia).
  now rewrite Nat2Z.id.
Qed.

Lemma step_rewards_counted (k : Skin) (e : Event) (s : ThreeSceneComponent) :
  Disciplined k -> rewards_counted (gameState s) ->
  rewards_counted (gameState (step k e s)).
Proof.
  intros D (n & Sc & Sp). destruct e as [| | key | f]; simpl.
  - exists O. split; reflexivity.
  - exists O. split; [reflexivity |]. cbn. intro N. now elim N.
  - destruct (keydown_session k D key s) as (-> & _). now exists n.
  - destruct (GameStatus_eqb (status (gameState s)) PLAYING) eqn:P.
    + apply GameStatus_eqb_eq in P.
      destruct (frame_playing k D f s P) as [m G].
      destruct (rewards_then_maybe_crash_eq m _ _ P G) as (V & W).
      exists (m + n)%nat. split.
      * rewrite W, Sc. lia.
      * intros _. rewrite V, Sp, Nat.iter_add; [reflexivity |].
        rewrite P. discriminate.
    + apply GameStatus_eqb_neq in P. rewrite (frame_idle k D f s P).
      now exists n.
Qed.

Lemma reachable_rewards_counted (k : Skin) (s : ThreeSceneComponent) :
  Disciplined k -> reachable k s -> rewards_counted (gameState s).
Proof.
  intros D H. induction H as [| e s H IH _].
  - exists O. split; [reflexivity |]. cbn. intro N. now elim N.
  - now apply step_rewards_counted.
Qed.

Lemma score_and_speed_of_discipline (k : Skin) :
  Disciplined k -> score_and_speed k.
Proof.
  intro D.
  assert (One : forall s, reachable k s ->
            (exists n, score (gameState s) = (50 * Z.of_nat n)%Z) /\
            (status (gameState s) <> MENU ->
             speed (gameState s) = speedForScore (score (gameState s)))).
  { intros s H. destruct (reachable_rewards_counted k s D H) as (n & Sc & Sp).
    split; [now exists n |]. intro N.
    now rewrite (Sp N), Sc, speedForScore_rewards. }
  split; [exact One |].
  intros s1 s2 H1 H2 N1 N2 E.
  rewrite (proj2 (One s1 H1) N1), (proj2 (One s2 H2) N2), E. reflexivity.
Qed.

(** X2: in every state the application can reach the score is a multiple
    of 50, and outside MENU the speed is the one [incrementScore] reaches
    from 1.0 in [score / 50] rewards, [s => Math.min(s + 0.001, 2.5)]
    applied that many times: the speed is a function of the score, and two
    states with the same score have the same speed.  (In MENU after
    [resetGame] the score is 0 again while the speed is still that of the
    last run.)  Both skins. *)
Theorem speed_is_a_function_of_score {three : Three} :
  score_and_speed cat /\ score_and_speed plane.
Proof.
  split; apply score_and_speed_of_discipline;
    [apply cat_disciplined | apply plane_disciplined].
Qed.

Lemma speed_is_a_function_of_score_witness :
  ((exists n, score (gameState (step (cat (three := fixedExtents))
                                  (AnimationFrame (frameAt 5000)) afterOneFrame))
              = (50 * Z.of_nat n)%Z) /\
   (status (gameState (step (cat (three := fixedExtents))
                         (AnimationFrame (frameAt 5000)) afterOneFrame)) <> MENU ->
    speed (gameState (step (cat (three := fixedExtents))
                        (AnimationFrame (frameAt 5000)) afterOneFrame))
    = speedForScore
        (score (gameState (step (cat (three := fixedExtents))
                             (AnimationFrame (frameAt 5000)) afterOneFrame))))) /\
  speed (gameState started) = speed (gameState afterOneFrame).
Proof.
  assert (R : reachable (cat (three := fixedExtents)) afterOneFrame).
  { unfold afterOneFrame.
    apply reachable_step; [apply started_reachable | reflexivity]. }
  split.
  - apply (proj1 (proj1 (speed_is_a_function_of_score (three := fixedExtents)))).
    apply reachable_step; [exact R | reflexivity].
  - apply (proj2 (proj1 (speed_is_a_function_of_score (three := fixedExtents)))
             started afterOneFrame).
    + apply started_reachable.
    + exact R.
    + vm_compute. discriminate.
    + vm_compute. discriminate.
    + vm_compute. reflexivity.
Defined.

(** ** The pool through a frame *)

Lemma Cat_playing_steps {three : Three} f s :
  status (gameState s) = PLAYING ->
  Cat.playing f s
  = Cat.checkCollisions
      (Cat.updatePlayer deltaTime (now f)
         (afterPool Cat.moveObstacle 30 Cat_spawned f s)).
Proof.
  intro P. unfold Cat.playing, afterPool. rewrite Cat_moveObstacles_eq. cbv zeta.
  unfold spawnDue. cbn [gameState set_gameState set_obstacles lastObstacleTime].
  destruct (Qgtb _ _); [| reflexivity].
  unfold Cat.spawnObstacle. cbn [gameState set_gameState set_obstacles].
  rewrite iter_incrementScore by exact P.
  reflexivity.
Qed.

Lemma Plane_playing_steps {three : Three} f s :
  status (gameState s) = PLAYING ->
  Plane.playing f s
  = Plane.checkCollisions
      (Plane.updatePlayer deltaTime (now f)
         (afterPool Plane.moveObstacle 40 Plane_spawned f s)).
Proof.
  intro P. unfold Plane.playing, afterPool. rewrite Plane_moveObstacles_eq. cbv zeta.
  unfold spawnDue. cbn [gameState set_gameState set_obstacles lastObstacleTime].
  destruct (Qgtb _ _); [| reflexivity].
  unfold Plane.spawnObstacle. cbn [gameState set_gameState set_obstacles].
  rewrite iter_incrementScore by exact P.
  reflexivity.
Qed.

Lemma afterPool_fields move baseSpeed spawned f s :
  let u := afterPool move baseSpeed spawned f s in
  player u = player s /\ targetX u = targetX s /\
  currentLane u = currentLane s /\ lastGameStatus u = lastGameStatus s /\
  isJumping u = isJumping s /\ playerY u = playerY s /\
  jumpVelocity u = jumpVelocity s.
Proof.
  cbv zeta. unfold afterPool. cbv zeta. destruct (spawnDue _ _ _); repeat split.
Qed.

Lemma afterPool_pool move baseSpeed spawned f s :
  let frameMove := baseSpeed * speed (gameState s) * deltaTime in
  let moved := map (move frameMove) (obstacles s) in
  let g := Nat.iter (List.length (filter passed moved))
             (GameStateService.incrementScore 50) (gameState s) in
  let u := afterPool move baseSpeed spawned f s in
  gameState u = g /\
  obstacles u
  = filter (fun o => negb (passed o)) moved
    ++ (if spawnDue f s g then [spawned f] else []) /\
  lastObstacleTime u = (if spawnDue f s g then now f else lastObstacleTime s).
Proof.
  cbv zeta. unfold afterPool. cbv zeta. destruct (spawnDue _ _ _); cbn.
  - repeat split.
  - rewrite app_nil_r. repeat split.
Qed.

Lemma entering_when_playing f s :
  lastGameStatus s = PLAYING -> entering f s = s.
Proof.
  intro L. unfold entering. rewrite L. destruct s; simpl in *. now subst.
Qed.

Lemma handleCrash_keeps (s : ThreeSceneComponent) :
  (obstacles (Cat.handleCrash s) = obstacles s /\
   lastObstacleTime (Cat.handleCrash s) = lastObstacleTime s /\
   targetX (Cat.handleCrash s) = targetX s /\
   x (position (player (Cat.handleCrash s))) = x (position (player s))) /\
  (obstacles (Plane.handleCrash s) = obstacles s /\
   lastObstacleTime (Plane.handleCrash s) = lastObstacleTime s /\
   targetX (Plane.handleCrash s) = targetX s /\
   x (position (player (Plane.handleCrash s))) = x (position (player s))).
Proof. repeat split. Qed.

Lemma Cat_keydown_untouched key s :
  untouched_by_keys s (Cat.handleKeyboardEvent key s).
Proof.
  unfold untouched_by_keys, Cat.handleKeyboardEvent, Cat.changeLane, jump.
  destruct (negb (GameStateService.isPlaying _)); [repeat split |].
  destruct (keyIn key _); [destruct (_ && _)%bool; repeat split |].
  destruct (keyIn key _); [destruct (_ && _)%bool; repeat split |].
  destruct (keyIn key _); [| repeat split].
  destruct (negb (isJumping s)); repeat split.
Qed.

Lemma Cat_checkCollisions_keeps {three : Three} s :
  obstacles (Cat.checkCollisions s) = obstacles s /\
  lastObstacleTime (Cat.checkCollisions s) = lastObstacleTime s /\
  targetX (Cat.checkCollisions s) = targetX s /\
  x (position (player (Cat.checkCollisions s))) = x (position (player s)).
Proof.
  destruct (Cat_checkCollisions_cases s) as [[_ ->] | [o [_ ->]]].
  - repeat split.
  - apply handleCrash_keeps.
Qed.

Lemma Cat_playing_pool {three : Three} f s :
  status (gameState s) = PLAYING ->
  let u := afterPool Cat.moveObstacle 30 Cat_spawned f s in
  obstacles (Cat.playing f s) = obstacles u /\
  lastObstacleTime (Cat.playing f s) = lastObstacleTime u.
Proof.
  intro P. cbv zeta. rewrite Cat_playing_steps by exact P.
  destruct (Cat_checkCollisions_keeps
              (Cat.updatePlayer deltaTime (now f)
                 (afterPool Cat.moveObstacle 30 Cat_spawned f s)))
    as (-> & -> & _).
  destruct (Cat_updatePlayer_frame deltaTime (now f)
              (afterPool Cat.moveObstacle 30 Cat_spawned f s))
    as (_ & -> & _ & _ & _ & ->).
  split; reflexivity.
Qed.

Lemma Plane_keydown_untouched key s :
  untouched_by_keys s (Plane.handleKeyboardEvent key s).
Proof.
  unfold untouched_by_keys, Plane.handleKeyboardEvent, Plane.changeLane, jump.
  destruct (negb (GameStateService.isPlaying _)); [repeat split |].
  destruct (keyIn key _); [destruct (_ && _)%bool; repeat split |].
  destruct (keyIn key _); [destruct (_ && _)%bool; repeat split |].
  destruct (keyIn key _); [| repeat split].
  destruct (negb (isJumping s)); repeat split.
Qed.

Lemma Plane_checkCollisions_keeps {three : Three} s :
  obstacles (Plane.checkCollisions s) = obstacles s /\
  lastObstacleTime (Plane.checkCollisions s) = lastObstacleTime s /\
  targetX (Plane.checkCollisions s) = targetX s /\
  x (position (player (Plane.checkCollisions s))) = x (position (player s)).
Proof.
  destruct (Plane_checkCollisions_cases s) as [[_ ->] | [o [_ ->]]].
  - repeat split.
  - apply handleCrash_keeps.
Qed.

Lemma Plane_playing_pool {three : Three} f s :
  status (gameState s) = PLAYING ->
  let u := afterPool Plane.moveObstacle 40 Plane_spawned f s in
  obstacles (Plane.playing f s) = obstacles u /\
  lastObstacleTime (Plane.playing f s) = lastObstacleTime u.
Proof.
  intro P. cbv zeta. rewrite Plane_playing_steps by exact P.
  destruct (Plane_checkCollisions_keeps
              (Plane.updatePlayer deltaTime (now f)
                 (afterPool Plane.moveObstacle 40 Plane_spawned f s)))
    as (-> & -> & _).
  destruct (Plane_updatePlayer_frame deltaTime (now f)
              (afterPool Plane.moveObstacle 40 Plane_spawned f s))
    as (_ & -> & _ & _ & _ & ->).
  split; reflexivity.
Qed.

(** ** The pool stays between the spawn line and the threshold *)

Lemma afterPool_between move baseSpeed spawned lo f s :
  (forall d o, z (position (group (move d o))) = z (position (group o)) + d) ->
  0 <= baseSpeed -> 0 <= speed (gameState s) ->
  lo <= z (position (group (spawned f))) <= 15 ->
  pool_between lo s ->
  pool_between lo (afterPool move baseSpeed spawned f s).
Proof.
  intros M B V Sp H. unfold pool_between.
  destruct (afterPool_pool move baseSpeed spawned f s) as (_ & -> & _).
  set (d := baseSpeed * speed (gameState s) * deltaTime).
  assert (D : 0 <= d).
  { unfold d, deltaTime. apply Qmult_le_0_compat; [| lra].
    now apply Qmult_le_0_compat. }
  apply Forall_app. split.
  - apply Forall_forall. intros o In.
    apply filter_In in In. destruct In as (In & Keep).
    apply in_map_iff in In. destruct In as (o0 & <- & In0).
    unfold pool_between in H. rewrite Forall_forall in H.
    destruct (H o0 In0) as (L & _). rewrite M. split; [lra |].
    apply negb_true_iff in Keep. unfold passed in Keep.
    apply Qgtb_le in Keep. now rewrite M in Keep.
  - destruct (spawnDue _ _ _); [| constructor].
    constructor; [exact Sp | constructor].
Qed.

Lemma entering_between lo f s :
  pool_between lo s -> pool_between lo (entering f s).
Proof.
  intro H. unfold pool_between.
  destruct (entering_fields f s) as (_ & _ & -> & _).
  destruct (GameStatus_eqb (lastGameStatus s) PLAYING); [exact H | constructor].
Qed.

Lemma Cat_animate_between {three : Three} f s :
  0 <= speed (gameState s) ->
  pool_between (-80) s -> pool_between (-80) (Cat.animate f s).
Proof.
  intros V H.
  destruct (GameStatus_eqb (status (gameState s)) PLAYING) eqn:P.
  - apply GameStatus_eqb_eq in P. rewrite Cat_animate_playing by exact P.
    destruct (entering_fields f s) as (G & _).
    unfold pool_between.
    destruct (Cat_playing_pool f (entering f s)) as (-> & _);
      [now rewrite G |].
    apply afterPool_between.
    + reflexivity.
    + lra.
    + now rewrite G.
    + cbn. lra.
    + now apply entering_between.
  - apply GameStatus_eqb_neq in P. unfold pool_between.
    now destruct (Cat_animate_idle f s P) as (_ & -> & _).
Qed.

Lemma cat_pool_in_bounds {three : Three} : pool_in_bounds cat (-80).
Proof.
  intros s H. induction H as [| e s H IH O].
  - constructor.
  - pose proof (reachable_invariant cat s cat_disciplined H) as ((L & _) & _).
    destruct e as [| | key | f]; simpl.
    + exact IH.
    + exact IH.
    + unfold pool_between.
      now destruct (Cat_keydown_untouched key s) as (_ & -> & _).
    + apply Cat_animate_between; [lra | exact IH].
Qed.

Lemma Plane_animate_between {three : Three} f s :
  0 <= speed (gameState s) ->
  pool_between (-100) s -> pool_between (-100) (Plane.animate f s).
Proof.
  intros V H.
  destruct (GameStatus_eqb (status (gameState s)) PLAYING) eqn:P.
  - apply GameStatus_eqb_eq in P. rewrite Plane_animate_playing by exact P.
    destruct (entering_fields f s) as (G & _).
    unfold pool_between.
    destruct (Plane_playing_pool f (entering f s)) as (-> & _);
      [now rewrite G |].
    apply afterPool_between.
    + reflexivity.
    + lra.
    + now rewrite G.
    + cbn. lra.
    + now apply entering_between.
  - apply GameStatus_eqb_neq in P. unfold pool_between.
    now destruct (Plane_animate_idle f s P) as (_ & -> & _).
Qed.

Lemma plane_pool_in_bounds {three : Three} : pool_in_bounds plane (-100).
Proof.
  intros s H. induction H as [| e s H IH O].
  - constructor.
  - pose proof (reachable_invariant plane s plane_disciplined H) as ((L & _) & _).
    destruct e as [| | key | f]; simpl.
    + exact IH.
    + exact IH.
    + unfold pool_between.
      now destruct (Plane_keydown_untouched key s) as (_ & -> & _).
    + apply Plane_animate_between; [lra | exact IH].
Qed.

(** X3: in every state the application can reach, every obstacle of the
    pool lies in depth between the line it was spawned on (-80 in the cat
    skin, -100 in the plane skin) and the despawn threshold 15: obstacles
    only move towards the player, and none stays in the pool once past the
    threshold. *)
Theorem pool_stays_between_spawn_line_and_threshold {three : Three} :
  pool_in_bounds cat (-80) /\ pool_in_bounds plane (-100).
Proof. split; [apply cat_pool_in_bounds | apply plane_pool_in_bounds]. Qed.

Lemma afterTwoFrames_reachable :
  reachable (cat (three := fixedExtents)) afterTwoFrames.
Proof.
  unfold afterTwoFrames, afterOneFrame.
  repeat (apply reachable_step; [| reflexivity]). apply started_reachable.
Qed.

Lemma pool_stays_between_spawn_line_and_threshold_witness :
  List.length (obstacles afterTwoFrames) = 1%nat /\
  pool_between (-80) afterTwoFrames.
Proof.
  split; [vm_compute; reflexivity |].
  apply (proj1 (pool_stays_between_spawn_line_and_threshold (three := fixedExtents))).
  apply afterTwoFrames_reachable.
Defined.

(** ** The spawn cadence *)

Lemma spawn_not_due f s g :
  1 <= speed g -> speed g <= 2.5 ->
  (now f - lastObstacleTime s <= 480)%Z -> spawnDue f s g = false.
Proof.
  intros L U T. unfold spawnDue. apply Qgtb_le.
  apply Qle_trans with (inject_Z 480); [now rewrite <- Zle_Qle |].
  apply Qle_shift_div_l; unfold obstacleSpawnRate; [lra |].
  change (inject_Z 480) with 480. lra.
Qed.

Lemma spawn_due f s g :
  1 <= speed g -> speed g <= 2.5 ->
  (1200 < now f - lastObstacleTime s)%Z -> spawnDue f s g = true.
Proof.
  intros L U T. unfold spawnDue. apply Qgtb_gt.
  apply Qle_lt_trans with (inject_Z 1200); [| now rewrite <- Zlt_Qlt].
  apply Qle_shift_div_r; unfold obstacleSpawnRate; [lra |].
  change (inject_Z 1200) with 1200. lra.
Qed.

Lemma rewards_keep_speed_in_range (n : nat) (g : GameStateService.t) :
  status g = PLAYING -> 1 <= speed g -> speed g <= 2.5 ->
  1 <= speed (Nat.iter n (GameStateService.incrementScore 50) g) /\
  speed (Nat.iter n (GameStateService.incrementScore 50) g) <= 2.5.
Proof.
  intros P L U. rewrite iter_incrementScore by exact P. cbn [speed].
  destruct (iter_speedUp_bounds n _ L U) as (? & ? & _). now split.
Qed.

Lemma survivors_no_more (move : Q -> Obstacle -> Obstacle) (d : Q)
    (pool : list Obstacle) :
  (List.length (filter (fun o => negb (passed o)) (map (move d) pool))
   <= List.length pool)%nat.
Proof.
  rewrite <- (length_map (move d) pool). apply filter_length_le.
Qed.

Lemma cat_spawn_cadence {three : Three} : spawn_cadence cat Cat_spawned.
Proof.
  intros s f H P L.
  destruct (reachable_invariant cat s cat_disciplined H) as ((Lo & Up) & _).
  simpl onFrame. rewrite Cat_animate_playing, entering_when_playing by assumption.
  destruct (Cat_playing_pool f s P) as (-> & ->).
  destruct (afterPool_pool Cat.moveObstacle 30 Cat_spawned f s) as (_ & -> & ->).
  match goal with
  | |- context [spawnDue f s ?g] =>
      destruct (rewards_keep_speed_in_range
                  (List.length
                     (filter passed
                        (map (Cat.moveObstacle (30 * speed (gameState s) * deltaTime))
                           (obstacles s))))
                  (gameState s) P Lo Up) as (Lg & Ug)
  end.
  split; intro T.
  - rewrite (spawn_not_due f s _ Lg Ug T). split; [reflexivity |].
    rewrite app_nil_r. apply survivors_no_more.
  - rewrite (spawn_due f s _ Lg Ug T). split; [reflexivity |].
    eexists. reflexivity.
Qed.

Lemma plane_spawn_cadence {three : Three} : spawn_cadence plane Plane_spawned.
Proof.
  intros s f H P L.
  destruct (reachable_invariant plane s plane_disciplined H) as ((Lo & Up) & _).
  simpl onFrame. rewrite Plane_animate_playing, entering_when_playing by assumption.
  destruct (Plane_playing_pool f s P) as (-> & ->).
  destruct (afterPool_pool Plane.moveObstacle 40 Plane_spawned f s) as (_ & -> & ->).
  match goal with
  | |- context [spawnDue f s ?g] =>
      destruct (rewards_keep_speed_in_range
                  (List.length
                     (filter passed
                        (map (Plane.moveObstacle (40 * speed (gameState s) * deltaTime))
                           (obstacles s))))
                  (gameState s) P Lo Up) as (Lg & Ug)
  end.
  split; intro T.
  - rewrite (spawn_not_due f s _ Lg Ug T). split; [reflexivity |].
    rewrite app_nil_r. apply survivors_no_more.
  - rewrite (spawn_due f s _ Lg Ug T). split; [reflexivity |].
    eexists. reflexivity.
Qed.

(** X5: on a PLAYING frame that is not the first of its run, nothing is
    spawned when at most 480 ms have passed since the last spawn (the pool
    does not grow and the spawn time is kept), and an obstacle is always
    spawned, at the end of the pool, when more than 1200 ms have passed (the
    spawn time becomes the frame's clock): the spawn delay 1200 / speed lies
    between the two.  Both skins. *)
Theorem spawn_delay_between_480_and_1200 {three : Three} :
  spawn_cadence cat Cat_spawned /\ spawn_cadence plane Plane_spawned.
Proof. split; [apply cat_spawn_cadence | apply plane_spawn_cadence]. Qed.

Lemma spawn_delay_between_480_and_1200_witness :
  lastObstacleTime
    (onFrame (cat (three := fixedExtents)) (frameAt 7016) afterTwoFrames)
  = lastObstacleTime afterTwoFrames /\
  (List.length (obstacles (onFrame (cat (three := fixedExtents)) (frameAt 7016)
                             afterTwoFrames))
   <= List.length (obstacles afterTwoFrames))%nat.
Proof.
  apply (proj1 (spawn_delay_between_480_and_1200 (three := fixedExtents))
           afterTwoFrames (frameAt 7016)).
  - apply afterTwoFrames_reachable.
  - vm_compute; reflexivity.
  - vm_compute; reflexivity.
  - vm_compute; discriminate.
Defined.

(** ** Rounding to binary64

    The exponent [floorLog2] finds is the right one, the nearest integer
    is within a half, and from there: what [roundToDouble] returns for a
    positive number lies between 0 and the next power of two; a double
    below 1 is at most [1 - 2 ^ -53]; and three times such a double rounds
    to a double below 3. *)

Lemma two_neq_0 : ~ 2 == 0.
Proof. intro H. discriminate H. Qed.

Lemma pow2_pos (e : Z) : 0 < 2 ^ e.
Proof. apply Qpower_0_lt. reflexivity. Qed.

Lemma pow2_Z (n : Z) : (0 <= n)%Z -> inject_Z (2 ^ n) == 2 ^ n.
Proof. intro H. now rewrite Zpower_Qpower. Qed.

Lemma floorLog2_spec (q : Q) :
  0 < q -> 2 ^ floorLog2 q <= q /\ q < 2 ^ (floorLog2 q + 1).
Proof.
  intro P. destruct q as [n d].
  assert (N : (0 < n)%Z) by (unfold Qlt in P; simpl in P; lia).
  destruct (Z.log2_spec n N) as [Ln Un].
  destruct (Z.log2_spec (Zpos d) eq_refl) as [Ld Ud].
  pose proof (Z.log2_nonneg n) as Nn. pose proof (Z.log2_nonneg (Zpos d)) as Nd.
  set (ln := Z.log2 n) in *. set (ld := Z.log2 (Zpos d)) in *.
  assert (Q1 : 2 ^ ln <= inject_Z n)
    by (rewrite <- pow2_Z by lia; now rewrite <- Zle_Qle).
  assert (Q2 : inject_Z n < 2 ^ (ln + 1))
    by (rewrite <- pow2_Z by lia; rewrite <- Zlt_Qlt; unfold Z.succ in Un; lia).
  assert (Q3 : 2 ^ ld <= inject_Z (Zpos d))
    by (rewrite <- pow2_Z by lia; now rewrite <- Zle_Qle).
  assert (Q4 : inject_Z (Zpos d) < 2 ^ (ld + 1))
    by (rewrite <- pow2_Z by lia; rewrite <- Zlt_Qlt; unfold Z.succ in Ud; lia).
  assert (E : inject_Z n == (n # d) * inject_Z (Zpos d)).
  { rewrite (Qmake_Qdiv n d). field. intro H. discriminate H. }
  assert (Dp : 0 < inject_Z (Zpos d)) by reflexivity.
  assert (Up : n # d < 2 ^ (ln - ld + 1)).
  { assert (H : 2 ^ (ln - ld + 1) * 2 ^ ld == 2 ^ (ln + 1)).
    { rewrite <- Qpower_plus by apply two_neq_0. now replace (ln - ld + 1 + ld)%Z with (ln + 1)%Z by lia. }
    pose proof (pow2_pos (ln - ld + 1)). nra. }
  assert (Lo : 2 ^ (ln - ld - 1) < n # d).
  { assert (H : 2 ^ (ln - ld - 1) * 2 ^ (ld + 1) == 2 ^ ln).
    { rewrite <- Qpower_plus by apply two_neq_0. now replace (ln - ld - 1 + (ld + 1))%Z with ln by lia. }
    pose proof (pow2_pos (ln - ld - 1)). nra. }
  unfold floorLog2. cbn [Qnum Qden]. fold ln ld.
  destruct (Qle_bool (2 ^ (ln - ld)) (n # d)) eqn:B.
  - apply Qle_bool_iff in B. split; [exact B | exact Up].
  - split; [apply Qlt_le_weak; exact Lo |].
    replace (ln - ld - 1 + 1)%Z with (ln - ld)%Z by lia.
    apply Qnot_le_lt. intro H. apply Qle_bool_iff in H. congruence.
Qed.

Lemma roundTiesToEven_near (q : Q) :
  q - (1 # 2) <= inject_Z (roundTiesToEven q) /\
  inject_Z (roundTiesToEven q) <= q + (1 # 2).
Proof.
  unfold roundTiesToEven.
  pose proof (Qfloor_le q) as L. pose proof (Qlt_floor q) as U.
  rewrite inject_Z_plus in U. change (inject_Z 1) with 1 in U.
  destruct (Qcompare_spec (q - inject_Z (Qfloor q)) (1 # 2)) as [E | E | E].
  - destruct (Z.even (Qfloor q));
      [| rewrite inject_Z_plus; change (inject_Z 1) with 1]; lra.
  - lra.
  - rewrite inject_Z_plus. change (inject_Z 1) with 1. lra.
Qed.

Lemma roundTiesToEven_le (q : Q) (n : Z) :
  q <= inject_Z n - (3 # 4) -> (roundTiesToEven q <= n - 1)%Z.
Proof.
  intro H. destruct (roundTiesToEven_near q) as [_ U].
  assert (L : inject_Z (roundTiesToEven q) < inject_Z n) by lra.
  rewrite <- Zlt_Qlt in L. lia.
Qed.

Lemma roundTiesToEven_ge (q : Q) (n : Z) :
  inject_Z n <= q -> (n <= roundTiesToEven q)%Z.
Proof.
  intro H. destruct (roundTiesToEven_near q) as [L _].
  assert (K : inject_Z (n - 1) < inject_Z (roundTiesToEven q)).
  { unfold Z.sub. rewrite inject_Z_plus, inject_Z_opp.
    change (inject_Z 1) with 1. lra. }
  rewrite <- Zlt_Qlt in K. lia.
Qed.

Lemma roundTiesToEven_upper (q : Q) (n : Z) :
  q <= inject_Z n -> (roundTiesToEven q <= n)%Z.
Proof.
  intro H. destruct (roundTiesToEven_near q) as [_ U].
  assert (K : inject_Z (roundTiesToEven q) < inject_Z (n + 1)).
  { rewrite inject_Z_plus. change (inject_Z 1) with 1. lra. }
  rewrite <- Zlt_Qlt in K. lia.
Qed.

(** The rounding of a positive number, spelled out. *)
Lemma roundToDouble_pos (q : Q) :
  0 < q ->
  roundToDouble q
  = inject_Z (roundTiesToEven (q * 2 ^ (52 - Z.max (floorLog2 q) (-1022))))
    * 2 ^ (Z.max (floorLog2 q) (-1022) - 52).
Proof.
  intro P. unfold roundToDouble.
  assert (A : Qabs q = q).
  { destruct q as [n d]. unfold Qlt in P. simpl in P. simpl.
    f_equal. lia. }
  rewrite A.
  destruct (Qeq_bool q 0) eqn:Z0.
  - apply Qeq_bool_iff in Z0. lra.
  - destruct (Qle_bool 0 q) eqn:L; [reflexivity |].
    assert (H : Qle_bool 0 q = true) by (apply Qle_bool_iff; lra). congruence.
Qed.

Lemma roundToDouble_0 (q : Q) : q == 0 -> roundToDouble q = 0.
Proof.
  intro E. unfold roundToDouble.
  assert (A : Qabs q == 0) by (rewrite E; reflexivity).
  apply Qeq_bool_iff in A. now rewrite A.
Qed.

Lemma scaled (a : Q) (e k : Z) :
  a < 2 ^ (e + 1) -> a * 2 ^ (k - e) < 2 ^ (k + 1).
Proof.
  intro H. pose proof (pow2_pos (k - e)).
  assert (E : 2 ^ (e + 1) * 2 ^ (k - e) == 2 ^ (k + 1)).
  { rewrite <- Qpower_plus by apply two_neq_0.
    now replace (e + 1 + (k - e))%Z with (k + 1)%Z by lia. }
  nra.
Qed.

(** A positive number below [2 ^ (e + 1)], [e] its exponent, rounds to at
    most [2 ^ (e + 1)]. *)
Lemma roundToDouble_le_pow (q : Q) :
  0 < q ->
  0 <= roundToDouble q /\
  roundToDouble q <= 2 ^ (Z.max (floorLog2 q) (-1022) + 1).
Proof.
  intro P. rewrite (roundToDouble_pos q P).
  destruct (floorLog2_spec q P) as [_ U].
  set (e := Z.max (floorLog2 q) (-1022)).
  assert (U' : q < 2 ^ (e + 1)).
  { eapply Qlt_le_trans; [exact U |].
    apply Qpower_le_compat_l; [unfold e; lia | lra]. }
  pose proof (scaled q e 52 U') as S.
  pose proof (pow2_pos (52 - e)) as P1. pose proof (pow2_pos (e - 52)) as P2.
  assert (M0 : (0 <= roundTiesToEven (q * 2 ^ (52 - e)))%Z).
  { apply roundTiesToEven_ge. change (inject_Z 0) with 0. nra. }
  assert (M1 : (roundTiesToEven (q * 2 ^ (52 - e)) <= 2 ^ 53)%Z).
  { apply roundTiesToEven_upper. rewrite pow2_Z by lia.
    apply Qlt_le_weak. exact S. }
  rewrite Zle_Qle in M0, M1. rewrite pow2_Z in M1 by lia.
  change (inject_Z 0) with 0 in M0.
  set (m := inject_Z (roundTiesToEven (q * 2 ^ (52 - e)))) in *.
  split; [nra |].
  assert (E : 2 ^ 53 * 2 ^ (e - 52) == 2 ^ (e + 1)).
  { rewrite <- Qpower_plus by apply two_neq_0.
    now replace (53 + (e - 52))%Z with (e + 1)%Z by lia. }
  rewrite <- E. nra.
Qed.

Lemma roundToDouble_nonneg (q : Q) : 0 <= q -> 0 <= roundToDouble q.
Proof.
  intro H. destruct (Qlt_le_dec 0 q) as [P | N].
  - apply roundToDouble_le_pow, P.
  - rewrite roundToDouble_0 by lra. lra.
Qed.

(** A double below 1 is at most the largest double below 1. *)
Lemma roundToDouble_below_1 (q : Q) :
  0 <= q -> roundToDouble q < 1 -> roundToDouble q <= 1 - (1 # 9007199254740992).
Proof.
  intros N L. destruct (Qlt_le_dec 0 q) as [P | Z0];
    [| rewrite roundToDouble_0 by lra; lra].
  destruct (floorLog2_spec q P) as [Lo _].
  destruct (roundToDouble_le_pow q P) as [_ Up].
  rewrite (roundToDouble_pos q P) in *.
  set (e := Z.max (floorLog2 q) (-1022)) in *.
  set (m := roundTiesToEven (q * 2 ^ (52 - e))) in *.
  pose proof (pow2_pos (e - 52)) as P2.
  destruct (Z_lt_le_dec e (-1)) as [Small | Big].
  - eapply Qle_trans; [exact Up |].
    apply Qle_trans with (2 ^ (-1)); [| unfold Qle; simpl; lia].
    apply Qpower_le_compat_l; [lia | lra].
  - destruct (Z.eq_dec e (-1)) as [E1 | NE].
    + rewrite E1 in *.
      assert (M : inject_Z m < inject_Z (2 ^ 53)).
      { change (2 ^ (-1 - 52)) with (1 # 9007199254740992) in L.
        change (inject_Z (2 ^ 53)) with (9007199254740992 # 1).
        revert L. generalize (inject_Z m). intros v L.
        unfold Qlt in *. simpl in *. lia. }
      rewrite <- Zlt_Qlt in M.
      assert (M' : (m <= 2 ^ 53 - 1)%Z) by lia.
      rewrite Zle_Qle in M'.
      change (2 ^ (-1 - 52)) with (1 # 9007199254740992).
      change (inject_Z (2 ^ 53 - 1)) with (9007199254740991 # 1) in M'.
      revert M'. generalize (inject_Z m). intros v M'.
      unfold Qle in *. simpl in *. lia.
    + exfalso.
      assert (F : floorLog2 q = e) by (unfold e in *; lia).
      rewrite F in Lo.
      assert (G : (2 ^ 52 <= m)%Z).
      { apply roundTiesToEven_ge. rewrite pow2_Z by lia.
        pose proof (pow2_pos (52 - e)).
        assert (E : 2 ^ e * 2 ^ (52 - e) == 2 ^ 52).
        { rewrite <- Qpower_plus by apply two_neq_0.
          now replace (e + (52 - e))%Z with 52%Z by lia. }
        rewrite <- E. nra. }
      rewrite Zle_Qle, pow2_Z in G by lia.
      assert (E : 2 ^ 52 * 2 ^ (e - 52) == 2 ^ e).
      { rewrite <- Qpower_plus by apply two_neq_0.
        now replace (52 + (e - 52))%Z with e by lia. }
      assert (One : 1 <= 2 ^ e) by (apply Qpower_1_le; [lra | lia]).
      nra.
Qed.

(** Three times a double below 1 rounds to a double below 3. *)
Lemma roundToDouble_times_3 (d : Q) :
  0 <= d -> d <= 1 - (1 # 9007199254740992) ->
  (0 <= Qfloor (roundToDouble (d * 3)) <= 2)%Z.
Proof.
  intros N U.
  assert (F : forall v, 0 <= v -> v < 3 -> (0 <= Qfloor v <= 2)%Z).
  { intros v V0 V3. split.
    - change 0%Z with (Qfloor 0). now apply Qfloor_resp_le.
    - pose proof (Qfloor_le v) as Fl.
      assert (K : inject_Z (Qfloor v) < inject_Z 3) by (change (inject_Z 3) with 3; lra).
      rewrite <- Zlt_Qlt in K. lia. }
  destruct (Qlt_le_dec 0 d) as [P | Z0];
    [| rewrite roundToDouble_0 by lra; split; vm_compute; discriminate].
  assert (P3 : 0 < d * 3) by lra.
  apply F; [apply roundToDouble_nonneg; lra |].
  destruct (floorLog2_spec (d * 3) P3) as [Lo _].
  destruct (roundToDouble_le_pow (d * 3) P3) as [_ Up].
  assert (E1 : (floorLog2 (d * 3) < 2)%Z).
  { apply Qpower_lt_compat_l_inv with 2; [| lra].
    eapply Qle_lt_trans; [exact Lo |].
    change (2 ^ 2) with 4. 
    assert (1 - (1 # 9007199254740992) < 1) by reflexivity. lra. }
  destruct (Z_lt_le_dec (Z.max (floorLog2 (d * 3)) (-1022)) 1) as [Small | Big].
  - eapply Qle_lt_trans; [exact Up |].
    apply Qle_lt_trans with (2 ^ 1); [| reflexivity].
    apply Qpower_le_compat_l; [lia | lra].
  - rewrite (roundToDouble_pos _ P3).
    replace (Z.max (floorLog2 (d * 3)) (-1022)) with 1%Z by lia.
    assert (M : (roundTiesToEven (d * 3 * 2 ^ (52 - 1)) <= 3 * 2 ^ 51 - 1)%Z).
    { apply roundTiesToEven_le.
      change (2 ^ (52 - 1)) with (inject_Z (2 ^ 51)).
      change (inject_Z (3 * 2 ^ 51)) with (3 * inject_Z (2 ^ 51)).
      assert (T : (1 - (1 # 9007199254740992)) * 3 * inject_Z (2 ^ 51)
                  == 3 * inject_Z (2 ^ 51) - (3 # 4)) by reflexivity.
      assert (Pp : 0 < inject_Z (2 ^ 51)) by reflexivity.
      rewrite <- T. nra. }
    rewrite Zle_Qle in M.
    change (inject_Z (3 * 2 ^ 51 - 1)) with (6755399441055743 # 1) in M.
    change (2 ^ (1 - 52)) with (1 # 2251799813685248).
    revert M. generalize (inject_Z (roundTiesToEven (d * 3 * 2 ^ (52 - 1)))).
    intros v M. unfold Qle, Qlt in *. simpl in *. lia.
Qed.

(** ** Where obstacles are spawned *)

Lemma lane_index_in_range (r : Q) :
  0 <= r -> roundToDouble r < 1 ->
  let i := Qfloor (roundToDouble (roundToDouble r * 3)) in
  (0 <= i <= 2)%Z /\ nth_error lanes (Z.to_nat i) = Some (i - 1)%Z /\
  randomLane r = (i - 1)%Z.
Proof.
  intros L U i.
  assert (B : (0 <= i <= 2)%Z).
  { apply roundToDouble_times_3;
      [now apply roundToDouble_nonneg | now apply roundToDouble_below_1]. }
  split; [exact B |].
  unfold randomLane.
  change (inject_Z (Z.of_nat (List.length lanes))) with 3. fold i.
  assert (C : i = 0%Z \/ i = 1%Z \/ i = 2%Z) by lia.
  destruct C as [-> | [-> | ->]]; split; reflexivity.
Qed.

(** On the sample draws the binary64 product is the rounded exact product;
    the largest doubles below 1/3 and 2/3 land in the lane to the right of
    the one the exact product would give. *)
Lemma binary64_lane_draws :
  forallb Doubles.agrees Doubles.draws = true /\
  map (fun d => randomLane (Doubles.toQ d)) Doubles.draws
  = [-1; 0; 0; 1; 1; 1; -1; -1; -1; 0; 1; 1]%Z /\
  randomLane twoThirds = 1%Z /\ (Qfloor (twoThirds * 3) - 1 = 0)%Z.
Proof. repeat split; vm_compute; reflexivity. Qed.

(** X4: [spawnObstacle] does nothing outside PLAYING.  While PLAYING, for a
    lane draw that is a double in [0, 1), the index into [lanes], the floor
    of the binary64 product of the draw and 3, is 0, 1 or 2, so the read is
    in range, and exactly one obstacle is appended to the end of the pool:
    in lane index - 1, at lateral position lane * 3, on the ground, on the
    spawn line (-80 in the cat skin, -100 in the plane skin); nothing else
    of the component changes. *)
Theorem spawnObstacle_appends_in_a_lane :
  spawns_in_a_lane Cat.spawnObstacle Cat_spawned (-80) /\
  spawns_in_a_lane Plane.spawnObstacle Plane_spawned (-100).
Proof.
  split; intros f s; split.
  - intro N. unfold Cat.spawnObstacle.
    now rewrite (proj2 (isPlaying_false _) N).
  - intros P L U i.
    destruct (lane_index_in_range (random_lane f) L U) as (B & N & E). fold i in B, N, E.
    split; [exact B |]. split; [exact N |]. split.
    + unfold Cat.spawnObstacle. now rewrite (proj2 (isPlaying_true _) P).
    + unfold Cat_spawned. rewrite E. reflexivity.
  - intro N. unfold Plane.spawnObstacle.
    now rewrite (proj2 (isPlaying_false _) N).
  - intros P L U i.
    destruct (lane_index_in_range (random_lane f) L U) as (B & N & E). fold i in B, N, E.
    split; [exact B |]. split; [exact N |]. split.
    + unfold Plane.spawnObstacle. now rewrite (proj2 (isPlaying_true _) P).
    + unfold Plane_spawned. rewrite E. reflexivity.
Qed.

Lemma spawnObstacle_appends_in_a_lane_witness :
  let i := Qfloor (roundToDouble (roundToDouble (random_lane drawsTwoThirds) * 3)) in
  (0 <= i <= 2)%Z /\
  nth_error lanes (Z.to_nat i) = Some (i - 1)%Z /\
  Cat.spawnObstacle drawsTwoThirds started
  = set_obstacles (obstacles started ++ [Cat_spawned drawsTwoThirds]) started /\
  position (group (Cat_spawned drawsTwoThirds))
  = vec3 (inject_Z (i - 1) * laneWidth) 0 (-80).
Proof.
  apply (proj2 (proj1 spawnObstacle_appends_in_a_lane drawsTwoThirds started)).
  - reflexivity.
  - vm_compute; discriminate.
  - vm_compute; reflexivity.
Defined.

(** ** Keys *)

Lemma untouched_by_keys_trans (a b c : ThreeSceneComponent) :
  untouched_by_keys a b -> untouched_by_keys b c -> untouched_by_keys a c.
Proof.
  unfold untouched_by_keys.
  intros (A1 & A2 & A3 & A4 & A5 & A6 & A7) (B1 & B2 & B3 & B4 & B5 & B6 & B7).
  repeat split; congruence.
Qed.

Lemma keys_contained_of
    (handle : string -> ThreeSceneComponent -> ThreeSceneComponent) :
  (forall key s, untouched_by_keys s (handle key s)) ->
  (forall key s, status (gameState s) <> PLAYING -> handle key s = s) ->
  forall keys s,
    let s' := fold_left (fun s key => handle key s) keys s in
    untouched_by_keys s s' /\ (status (gameState s) <> PLAYING -> s' = s).
Proof.
  intros U N keys. induction keys as [| key keys IH]; intro s; simpl.
  - split; [repeat split | reflexivity].
  - destruct (IH (handle key s)) as (V & W). split.
    + exact (untouched_by_keys_trans _ _ _ (U key s) V).
    + intro P. rewrite (N key s P) in *. now apply W.
Qed.

Lemma unbound_key (key : string) :
  keyIn key boundKeys = false ->
  keyIn key ["ArrowLeft"; "a"; "A"] = false /\
  keyIn key ["ArrowRight"; "d"; "D"] = false /\
  keyIn key ["ArrowUp"; " "; "w"; "W"] = false.
Proof.
  unfold keyIn, boundKeys. rewrite !existsb_app, !orb_false_iff. tauto.
Qed.

Lemma Cat_keys_are_contained : keys_are_contained Cat.handleKeyboardEvent.
Proof.
  split.
  - apply keys_contained_of; [apply Cat_keydown_untouched |].
    intros key s N. unfold Cat.handleKeyboardEvent.
    now rewrite (proj2 (isPlaying_false _) N).
  - intros key s U. destruct (unbound_key key U) as (A & B & C).
    unfold Cat.handleKeyboardEvent. rewrite A, B, C.
    now destruct (negb _).
Qed.

Lemma Cat_animate_over {three : Three} f s :
  status (gameState s) = GAME_OVER ->
  Cat.animate f s = set_lastGameStatus GAME_OVER s.
Proof.
  intro G. unfold Cat.animate. cbv zeta. rewrite G. reflexivity.
Qed.

Lemma cat_frozen_when_over {three : Three} : frozen_when_over cat.
Proof.
  assert (Step : forall e s, notClick e -> status (gameState s) = GAME_OVER ->
            step cat e s = s \/ step cat e s = set_lastGameStatus GAME_OVER s).
  { intros [| | key | f] s C G; simpl in *; try contradiction.
    - left. unfold Cat.handleKeyboardEvent.
      unfold GameStateService.isPlaying. now rewrite G.
    - right. now apply Cat_animate_over. }
  intros es. induction es as [| e es IH]; intros s C G; simpl.
  - now left.
  - inversion C as [| ? ? Ce Ces]; subst.
    destruct (Step e s Ce G) as [-> | ->].
    + now apply IH.
    + destruct (IH (set_lastGameStatus GAME_OVER s) Ces G) as [-> | ->];
        right; reflexivity.
Qed.

Lemma Plane_keys_are_contained : keys_are_contained Plane.handleKeyboardEvent.
Proof.
  split.
  - apply keys_contained_of; [apply Plane_keydown_untouched |].
    intros key s N. unfold Plane.handleKeyboardEvent.
    now rewrite (proj2 (isPlaying_false _) N).
  - intros key s U. destruct (unbound_key key U) as (A & B & C).
    unfold Plane.handleKeyboardEvent. rewrite A, B, C.
    now destruct (negb _).
Qed.

Lemma Plane_animate_over {three : Three} f s :
  status (gameState s) = GAME_OVER ->
  Plane.animate f s = set_lastGameStatus GAME_OVER s.
Proof.
  intro G. unfold Plane.animate. cbv zeta. rewrite G. reflexivity.
Qed.

Lemma plane_frozen_when_over {three : Three} : frozen_when_over plane.
Proof.
  assert (Step : forall e s, notClick e -> status (gameState s) = GAME_OVER ->
            step plane e s = s \/ step plane e s = set_lastGameStatus GAME_OVER s).
  { intros [| | key | f] s C G; simpl in *; try contradiction.
    - left. unfold Plane.handleKeyboardEvent.
      unfold GameStateService.isPlaying. now rewrite G.
    - right. now apply Plane_animate_over. }
  intros es. induction es as [| e es IH]; intros s C G; simpl.
  - now left.
  - inversion C as [| ? ? Ce Ces]; subst.
    destruct (Step e s Ce G) as [-> | ->].
    + now apply IH.
    + destruct (IH (set_lastGameStatus GAME_OVER s) Ces G) as [-> | ->];
        right; reflexivity.
Qed.

(** X10: a run of key presses never writes the session (status, score,
    speed), the pool, the spawn time, the stored status, the height, or the
    position and scale of the player group; outside PLAYING it leaves the
    whole component as it was; and a key that is none of the ten bound ones
    (the labels are case-sensitive apart from a/A, d/D, w/W) does nothing
    in any status.  Both skins. *)
Theorem key_presses_are_contained :
  keys_are_contained Cat.handleKeyboardEvent /\
  keys_are_contained Plane.handleKeyboardEvent.
Proof. split; [apply Cat_keys_are_contained | apply Plane_keys_are_contained]. Qed.

Lemma key_presses_are_contained_witness :
  fold_left (fun s key => Plane.handleKeyboardEvent key s)
    ["ArrowLeft"; " "; "d"] initial = initial /\
  Cat.handleKeyboardEvent "Enter" started = started.
Proof.
  destruct key_presses_are_contained as ((_ & CatUnbound) & (PlaneRun & _)).
  split.
  - apply (PlaneRun ["ArrowLeft"; " "; "d"] initial). discriminate.
  - apply CatUnbound. reflexivity.
Defined.

(** ** The game-over screen *)

(** X6: while the status is GAME_OVER, no key press and no frame changes
    anything but [lastGameStatus]: obstacles stop where they were, the
    player keeps its crash pose, the score stands, until one of the two
    buttons is clicked.  Both skins. *)
Theorem nothing_moves_when_over {three : Three} :
  frozen_when_over cat /\ frozen_when_over plane.
Proof. split; [apply cat_frozen_when_over | apply plane_frozen_when_over]. Qed.

Lemma nothing_moves_when_over_witness :
  run (cat (three := fixedExtents))
    [AnimationFrame (frameAt 9016); KeyDown "a"; AnimationFrame (frameAt 9032)]
    (Cat.handleCrash onThePlayer)
  = Cat.handleCrash onThePlayer \/
  run (cat (three := fixedExtents))
    [AnimationFrame (frameAt 9016); KeyDown "a"; AnimationFrame (frameAt 9032)]
    (Cat.handleCrash onThePlayer)
  = set_lastGameStatus GAME_OVER (Cat.handleCrash onThePlayer).
Proof.
  apply (proj1 (nothing_moves_when_over (three := fixedExtents))).
  - repeat constructor.
  - reflexivity.
Defined.

(** ** Lateral smoothing *)

Lemma closes_in_of
    (update : Q -> Z -> ThreeSceneComponent -> ThreeSceneComponent) (rate : Q) :
  0 <= rate * deltaTime -> rate * deltaTime <= 1 ->
  (forall dt t s, targetX (update dt t s) = targetX s) ->
  (forall dt t s,
     x (position (player (update dt t s)))
     = x (position (player s))
       + (targetX s - x (position (player s))) * rate * dt) ->
  closes_in_laterally update.
Proof.
  intros R0 R1 T X clock n s _ _.
  assert (I : targetX (ticks update deltaTime clock n s) = targetX s /\
              (x (position (player s)) <= targetX s ->
               x (position (player (ticks update deltaTime clock n s)))
               <= targetX s) /\
              (targetX s <= x (position (player s)) ->
               targetX s
               <= x (position (player (ticks update deltaTime clock n s))))).
  { induction n as [| n (IT & IL & IR)].
    - split; [reflexivity |]. split; intro H; exact H.
    - cbn [ticks]. rewrite T, X, IT. split; [reflexivity |].
      set (xn := x (position (player (ticks update deltaTime clock n s)))) in *.
      split; intro H; [specialize (IL H) | specialize (IR H)]; nra. }
  destruct I as (IT & IL & IR). cbv zeta. cbn [ticks]. rewrite T, X, IT.
  set (xn := x (position (player (ticks update deltaTime clock n s)))) in *.
  split; [reflexivity |].
  split; intro H; [specialize (IL H) | specialize (IR H)]; split; nra.
Qed.

Lemma Cat_lateral {three : Three} dt t s :
  x (position (player (Cat.updatePlayer dt t s)))
  = x (position (player s)) + (targetX s - x (position (player s))) * 10 * dt.
Proof.
  unfold Cat.updatePlayer. destruct (isJumping s) eqn:J; cbn; rewrite ?J; cbn.
  - destruct (Qle_bool _ 0); reflexivity.
  - reflexivity.
Qed.

Lemma Cat_updatePlayer_targetX {three : Three} dt t s :
  targetX (Cat.updatePlayer dt t s) = targetX s.
Proof. now destruct (Cat_updatePlayer_frame dt t s) as (_ & _ & _ & -> & _). Qed.

Lemma Plane_lateral {three : Three} dt t s :
  x (position (player (Plane.updatePlayer dt t s)))
  = x (position (player s)) + (targetX s - x (position (player s))) * 8 * dt.
Proof.
  unfold Plane.updatePlayer. destruct (isJumping s) eqn:J; cbn; rewrite ?J; cbn.
  - destruct (Qle_bool _ 0); reflexivity.
  - reflexivity.
Qed.

Lemma Plane_updatePlayer_targetX {three : Three} dt t s :
  targetX (Plane.updatePlayer dt t s) = targetX s.
Proof. now destruct (Plane_updatePlayer_frame dt t s) as (_ & _ & _ & -> & _). Qed.

(** X8: the lateral smoothing never overshoots.  With target and player
    between the outer lane centres and no lane change in between, every
    player update of a frame leaves the target alone and leaves the player
    group between where it was and the target: it closes in on the lane
    centre from the side it is on, and never moves away from it.  Both
    skins (lerpSpeed 10 and 8, deltaTime 0.016). *)
Theorem lateral_smoothing_never_overshoots {three : Three} :
  closes_in_laterally Cat.updatePlayer /\ closes_in_laterally Plane.updatePlayer.
Proof.
  split.
  - apply (closes_in_of _ 10); [unfold deltaTime; lra | unfold deltaTime; lra
                                | apply Cat_updatePlayer_targetX | apply Cat_lateral].
  - apply (closes_in_of _ 8); [unfold deltaTime; lra | unfold deltaTime; lra
                               | apply Plane_updatePlayer_targetX | apply Plane_lateral].
Qed.

Lemma lateral_smoothing_never_overshoots_witness :
  targetX (ticks (Cat.updatePlayer (three := fixedExtents)) deltaTime
             (fun i => 5000 + 16 * Z.of_nat i)%Z 2 startedThenRight)
  = targetX startedThenRight /\
  (x (position (player startedThenRight)) <= targetX startedThenRight ->
   x (position (player (ticks (Cat.updatePlayer (three := fixedExtents)) deltaTime
                          (fun i => 5000 + 16 * Z.of_nat i)%Z 1 startedThenRight)))
   <= x (position (player (ticks (Cat.updatePlayer (three := fixedExtents)) deltaTime
                             (fun i => 5000 + 16 * Z.of_nat i)%Z 2 startedThenRight))) /\
   x (position (player (ticks (Cat.updatePlayer (three := fixedExtents)) deltaTime
                          (fun i => 5000 + 16 * Z.of_nat i)%Z 2 startedThenRight)))
   <= targetX startedThenRight) /\
  (targetX startedThenRight <= x (position (player startedThenRight)) ->
   targetX startedThenRight
   <= x (position (player (ticks (Cat.updatePlayer (three := fixedExtents)) deltaTime
                             (fun i => 5000 + 16 * Z.of_nat i)%Z 2 startedThenRight))) /\
   x (position (player (ticks (Cat.updatePlayer (three := fixedExtents)) deltaTime
                          (fun i => 5000 + 16 * Z.of_nat i)%Z 2 startedThenRight)))
   <= x (position (player (ticks (Cat.updatePlayer (three := fixedExtents)) deltaTime
                             (fun i => 5000 + 16 * Z.of_nat i)%Z 1 startedThenRight)))).
Proof.
  apply (proj1 (lateral_smoothing_never_overshoots (three := fixedExtents))
           (fun i => 5000 + 16 * Z.of_nat i)%Z 1%nat startedThenRight).
  - vm_compute. split; discriminate.
  - vm_compute. split; discriminate.
Defined.

(** ** The player stays on the track *)

Lemma lane_centre_in_range (lane : Z) :
  (-1 <= lane <= 1)%Z ->
  -3 <= inject_Z lane * laneWidth /\ inject_Z lane * laneWidth <= 3.
Proof.
  intros [L U]. unfold laneWidth.
  assert (A : inject_Z (-1) <= inject_Z lane) by now rewrite <- Zle_Qle.
  assert (B : inject_Z lane <= inject_Z 1) by now rewrite <- Zle_Qle.
  change (inject_Z (-1)) with (-1) in A. change (inject_Z 1) with 1 in B.
  split; lra.
Qed.

Lemma on_track_entering f s : on_track s -> on_track (entering f s).
Proof.
  intro H. unfold entering.
  destruct (GameStatus_eqb (lastGameStatus s) PLAYING); [exact H |].
  unfold on_track; cbn. split; [reflexivity | split; split; lra].
Qed.

Lemma on_track_click (f : GameStateService.t -> GameStateService.t) s :
  on_track s -> on_track (upd_gameState f s).
Proof. intro H. exact H. Qed.

Lemma Cat_changeLane_track d s : on_track s -> on_track (Cat.changeLane d s).
Proof.
  intro H. unfold Cat.changeLane.
  destruct ((currentLane s + d >=? -1) && (currentLane s + d <=? 1))%Z eqn:G;
    [| exact H].
  apply andb_true_iff in G. destruct G as (G1 & G2).
  destruct H as (_ & _ & X). unfold on_track; cbn.
  split; [reflexivity |]. split; [| exact X].
  apply lane_centre_in_range. lia.
Qed.

Lemma Cat_keydown_track key s :
  on_track s -> on_track (Cat.handleKeyboardEvent key s).
Proof.
  intro H. unfold Cat.handleKeyboardEvent.
  destruct (negb _); [exact H |].
  destruct (keyIn key _); [now apply Cat_changeLane_track |].
  destruct (keyIn key _); [now apply Cat_changeLane_track |].
  destruct (keyIn key _); [| exact H].
  unfold jump. now destruct (negb (isJumping s)).
Qed.

Lemma Cat_playing_track {three : Three} f s :
  status (gameState s) = PLAYING -> on_track s -> on_track (Cat.playing f s).
Proof.
  intros P (E & (T1 & T2) & (X1 & X2)).
  assert (L : currentLane (Cat.playing f s) = currentLane s)
    by now destruct (Cat_playing_outcome f s) as (_ & _ & -> & _).
  rewrite Cat_playing_steps in * by exact P.
  set (u := afterPool Cat.moveObstacle 30 Cat_spawned f s) in *.
  destruct (afterPool_fields Cat.moveObstacle 30 Cat_spawned f s)
    as (Pu & Tu & _). fold u in Pu, Tu.
  destruct (Cat_checkCollisions_keeps (Cat.updatePlayer deltaTime (now f) u))
    as (_ & _ & Tc & Xc).
  unfold on_track. rewrite L, Tc, Xc, Cat_updatePlayer_targetX, Cat_lateral, Tu, Pu.
  split; [exact E |]. split; [split; assumption |].
  unfold deltaTime. split; lra.
Qed.

Lemma Cat_animate_track {three : Three} f s :
  on_track s -> on_track (Cat.animate f s).
Proof.
  intro H.
  destruct (GameStatus_eqb (status (gameState s)) PLAYING) eqn:P.
  - apply GameStatus_eqb_eq in P. rewrite Cat_animate_playing by exact P.
    apply Cat_playing_track; [| now apply on_track_entering].
    now destruct (entering_fields f s) as (-> & _).
  - apply GameStatus_eqb_neq in P. unfold Cat.animate. cbv zeta.
    destruct (status (gameState s)); [| contradiction | exact H].
    destruct H as (E & T & _). unfold on_track; cbn.
    split; [exact E |]. split; [exact T | lra].
Qed.

Lemma cat_stays_on_track {three : Three} : stays_on_track cat.
Proof.
  intros s H. induction H as [| e s H IH O].
  - unfold on_track; cbn. split; [reflexivity | split; split; lra].
  - destruct e as [| | key | f]; simpl.
    + exact IH.
    + exact IH.
    + now apply Cat_keydown_track.
    + now apply Cat_animate_track.
Qed.

Lemma Plane_changeLane_track d s : on_track s -> on_track (Plane.changeLane d s).
Proof.
  intro H. unfold Plane.changeLane.
  destruct ((currentLane s + d >=? -1) && (currentLane s + d <=? 1))%Z eqn:G;
    [| exact H].
  apply andb_true_iff in G. destruct G as (G1 & G2).
  destruct H as (_ & _ & X). unfold on_track; cbn.
  split; [reflexivity |]. split; [| exact X].
  apply lane_centre_in_range. lia.
Qed.

Lemma Plane_keydown_track key s :
  on_track s -> on_track (Plane.handleKeyboardEvent key s).
Proof.
  intro H. unfold Plane.handleKeyboardEvent.
  destruct (negb _); [exact H |].
  destruct (keyIn key _); [now apply Plane_changeLane_track |].
  destruct (keyIn key _); [now apply Plane_changeLane_track |].
  destruct (keyIn key _); [| exact H].
  unfold jump. now destruct (negb (isJumping s)).
Qed.

Lemma Plane_playing_track {three : Three} f s :
  status (gameState s) = PLAYING -> on_track s -> on_track (Plane.playing f s).
Proof.
  intros P (E & (T1 & T2) & (X1 & X2)).
  assert (L : currentLane (Plane.playing f s) = currentLane s)
    by now destruct (Plane_playing_outcome f s) as (_ & _ & -> & _).
  rewrite Plane_playing_steps in * by exact P.
  set (u := afterPool Plane.moveObstacle 40 Plane_spawned f s) in *.
  destruct (afterPool_fields Plane.moveObstacle 40 Plane_spawned f s)
    as (Pu & Tu & _). fold u in Pu, Tu.
  destruct (Plane_checkCollisions_keeps (Plane.updatePlayer deltaTime (now f) u))
    as (_ & _ & Tc & Xc).
  unfold on_track. rewrite L, Tc, Xc, Plane_updatePlayer_targetX, Plane_lateral, Tu, Pu.
  split; [exact E |]. split; [split; assumption |].
  unfold deltaTime. split; lra.
Qed.

Lemma Plane_animate_track {three : Three} f s :
  on_track s -> on_track (Plane.animate f s).
Proof.
  intro H.
  destruct (GameStatus_eqb (status (gameState s)) PLAYING) eqn:P.
  - apply GameStatus_eqb_eq in P. rewrite Plane_animate_playing by exact P.
    apply Plane_playing_track; [| now apply on_track_entering].
    now destruct (entering_fields f s) as (-> & _).
  - apply GameStatus_eqb_neq in P. unfold Plane.animate. cbv zeta.
    destruct (status (gameState s)); [| contradiction | exact H].
    destruct H as (E & T & _). unfold on_track; cbn.
    split; [exact E |]. split; [exact T | lra].
Qed.

Lemma plane_stays_on_track {three : Three} : stays_on_track plane.
Proof.
  intros s H. induction H as [| e s H IH O].
  - unfold on_track; cbn. split; [reflexivity | split; split; lra].
  - destruct e as [| | key | f]; simpl.
    + exact IH.
    + exact IH.
    + now apply Plane_keydown_track.
    + now apply Plane_animate_track.
Qed.

(** X7: in every state the application can reach, the target of the
    lateral smoothing is the centre of the current lane, [lane * 3], and the
    player group itself is laterally between the centres of the outer lanes,
    -3 and 3, also while it changes lanes, in the menu and after a crash.
    Both skins. *)
Theorem player_stays_on_track {three : Three} :
  stays_on_track cat /\ stays_on_track plane.
Proof. split; [apply cat_stays_on_track | apply plane_stays_on_track]. Qed.

Lemma player_stays_on_track_witness : on_track afterTwoFrames.
Proof.
  apply (proj1 (player_stays_on_track (three := fixedExtents))).
  apply afterTwoFrames_reachable.
Defined.

(** ** The height of a jump *)

Lemma arcHeight_peak (y0 : Q) (m : nat) : arcHeight y0 m <= y0 + 6.5.
Proof.
  unfold arcHeight, Qnat.
  assert (I : (Z.of_nat m * (51 - Z.of_nat m) <= 650)%Z).
  { set (i := Z.of_nat m).
    assert (0 <= (i - 25) * (i - 26))%Z
      by (destruct (Z_le_gt_dec i 25); [apply Z.mul_nonpos_nonpos | apply Z.mul_nonneg_nonneg]; lia).
    lia. }
  unfold Z.sub in I. rewrite Zle_Qle, inject_Z_mult, inject_Z_plus, inject_Z_opp in I.
  change (inject_Z 51) with 51 in I. change (inject_Z 650) with 650 in I.
  lra.
Qed.

Section Apex.

Variable update : Q -> Z -> ThreeSceneComponent -> ThreeSceneComponent.
Hypothesis physics : JumpPhysics update.
Hypothesis grounded_stays :
  forall dt t s, isJumping s = false -> isJumping (update dt t s) = false.
Variable dt : Q.
Variable clock : nat -> Z.
Variable s0 : ThreeSceneComponent.
Hypothesis airborne : isJumping s0 = true.
Hypothesis launched : jumpVelocity s0 = jumpForce.

Lemma airborne_before (m : nat) :
  isJumping (ticks update dt clock m s0) = true ->
  forall j, (j <= m)%nat -> isJumping (ticks update dt clock j s0) = true.
Proof.
  induction m as [| m IH]; intros A j L.
  - now replace j with O by lia.
  - destruct (Nat.eq_dec j (S m)) as [-> | Ne]; [exact A |].
    apply IH; [| lia].
    destruct (isJumping (ticks update dt clock m s0)) eqn:J; [reflexivity |].
    simpl in A. now rewrite (grounded_stays _ _ _ J) in A.
Qed.

Lemma airborne_above_ground (m : nat) :
  isJumping (ticks update dt clock m s0) = true ->
  forall j, (1 <= j <= m)%nat -> 0 < arcHeight (playerY s0) j.
Proof.
  intros A j. induction j as [j IH] using lt_wf_ind. intros [L U].
  destruct j as [| j]; [lia |].
  destruct (arc_rising_or_falling update physics dt clock s0 airborne launched j)
    as (J & V & Y); [intros i Li; apply IH; lia |].
  destruct (Qlt_le_dec 0 (arcHeight (playerY s0) (S j))) as [Pos | Neg];
    [exact Pos | exfalso].
  destruct (arc_touchdown update physics dt clock s0 airborne launched j)
    as (_ & Landed); [intros i Li; apply IH; lia | exact Neg |].
  rewrite (airborne_before m A (S j) U) in Landed. discriminate.
Qed.

Lemma airborne_height (m : nat) :
  isJumping (ticks update dt clock m s0) = true ->
  playerY (ticks update dt clock m s0) <= playerY s0 + 6.5.
Proof.
  intro A.
  destruct (arc_rising_or_falling update physics dt clock s0 airborne launched m)
    as (_ & _ & Y); [now apply airborne_above_ground |].
  rewrite Y. apply arcHeight_peak.
Qed.

Lemma apex_on_frame_25 :
  0 <= playerY s0 ->
  isJumping (ticks update dt clock 25 s0) = true /\
  playerY (ticks update dt clock 25 s0) == playerY s0 + 6.5.
Proof.
  intro G.
  destruct (arc_rising_or_falling update physics dt clock s0 airborne launched 25)
    as (J & _ & Y).
  - intros j [L U]. unfold arcHeight.
    pose proof (Qnat_le 1 j L) as L'. pose proof (Qnat_le j 25 U) as U'.
    assert (E1 : Qnat 1 == 1) by reflexivity.
    assert (E25 : Qnat 25 == 25) by reflexivity.
    rewrite E1 in L'. rewrite E25 in U'. nra.
  - split; [exact J |]. rewrite Y. unfold arcHeight.
    assert (E25 : Qnat 25 == 25) by reflexivity. rewrite E25. lra.
Qed.

End Apex.

Lemma Cat_grounded_stays {three : Three} dt t s :
  isJumping s = false -> isJumping (Cat.updatePlayer dt t s) = false.
Proof. intro J. unfold Cat.updatePlayer. cbn. rewrite J. cbn. exact J. Qed.

Lemma Plane_grounded_stays {three : Three} dt t s :
  isJumping s = false -> isJumping (Plane.updatePlayer dt t s) = false.
Proof. intro J. unfold Plane.updatePlayer. cbn. rewrite J. cbn. exact J. Qed.

Lemma peaks_of
    (update : Q -> Z -> ThreeSceneComponent -> ThreeSceneComponent) :
  JumpPhysics update ->
  (forall dt t s, isJumping s = false -> isJumping (update dt t s) = false) ->
  jump_peaks_near_6_5 update.
Proof.
  intros P G dt clock s J Y0 _.
  assert (A : isJumping (jump s) = true) by (unfold jump; now rewrite J).
  assert (V : jumpVelocity (jump s) = jumpForce) by (unfold jump; now rewrite J).
  assert (Y : playerY (jump s) = playerY s) by apply jump_playerY.
  rewrite <- Y in *. split.
  - intros m Am.
    pose proof (airborne_height update P G dt clock (jump s) A V m Am). lra.
  - destruct (apex_on_frame_25 update P dt clock (jump s) A V Y0) as [Air H].
    split; [exact Air | lra].
Qed.

(** The same bounds on binary64 floats, for a jump from the ground and from
    the top of the run bob of each skin. *)
Lemma binary64_arc_peak :
  forallb Doubles.peaksNear
    [Binary64.zero; Binary64.catBob; Binary64.planeBob] = true.
Proof. vm_compute. reflexivity. Qed.

(** X9: a jump from a grounded height between 0 and 1 stays less than 6.51
    above the height it started from for as long as the player is airborne,
    whatever the deltaTime, and on frame 25 the player is airborne and more
    than 6.49 above its start: the arc peaks 6.5 above the start in exact
    arithmetic, and within 1e-14 of that in binary64.  Both skins. *)
Theorem jump_peaks_6_5_above_its_start {three : Three} :
  jump_peaks_near_6_5 Cat.updatePlayer /\ jump_peaks_near_6_5 Plane.updatePlayer.
Proof.
  split; apply peaks_of.
  - apply Cat_JumpPhysics.
  - apply Cat_grounded_stays.
  - apply Plane_JumpPhysics.
  - apply Plane_grounded_stays.
Qed.

Lemma jump_peaks_6_5_above_its_start_witness :
  (forall m,
     isJumping (ticks (Cat.updatePlayer (three := fixedExtents)) deltaTime
                  (fun i => 5000 + 16 * Z.of_nat i)%Z m (jump started)) = true ->
     playerY (ticks (Cat.updatePlayer (three := fixedExtents)) deltaTime
                (fun i => 5000 + 16 * Z.of_nat i)%Z m (jump started))
     < playerY started + 6.51) /\
  isJumping (ticks (Cat.updatePlayer (three := fixedExtents)) deltaTime
               (fun i => 5000 + 16 * Z.of_nat i)%Z 25 (jump started)) = true /\
  playerY started + 6.49
  < playerY (ticks (Cat.updatePlayer (three := fixedExtents)) deltaTime
               (fun i => 5000 + 16 * Z.of_nat i)%Z 25 (jump started)).
Proof.
  apply (proj1 (jump_peaks_6_5_above_its_start (three := fixedExtents)) deltaTime
           (fun i => 5000 + 16 * Z.of_nat i)%Z started).
  - reflexivity.
  - simpl. lra.
  - simpl. lra.
Defined.

(** ** When the collision check ends the game *)

Lemma crashes_iff_find
    (check : ThreeSceneComponent -> ThreeSceneComponent)
    (crash : ThreeSceneComponent -> ThreeSceneComponent)
    (hits : Object3D -> Obstacle -> bool) :
  (forall s, status (gameState (crash s)) = GAME_OVER) ->
  (forall s, check s = match find (hits (player s)) (obstacles s) with
                       | Some _ => crash s
                       | None => s
                       end) ->
  crashes_iff_hit check hits.
Proof.
  intros C E s P. rewrite E.
  destruct (find (hits (player s)) (obstacles s)) as [o |] eqn:F.
  - apply find_some in F. split.
    + split; [intros _; now exists o | intros _; apply C].
    + intro None. destruct F as (I & H). rewrite (None o I) in H. discriminate.
  - split; [| reflexivity]. split.
    + rewrite P. discriminate.
    + intros (o & I & H). rewrite (find_none _ _ F o I) in H. discriminate.
Qed.

(** X11: from PLAYING, the collision check of either skin sets GAME_OVER
    exactly when at least one obstacle of the pool passes the skin's test
    against the player (for the cat skin: within reach and shrunk boxes
    overlapping; for the plane skin: shrunk boxes overlapping); when none
    does, the component comes back unchanged. *)
Theorem collision_check_crashes_iff_hit {three : Three} :
  crashes_iff_hit Cat.checkCollisions Cat_hits /\
  crashes_iff_hit Plane.checkCollisions Plane_hits.
Proof.
  split.
  - apply (crashes_iff_find _ Cat.handleCrash); [reflexivity |].
    intro s. unfold Cat.checkCollisions. now rewrite Cat_firstCollision_find.
  - apply (crashes_iff_find _ Plane.handleCrash); [reflexivity |].
    intro s. unfold Plane.checkCollisions. cbv zeta.
    now rewrite Plane_firstCollision_find.
Qed.

Lemma collision_check_crashes_iff_hit_witness :
  status (gameState (Cat.checkCollisions (three := fixedExtents) onThePlayer))
  = GAME_OVER <->
  exists o, In o (obstacles onThePlayer) /\
            Cat_hits (three := fixedExtents) (player onThePlayer) o = true.
Proof.
  apply (proj1 (collision_check_crashes_iff_hit (three := fixedExtents))
           onThePlayer).
  reflexivity.
Defined.

Lemma outOfReach_misses {three : Three} player obs :
  outOfReach player obs -> Cat_hits player obs = false.
Proof.
  intros [Far | Far]; unfold Cat_hits, Cat_near.
  - rewrite (proj2 (Qltb_ge _ _) Far). now rewrite andb_false_r.
  - now rewrite (proj2 (Qltb_ge _ _) Far).
Qed.

(** X12: in the cat skin an obstacle whose group is 1.0 or more sideways,
    or 1.5 or more in depth, from the player group never ends the game,
    however large the bounding boxes are: with every obstacle of the pool out
    of reach the collision check returns the component unchanged.  (The
    plane skin has no such pre-check.) *)
Theorem cat_ignores_obstacles_out_of_reach {three : Three}
    (s : ThreeSceneComponent) :
  Forall (outOfReach (player s)) (obstacles s) -> Cat.checkCollisions s = s.
Proof.
  intro Far. unfold Cat.checkCollisions. rewrite Cat_firstCollision_find.
  destruct (find (Cat_hits (player s)) (obstacles s)) as [o |] eqn:F;
    [| reflexivity].
  apply find_some in F. destruct F as (I & H).
  rewrite Forall_forall in Far.
  rewrite (outOfReach_misses _ _ (Far o I)) in H. discriminate.
Qed.

Lemma cat_ignores_obstacles_out_of_reach_witness :
  Cat.checkCollisions (three := fixedExtents) besideInNextLane
  = besideInNextLane.
Proof.
  apply (cat_ignores_obstacles_out_of_reach (three := fixedExtents)).
  constructor; [| constructor]. left. vm_compute. discriminate.
Defined.

(** ** Frames: the lane, and a restart within a frame *)

Lemma cat_restart_skips_reset {three : Three} : restart_skips_reset cat Cat.playing.
Proof.
  intros s f1 f2 P G restarted.
  assert (L : lastGameStatus (onFrame cat f1 s) = PLAYING)
    by (rewrite (frame_last cat cat_disciplined); exact P).
  split; [| split].
  - simpl. unfold GameStateService.isGameOver. simpl in G. rewrite G.
    apply orb_true_r.
  - reflexivity.
  - simpl. rewrite Cat_animate_playing by reflexivity.
    now rewrite entering_when_playing.
Qed.

Lemma cat_frames_leave_lane {three : Three} : frames_leave_lane cat.
Proof.
  intros f s L. simpl.
  destruct (GameStatus_eqb (status (gameState s)) PLAYING) eqn:P.
  - apply GameStatus_eqb_eq in P.
    rewrite Cat_animate_playing, entering_when_playing by auto.
    rewrite Cat_playing_steps by exact P.
    destruct (Cat_playing_outcome f s) as (_ & _ & Lane & _).
    rewrite Cat_playing_steps in Lane by exact P. split; [exact Lane |].
    destruct (Cat_checkCollisions_keeps
                (Cat.updatePlayer deltaTime (now f)
                   (afterPool Cat.moveObstacle 30 Cat_spawned f s)))
      as (_ & _ & -> & _).
    rewrite Cat_updatePlayer_targetX.
    now destruct (afterPool_fields Cat.moveObstacle 30 Cat_spawned f s)
      as (_ & -> & _).
  - apply GameStatus_eqb_neq in P. unfold Cat.animate. cbv zeta.
    destruct (status (gameState s)); [| contradiction |]; split; reflexivity.
Qed.

Lemma plane_restart_skips_reset {three : Three} : restart_skips_reset plane Plane.playing.
Proof.
  intros s f1 f2 P G restarted.
  assert (L : lastGameStatus (onFrame plane f1 s) = PLAYING)
    by (rewrite (frame_last plane plane_disciplined); exact P).
  split; [| split].
  - simpl. unfold GameStateService.isGameOver. simpl in G. rewrite G.
    apply orb_true_r.
  - reflexivity.
  - simpl. rewrite Plane_animate_playing by reflexivity.
    now rewrite entering_when_playing.
Qed.

Lemma plane_frames_leave_lane {three : Three} : frames_leave_lane plane.
Proof.
  intros f s L. simpl.
  destruct (GameStatus_eqb (status (gameState s)) PLAYING) eqn:P.
  - apply GameStatus_eqb_eq in P.
    rewrite Plane_animate_playing, entering_when_playing by auto.
    rewrite Plane_playing_steps by exact P.
    destruct (Plane_playing_outcome f s) as (_ & _ & Lane & _).
    rewrite Plane_playing_steps in Lane by exact P. split; [exact Lane |].
    destruct (Plane_checkCollisions_keeps
                (Plane.updatePlayer deltaTime (now f)
                   (afterPool Plane.moveObstacle 40 Plane_spawned f s)))
      as (_ & _ & -> & _).
    rewrite Plane_updatePlayer_targetX.
    now destruct (afterPool_fields Plane.moveObstacle 40 Plane_spawned f s)
      as (_ & -> & _).
  - apply GameStatus_eqb_neq in P. unfold Plane.animate. cbv zeta.
    destruct (status (gameState s)); [| contradiction |]; split; reflexivity.
Qed.

(** X13: a frame never changes the lane or the lateral target, in any
    status, except the frame that resets at the start of a run: lanes
    change on key presses only.  Both skins. *)
Theorem frames_never_change_the_lane {three : Three} :
  frames_leave_lane cat /\ frames_leave_lane plane.
Proof. split; [apply cat_frames_leave_lane | apply plane_frames_leave_lane]. Qed.

Lemma frames_never_change_the_lane_witness :
  currentLane (onFrame (cat (three := fixedExtents)) (frameAt 7016) afterTwoFrames)
  = currentLane afterTwoFrames /\
  targetX (onFrame (cat (three := fixedExtents)) (frameAt 7016) afterTwoFrames)
  = targetX afterTwoFrames.
Proof.
  apply (proj1 (frames_never_change_the_lane (three := fixedExtents))).
  intros _. vm_compute. reflexivity.
Defined.

(** X15: when a frame ends a run (PLAYING before, GAME_OVER after), the
    start button is offered at once, and if it is clicked before the next
    frame, that frame finds [lastGameStatus] still PLAYING and runs the
    PLAYING branch without the reset: the new run starts on the pool, the
    lane and the crash pose of the run that just ended.  Both skins. *)
Theorem restart_within_a_frame_skips_the_reset {three : Three} :
  restart_skips_reset cat Cat.playing /\ restart_skips_reset plane Plane.playing.
Proof. split; [apply cat_restart_skips_reset | apply plane_restart_skips_reset]. Qed.

Lemma restart_within_a_frame_skips_the_reset_witness :
  offered Click_startGame
    (onFrame (cat (three := fixedExtents)) (frameAt 9000) onThePlayer) = true /\
  obstacles (step (cat (three := fixedExtents)) Click_startGame
               (onFrame (cat (three := fixedExtents)) (frameAt 9000) onThePlayer))
  = obstacles (onFrame (cat (three := fixedExtents)) (frameAt 9000) onThePlayer) /\
  onFrame (cat (three := fixedExtents)) (frameAt 9016)
    (step (cat (three := fixedExtents)) Click_startGame
       (onFrame (cat (three := fixedExtents)) (frameAt 9000) onThePlayer))
  = Cat.playing (three := fixedExtents) (frameAt 9016)
      (step (cat (three := fixedExtents)) Click_startGame
         (onFrame (cat (three := fixedExtents)) (frameAt 9000) onThePlayer)).
Proof.
  apply (proj1 (restart_within_a_frame_skips_the_reset (three := fixedExtents))
           onThePlayer (frameAt 9000) (frameAt 9016)).
  - reflexivity.
  - vm_compute. reflexivity.
Defined.

(** ** The two skins handle keys alike *)

Lemma sameButPlayer_fields (a b : ThreeSceneComponent) :
  sameButPlayer a b ->
  gameState b = gameState a /\ currentLane b = currentLane a /\
  isJumping b = isJumping a.
Proof. intros ->. repeat split. Qed.

Lemma keydown_sameButPlayer key a b :
  sameButPlayer a b ->
  sameButPlayer (Cat.handleKeyboardEvent key a) (Plane.handleKeyboardEvent key b).
Proof.
  intro E. destruct (sameButPlayer_fields a b E) as (G & L & J).
  unfold sameButPlayer in *. rewrite E.
  unfold Cat.handleKeyboardEvent, Plane.handleKeyboardEvent,
    Cat.changeLane, Plane.changeLane, jump.
  cbn [gameState set_player currentLane isJumping].
  destruct (negb (GameStateService.isPlaying (gameState a))); [reflexivity |].
  destruct (keyIn key _); [destruct (_ && _)%bool; reflexivity |].
  destruct (keyIn key _); [destruct (_ && _)%bool; reflexivity |].
  destruct (keyIn key _); [| reflexivity].
  destruct (negb (isJumping a)); reflexivity.
Qed.

(** X14: the two skins handle every run of key presses alike: started from
    components that differ at most in the player group, they end in
    components that differ at most in the player group (the cat skin rolls
    the player on a lane change, the plane skin does not), so lane, target,
    airborne flag and jump velocity always agree. *)
Theorem skins_agree_on_keys (keys : list string) (a b : ThreeSceneComponent) :
  sameButPlayer a b ->
  sameButPlayer
    (fold_left (fun s key => Cat.handleKeyboardEvent key s) keys a)
    (fold_left (fun s key => Plane.handleKeyboardEvent key s) keys b).
Proof.
  revert a b. induction keys as [| key keys IH]; intros a b E; simpl.
  - exact E.
  - apply IH. now apply keydown_sameButPlayer.
Qed.

Lemma skins_agree_on_keys_witness :
  sameButPlayer
    (fold_left (fun s key => Cat.handleKeyboardEvent key s)
       ["a"; "ArrowUp"; "d"; "d"] started)
    (fold_left (fun s key => Plane.handleKeyboardEvent key s)
       ["a"; "ArrowUp"; "d"; "d"] started).
Proof.
  apply (skins_agree_on_keys ["a"; "ArrowUp"; "d"; "d"] started started).
  reflexivity.
Defined.
